(** * loopback-controller-mixin: the controller mixin, embedded and verified

    A shallow embedding of [lib/controller.js]: the descriptor normaliser
    [prepare], the visibility resolver [hideEndpoints] / [getSettings], the
    registration engine [loadController] and the mixin entry point
    [Controller].

    The source mutates the objects it is handed (the endpoint definition, its
    [options], its ACL entries, the model), and several of those objects may
    be one and the same.  The embedding therefore keeps a store of objects
    addressed by location, and every property read and write of the source
    is a read or write of that store.

    The fragment of JavaScript that is covered: values are [undefined],
    [null], booleans, integers, ASCII strings and references to plain
    objects, dense arrays and functions; objects have no accessors, are not
    frozen and inherit no property a user defined; the module runs in strict
    mode, as the source declares.  Functions are opaque: calling one that
    the user supplied, or printing an object, ends a run as [Unmodelled];
    the built-in [name] and [length] of a function read as [undefined]
    and cannot be assigned.
    Logging through [debug] has no effect on the store and is left out. *)

From Stdlib Require Import ZArith String Ascii DecimalString.
From stdpp Require Import base option list strings pretty.

Open Scope string_scope.
Open Scope list_scope.

(** ** JavaScript values and the object store *)

Abbreviation loc := nat.

Inductive value : Type :=
  | VUndefined
  | VNull
  | VBool (b : bool)
  | VNum (n : Z)
  | VStr (s : string)
  | VRef (l : loc).

#[global] Instance value_eq_dec : EqDecision value.
Proof. solve_decision. Defined.

Inductive kind : Type := KObject | KArray | KFunction.

#[global] Instance kind_eq_dec : EqDecision kind.
Proof. solve_decision. Defined.

(** An object carries its own enumerable properties, in the order
    [Object.keys] lists them; an array carries its elements besides. *)
Record object : Type := Obj {
  okind : kind;
  elems : list value;
  props : list (string * value)
}.

(** The calls the mixin makes on the host framework's model. *)
Inductive call : Type :=
  | RemoteMethod (model : value) (name : string) (spec : value)
  | RemoteHook (model : value) (type name : string) (handler : value)
  | DisableRemoteMethodByName (model : value) (name : value).

Record world : Type := World {
  heap : list object;
  calls : list call
}.

Inductive error : Type :=
  | TypeError
  | HandlerIsNotSet.

(** A run returns, throws, or leaves the fragment of JavaScript that is
    modelled (a user-defined method would have to be run, or an object
    would have to be printed). *)
Inductive outcome (A : Type) : Type :=
  | Ret (a : A)
  | Throw (e : error)
  | Unmodelled.
Arguments Ret {A} a.
Arguments Throw {A} e.
Arguments Unmodelled {A}.

Definition M (A : Type) : Type := world → outcome (A * world).

#[global] Instance M_ret : MRet M := λ A a w, Ret (a, w).
#[global] Instance M_bind : MBind M := λ A B k m w,
  match m w with
  | Ret (a, w') => k a w'
  | Throw e => Throw e
  | Unmodelled => Unmodelled
  end.

Definition throw {A} (e : error) : M A := λ _, Throw e.
Definition unmodelled {A} : M A := λ _, Unmodelled.

(** ** Primitive operations of the language *)

Definition truthy (v : value) : bool :=
  match v with
  | VUndefined | VNull => false
  | VBool b => b
  | VNum n => negb (n =? 0)%Z
  | VStr s => negb (s =? "")
  | VRef _ => true
  end.

Fixpoint assoc (k : string) (ps : list (string * value)) : option value :=
  match ps with
  | [] => None
  | (k', v) :: ps => if k' =? k then Some v else assoc k ps
  end.

(** Assignment keeps the position of a key that exists and appends a new one. *)
Fixpoint assign (k : string) (v : value) (ps : list (string * value))
    : list (string * value) :=
  match ps with
  | [] => [(k, v)]
  | (k', v') :: ps => if k' =? k then (k', v) :: ps else (k', v') :: assign k v ps
  end.

(** [k] read as an array index: the canonical decimal numerals only. *)
Definition array_index (k : string) : option nat :=
  match NilZero.uint_of_string k with
  | Some d => let i := Nat.of_uint d in if pretty i =? k then Some i else None
  | None => None
  end.

Definition is_index (k : string) : bool := bool_decide (is_Some (array_index k)).

Definition own (o : object) (k : string) : value :=
  match okind o with
  | KArray =>
      if k =? "length" then VNum (Z.of_nat (length (elems o)))
      else match array_index k with
           | Some i => default VUndefined (elems o !! i)
           | None => default VUndefined (assoc k (props o))
           end
  | _ => default VUndefined (assoc k (props o))
  end.

Definition deref (l : loc) : M object := λ w,
  match heap w !! l with
  | Some o => Ret (o, w)
  | None => Throw TypeError
  end.

(** [v.k] and [v[k]].  None of the names the source reads is defined on the
    prototype of a boolean, a number or a string, so that a primitive
    yields [undefined].  A reference always points into the store of a
    running program; one that does not is treated like [undefined]. *)
Definition get (v : value) (k : string) : M value :=
  match v with
  | VUndefined | VNull => throw TypeError
  | VBool _ | VNum _ | VStr _ => mret VUndefined
  | VRef l => o ← deref l; mret (own o k)
  end.

(** [v.k = x] in strict mode.  Writing an index (on any object it would
    take its place among the keys by its value) or the length of an array
    is outside the fragment; the source assigns to fixed names and to
    endpoint names, which begin with [endpoint:] or [prototype.].  The
    [name] and the [length] of a function are read-only, and assigning to
    them is a TypeError. *)
Definition set (v : value) (k : string) (x : value) : M unit :=
  match v with
  | VRef l => λ w,
      match heap w !! l with
      | Some o =>
          if is_index k || ((k =? "length") && bool_decide (okind o = KArray))
          then Unmodelled
          else if ((k =? "name") || (k =? "length"))
                  && bool_decide (okind o = KFunction)
          then Throw TypeError
          else Ret (tt, World (<[l := Obj (okind o) (elems o) (assign k x (props o))]> (heap w))
                              (calls w))
      | None => Throw TypeError
      end
  | _ => throw TypeError
  end.

(** An object or array literal. *)
Definition alloc (o : object) : M value := λ w,
  Ret (VRef (length (heap w)), World (heap w ++ [o]) (calls w)).

Definition emit (c : call) : M unit := λ w,
  Ret (tt, World (heap w) (calls w ++ [c])).

Definition typeof (v : value) : M string :=
  match v with
  | VUndefined => mret "undefined"
  | VNull => mret "object"
  | VBool _ => mret "boolean"
  | VNum _ => mret "number"
  | VStr _ => mret "string"
  | VRef l => o ← deref l;
      mret (match okind o with KFunction => "function" | _ => "object" end)
  end.

(** Calling [v.m(...)] where [m] is not a built-in method of [v]: the own
    property is looked up; a function found there is user code. *)
Definition call_own (v : value) (m : string) {A} : M A :=
  f ← get v m;
  t ← typeof f;
  if t =? "function" then unmodelled else throw TypeError.

(** String conversion, as [+] applies it to a non-string operand.  An
    integer below [2^53] in magnitude prints in decimal, digit by digit;
    from there on JavaScript prints the digits of the nearest double, and
    from [10^21] on an exponent, which is outside the fragment, as is
    printing an object. *)
Definition text (v : value) : option string :=
  match v with
  | VUndefined => Some "undefined"
  | VNull => Some "null"
  | VBool b => Some (if b then "true" else "false")
  | VNum n => if (Z.abs n <? 2 ^ 53)%Z then Some (pretty n) else None
  | VStr s => Some s
  | VRef _ => None
  end.

Definition to_string (v : value) : M string :=
  match text v with
  | Some s => mret s
  | None => unmodelled
  end.

Definition lower_ascii (c : ascii) : ascii :=
  let n := nat_of_ascii c in
  if (65 <=? n)%nat && (n <=? 90)%nat then ascii_of_nat (n + 32) else c.

Fixpoint lower (s : string) : string :=
  match s with
  | EmptyString => EmptyString
  | String c s => String (lower_ascii c) (lower s)
  end.

(** [v.toLowerCase()]; strings are ASCII text. *)
Definition toLowerCase (v : value) : M value :=
  match v with
  | VStr s => mret (VStr (lower s))
  | _ => call_own v "toLowerCase"
  end.

(** [a || b], with [b] evaluated only when [a] is falsy. *)
Definition or_else (a : value) (b : M value) : M value :=
  if truthy a then mret a else b.

(** ** Constants *)

Definition MODEL_METHODS : list string :=
  ["count"; "create"; "createChangeStream"; "deleteById"; "exists"; "find";
   "findById"; "findOne"; "patchOrCreate"; "prototype.patchAttributes";
   "replaceById"; "replaceOrCreate"; "updateAll"; "upsertWithWhere"].

Definition RELATION_METHODS : list string :=
  ["count"; "create"; "delete"; "destroy"; "destroyById"; "findById"; "get";
   "update"; "updateById"].

Definition SCOPE_METHODS : list string :=
  ["get"; "create"; "delete"; "count"].

Definition CONTROLLER_NAME_PREFIX : string := "endpoint:".
Definition CONTROLLER_DEFAULT_DIR : string := "./common/controllers/".

(** ** [getEndpointName] and [prepare] *)

Definition getEndpointName (name : value) : M string :=
  s ← to_string name; mret (CONTROLLER_NAME_PREFIX +:+ s).

Record hook : Type := Hook { type : string; hook_handler : value }.

(** The object [prepare] returns: a fresh literal, read by [loadController]
    and never written. *)
Record controller : Type := Prepared {
  name : string;
  isStatic : value;
  remoteMethod : value;
  acls : list value;
  handler : value;
  hooks : list hook
}.

(** The callback of [definition.acls.map], lines 203-212. *)
Definition default_acl (name : string) (acl : value) : M value :=
  property ← get acl "property";
  (if truthy property then mret tt else set acl "property" (VStr name));;
  principalType ← get acl "principalType";
  (if truthy principalType then mret tt else set acl "principalType" (VStr "ROLE"));;
  mret acl.

Fixpoint array_map (f : value → M value) (xs : list value) : M (list value) :=
  match xs with
  | [] => mret []
  | x :: xs => y ← f x; ys ← array_map f xs; mret (y :: ys)
  end.

(** [v.map(f)] *)
Definition map_method (f : value → M value) (v : value) : M (list value) :=
  match v with
  | VRef l =>
      o ← deref l;
      match okind o with
      | KArray => array_map f (elems o)
      | _ => call_own v "map"
      end
  | _ => call_own v "map"
  end.

Definition push_hook (type : string) (h : value) (hooks : list hook) : list hook :=
  if truthy h then hooks ++ [Hook type h] else hooks.

Definition prepare (definition : value) : M controller :=
  (* line 174 *)
  options ← get definition "options";
  remoteMethod ← or_else options (alloc (Obj KObject [] []));
  (* lines 176-177 *)
  is0 ← get definition "isStatic";
  (if bool_decide (is0 = VUndefined) || bool_decide (is0 = VNull)
   then set definition "isStatic" (VBool true) else mret tt);;
  (* lines 179-182 *)
  n ← get definition "name";
  name ← getEndpointName n;
  is1 ← get definition "isStatic";
  let name := if truthy is1 then name else "prototype." +:+ name in
  (* lines 185-186 *)
  http ← get remoteMethod "http";
  (if truthy http then mret tt
   else o ← alloc (Obj KObject [] []); set remoteMethod "http" o);;
  (* line 188: the target, then the right-hand side, then the store *)
  http ← get remoteMethod "http";
  verb ← get definition "verb";
  lowered ← toLowerCase verb;
  set http "verb" (if truthy lowered then lowered else VStr "get");;
  (* line 189 *)
  http ← get remoteMethod "http";
  path ← get definition "path";
  set http "path" path;;
  (* lines 191-192 *)
  description ← get definition "description";
  (if truthy description then set remoteMethod "description" description
   else mret tt);;
  (* lines 194-195 *)
  accepts ← get definition "accepts";
  accepts ← or_else accepts (alloc (Obj KArray [] []));
  set remoteMethod "accepts" accepts;;
  returns ← get definition "returns";
  returns ← or_else returns
    (alloc (Obj KObject [] [("root", VBool true); ("type", VStr "object")]));
  set remoteMethod "returns" returns;;
  (* lines 198-201 *)
  acls0 ← get definition "acls";
  is_object ← (if truthy acls0 return M bool
               then t ← typeof acls0; mret (t =? "object")
               else mret false);
  (if is_object : bool
   then a ← alloc (Obj KArray [acls0] []); set definition "acls" a
   else if negb (truthy acls0)
   then a ← alloc (Obj KArray [] []); set definition "acls" a
   else mret tt);;
  (* lines 203-212 *)
  acls1 ← get definition "acls";
  acls ← map_method (default_acl name) acls1;
  (* line 215 *)
  handler ← get definition "handler";
  (if truthy handler then mret tt else throw HandlerIsNotSet);;
  (* lines 216-219 *)
  before ← get definition "before";
  after ← get definition "after";
  error ← get definition "error";
  let hooks := push_hook "afterRemoteError" error
                 (push_hook "afterRemote" after
                    (push_hook "beforeRemote" before [])) in
  (* lines 221-228 *)
  is2 ← get definition "isStatic";
  mret (Prepared name is2 remoteMethod acls handler hooks).

(** ** [getSettings] and [hideEndpoints] *)

(** [Object.keys(v)] *)
Definition indices (n : nat) : list string := pretty <$> seq 0 n.

Definition keys_of (o : object) : list string :=
  match okind o with
  | KArray => indices (length (elems o)) ++ (fst <$> props o)
  | _ => fst <$> props o
  end.

Definition Object_keys (v : value) : M (list string) :=
  match v with
  | VUndefined | VNull => throw TypeError
  | VBool _ | VNum _ => mret []
  | VStr s => mret (indices (String.length s))
  | VRef l => o ← deref l; mret (keys_of o)
  end.

(** lodash's [_.union] of two arrays: the values of both, in order, each
    kept at its first occurrence. *)
Fixpoint uniq (seen xs : list string) : list string :=
  match xs with
  | [] => []
  | x :: xs => if bool_decide (x ∈ seen) then uniq seen xs
               else x :: uniq (x :: seen) xs
  end.

Definition union (xs ys : list string) : list string := uniq [] (xs ++ ys).

(** [Array.prototype.indexOf]: the first position holding a value strictly
    equal to [x], or -1. *)
Fixpoint indexOf (xs : list value) (x : value) : Z :=
  match xs with
  | [] => -1
  | y :: ys => if bool_decide (y = x) then 0
               else let i := indexOf ys x in if (i <? 0)%Z then -1 else (i + 1)%Z
  end.

(** [v.indexOf(key)] for a string [key]: an array searches its elements, a
    string searches its text. *)
Definition indexOf_method (v : value) (key : string) : M Z :=
  match v with
  | VStr s => mret (match index 0 key s with Some i => Z.of_nat i | None => -1 end)%Z
  | VRef l =>
      o ← deref l;
      match okind o with
      | KArray => mret (indexOf (elems o) (VStr key))
      | _ => call_own v "indexOf"
      end
  | _ => call_own v "indexOf"
  end.

(** [Array.isArray(v)], with the elements when it holds. *)
Definition as_array (v : value) : M (option (list value)) :=
  match v with
  | VRef l =>
      o ← deref l;
      mret (match okind o with KArray => Some (elems o) | _ => None end)
  | _ => mret None
  end.

(** [v.concat(ys)] for an array [ys]; the result is a fresh array. *)
Definition concat_method (v : value) (ys : list value) : M (list value) :=
  match v with
  | VStr _ => unmodelled
  | VRef l =>
      o ← deref l;
      match okind o with
      | KArray => mret (elems o ++ ys)
      | _ => call_own v "concat"
      end
  | _ => call_own v "concat"
  end.

(** The [reduce] over the keys, lines 141-148. *)
Fixpoint reduce_keys (prefix : string) (predefinedMethods : list string)
    (whitelist : value) (blacklist : list string) (keys : list string)
    : M (list string) :=
  match keys with
  | [] => mret blacklist
  | key :: keys =>
      i ← indexOf_method whitelist key;
      if (0 <=? i)%Z
      then reduce_keys prefix predefinedMethods whitelist blacklist keys
      else
        let n := (λ m, prefix +:+ m +:+ "__" +:+ key) <$> predefinedMethods in
        reduce_keys prefix predefinedMethods whitelist (blacklist ++ n) keys
  end.

Definition getSettings (model : value) (name : string) (whitelist : value)
    : M (list string) :=
  definition ← get model "definition";
  settings ← get definition "settings";
  setting ← get settings name;
  keys ← (if truthy setting then Object_keys setting else mret []);
  live ← get model name;
  keys ← (if truthy live then ks ← Object_keys live; mret (union keys ks)
          else mret keys);
  if name =? "relations"
  then reduce_keys "prototype.__" RELATION_METHODS whitelist [] keys
  else if name =? "scopes"
  then reduce_keys "__" SCOPE_METHODS whitelist [] keys
  else mret [].

(** A method of the host framework called on the model: LoopBack models
    provide [remoteMethod], the three hook registrars and
    [disableRemoteMethodByName]; the call is recorded. *)
Definition framework (model : value) (c : call) : M unit :=
  match model with
  | VRef l => _ ← deref l; emit c
  | _ => throw TypeError
  end.

Fixpoint for_each {A} (f : A → M unit) (xs : list A) : M unit :=
  match xs with
  | [] => mret tt
  | x :: xs => f x;; for_each f xs
  end.

(** The base operations to hide: the local [modelMethods], lines 91-98. *)
Definition modelMethods (filter : value) : M (list string) :=
  arr ← (if truthy filter then as_array filter else mret None);
  match arr with
  | Some (w :: ws) =>
      mret (List.filter (λ methodName, (indexOf (w :: ws) (VStr methodName) <? 0)%Z)
              MODEL_METHODS)
  | _ => mret MODEL_METHODS
  end.

Definition hideEndpoints (model blacklist whitelist : value) : M unit :=
  filter ← get whitelist "base";
  modelMethods ← modelMethods filter;
  (* line 100 *)
  blacklist ← concat_method blacklist (VStr <$> modelMethods);
  (* line 102: [whitelist.relation], as the source has it *)
  relation ← get whitelist "relation";
  relation ← or_else relation (alloc (Obj KArray [] []));
  relations ← getSettings model "relations" relation;
  let blacklist := blacklist ++ (VStr <$> relations) in
  (* line 104 *)
  scopes ← get whitelist "scopes";
  scopes ← or_else scopes (alloc (Obj KArray [] []));
  scopes ← getSettings model "scopes" scopes;
  let blacklist := blacklist ++ (VStr <$> scopes) in
  (* lines 107-110 *)
  for_each (λ n, framework model (DisableRemoteMethodByName model n)) blacklist.

(** ** [loadController] *)

(** The body of the loop, lines 240-265. *)
Definition load_one (model : value) (def : controller) : M unit :=
  framework model (RemoteMethod model (name def) (remoteMethod def));;
  (if truthy (isStatic def) then set model (name def) (handler def)
   else prototype ← get model "prototype"; set prototype (name def) (handler def));;
  (match acls def with
   | [] => mret tt
   | _ :: _ =>
       settings ← get model "settings";
       current ← get settings "acls";
       (if truthy current then mret tt
        else a ← alloc (Obj KArray [] []);
             settings ← get model "settings";
             set settings "acls" a);;
       settings ← get model "settings";
       settings' ← get model "settings";
       current ← get settings' "acls";
       merged ← concat_method current (acls def);
       a ← alloc (Obj KArray merged []);
       set settings "acls" a
   end);;
  for_each (λ h, framework model (RemoteHook model (type h) (name def) (hook_handler h)))
    (hooks def).

Definition loadController (model : value) (controllers : list controller) : M unit :=
  for_each (load_one model) controllers.

(** ** [Controller] *)

Section Mixin.

(** What the mixin takes from outside the repository: lodash's
    [_.kebabCase], Node's [path.resolve], and [require(filePath)] applied
    to the model and the array it fills. *)
Variable kebabCase : value → M string.
Variable path_resolve : string → string → string.
Variable require : value → value → value → M unit.

(** The [map] over the keys, lines 64-68. *)
Fixpoint prepare_all (controllers : value) (keys : list string)
    : M (list controller) :=
  match keys with
  | [] => mret []
  | name :: keys =>
      controller ← get controllers name;
      set controller "name" (VStr name);;
      c ← prepare controller;
      cs ← prepare_all controllers keys;
      mret (c :: cs)
  end.

Definition Controller (Model options : value) : M unit :=
  shared ← (if truthy Model then get Model "sharedClass" else mret Model);
  if truthy shared then
    meta ← get options "_meta";
    meta ← or_else meta (alloc (Obj KObject [] []));
    fileName ← get meta "fileName";
    fileName ← or_else fileName
      (modelName ← get Model "modelName"; s ← kebabCase modelName; mret (VStr s));
    filePath ← get meta "filePath";
    filePath ← or_else filePath
      (s ← to_string fileName;
       mret (VStr (path_resolve CONTROLLER_DEFAULT_DIR (s +:+ ".js"))));
    controllers ← alloc (Obj KArray [] []);
    require filePath Model controllers;;
    keys ← Object_keys controllers;
    controllers ← prepare_all controllers keys;
    loadController Model controllers;;
    blacklist ← get options "blacklist";
    blacklist ← or_else blacklist (alloc (Obj KArray [] []));
    whitelist ← get options "whitelist";
    whitelist ← or_else whitelist (alloc (Obj KObject [] []));
    hideEndpoints Model blacklist whitelist
  else mret tt.

End Mixin.

(** * The vocabulary of the statements *)

#[global] Instance call_eq_dec : EqDecision call.
Proof. solve_decision. Defined.

(** ** The store seen from one location *)

Definition valid (w : world) (l : loc) : Prop := (l < length (heap w))%nat.

(** The property [k] of the object at [l], [undefined] when it has none. *)
Definition own_at (w : world) (l : loc) (k : string) : value :=
  from_option (λ o, own o k) VUndefined (heap w !! l).

Definition kind_at (w : world) (l : loc) : option kind := okind <$> heap w !! l.

Definition elems_at (w : world) (l : loc) : list value :=
  from_option elems [] (heap w !! l).

(** What [v.k] yields when it yields. *)
Definition prop_of (w : world) (v : value) (k : string) : value :=
  match v with
  | VRef l => own_at w l k
  | _ => VUndefined
  end.

(** A key that is neither an index nor [length] or [name]: assignable on
    any object. *)
Definition named (k : string) : bool :=
  negb (is_index k || (k =? "length") || (k =? "name")).

(** ** Frames *)

(** [frame K w w']: going from [w] to [w'] no call was made on the
    framework, every object of [w] is still there with its kind and its
    elements, and only properties named in [K] may have another value. *)
Record frame (K : list string) (w w' : world) : Prop := Frame {
  frame_calls : calls w' = calls w;
  frame_length : (length (heap w) ≤ length (heap w'))%nat;
  frame_kind : ∀ l, valid w l → kind_at w' l = kind_at w l;
  frame_elems : ∀ l, valid w l → elems_at w' l = elems_at w l;
  frame_own : ∀ l k, valid w l → k ∉ K → own_at w' l k = own_at w l k
}.

(** [writes K m]: a run of [m] that returns is framed by [K]. *)
Definition writes {A} (K : list string) (m : M A) : Prop :=
  ∀ w a w', m w = Ret (a, w') → frame K w w'.

(** [pure m]: [m] reads the store and leaves it as it is. *)
Definition pure {A} (m : M A) : Prop :=
  ∀ w a w', m w = Ret (a, w') → w' = w.

(** The property names [prepare] assigns to. *)
Definition prepare_keys : list string :=
  ["isStatic"; "http"; "verb"; "path"; "description"; "accepts"; "returns";
   "acls"; "property"; "principalType"].

(** ** Outcomes *)

Definition returns {A} (m : M A) (w : world) : Prop := ∃ a w', m w = Ret (a, w').

(** [ends Q m w]: the outcome of [m] from [w] satisfies [Q]. *)
Definition ends {A} (Q : outcome (A * world) → Prop) (m : M A) (w : world) : Prop :=
  Q (m w).

(** [quiet m]: [m] never raises the error of the handler check. *)
Definition quiet {A} (m : M A) : Prop := ∀ w, m w ≠ Throw HandlerIsNotSet.

(** How [prepare] ends on a well-formed definition, by its handler [h]. *)
Definition by_handler (h : value) (o : outcome (controller * world)) : Prop :=
  if truthy h then ∃ c w', o = Ret (c, w') else o = Throw HandlerIsNotSet.

(** ** The values of the source's tests *)

(** [v === undefined || v === null] *)
Definition unset (v : value) : bool :=
  bool_decide (v = VUndefined) || bool_decide (v = VNull).

(** [v || d] on values. *)
Definition or_default (d v : value) : value := if truthy v then v else d.

(** The fixed base set minus the whitelisted names, in the order of the
    base set: the specification's wording. *)
Definition base_minus (W : list value) : list string :=
  filter (λ methodName, VStr methodName ∉ W) MODEL_METHODS.

(** ** Well-formed definitions *)

(** An endpoint definition as the data model has it, its handler apart:
    an object with a string name and a string verb; its [options], when
    given, an object whose [http], when given, is an object; its [acls],
    when given, an object or an array. *)
Record well_formed (w : world) (l : loc) : Prop := WellFormed {
  wf_valid : valid w l;
  wf_name : ∃ n, own_at w l "name" = VStr n;
  wf_verb : ∃ s, own_at w l "verb" = VStr s;
  wf_options :
    truthy (own_at w l "options") = false ∨
    ∃ lo, own_at w l "options" = VRef lo ∧ valid w lo ∧
      (truthy (own_at w lo "http") = false ∨
       ∃ lh, own_at w lo "http" = VRef lh ∧ valid w lh);
  wf_acls :
    truthy (own_at w l "acls") = false ∨
    ∃ la, own_at w l "acls" = VRef la ∧
      (kind_at w la = Some KObject ∨ kind_at w la = Some KArray)
}.

(** ** Sample stores *)

(** [{name: "login", verb: "POST", path: "/login", handler: fn}] at 0. *)
Definition login_world : world :=
  World [Obj KObject [] [("name", VStr "login"); ("verb", VStr "POST");
                         ("path", VStr "/login"); ("handler", VRef 1)];
         Obj KFunction [] []] [].

(** [{name: "ping", verb: "GET", isStatic: false, handler: fn}] at 0. *)
Definition ping_world : world :=
  World [Obj KObject [] [("name", VStr "ping"); ("verb", VStr "GET");
                         ("isStatic", VBool false); ("handler", VRef 1)];
         Obj KFunction [] []] [].

(** [{name: "ping", isStatic: false, handler: fn}] at 0: no verb. *)
Definition ping_without_verb : world :=
  World [Obj KObject [] [("name", VStr "ping"); ("isStatic", VBool false);
                         ("handler", VRef 1)];
         Obj KFunction [] []] [].

(** [{name: "ping"}] at 0: neither verb nor handler. *)
Definition ping_without_handler : world :=
  World [Obj KObject [] [("name", VStr "ping")]] [].

(** [{name: "ping", verb: "get", acls: [{permission: "ALLOW"}], handler: fn}]
    at 0; the array at 2, its entry at 3. *)
Definition acl_list_world : world :=
  World [Obj KObject [] [("name", VStr "ping"); ("verb", VStr "get");
                         ("acls", VRef 2); ("handler", VRef 1)];
         Obj KFunction [] [];
         Obj KArray [VRef 3] [];
         Obj KObject [] [("permission", VStr "ALLOW")]] [].

(** [{name: "ping", verb: "get", handler: fn,
      acls: {permission: "ALLOW", principalType: "USER"}}] at 0; the entry
    at 2. *)
Definition acl_single_world : world :=
  World [Obj KObject [] [("name", VStr "ping"); ("verb", VStr "get");
                         ("acls", VRef 2); ("handler", VRef 1)];
         Obj KFunction [] [];
         Obj KObject [] [("permission", VStr "ALLOW");
                         ("principalType", VStr "USER")]] [].

(** A model [Customer] at 0 with the relations [orders] and [tags] in its
    settings; mixin options
    [{whitelist: {relations: ["orders"], base: ["find", "count"]},
      blacklist: ["User.login"]}]: the whitelist at 5, the blacklist at 8. *)
Definition customer_world : world :=
  World [Obj KFunction [] [("sharedClass", VRef 1); ("modelName", VStr "Customer");
                           ("definition", VRef 2); ("settings", VRef 3)];
         Obj KObject [] [];
         Obj KObject [] [("settings", VRef 3)];
         Obj KObject [] [("relations", VRef 4)];
         Obj KObject [] [("orders", VRef 1); ("tags", VRef 1)];
         Obj KObject [] [("relations", VRef 6); ("base", VRef 7)];
         Obj KArray [VStr "orders"] [];
         Obj KArray [VStr "find"; VStr "count"] [];
         Obj KArray [VStr "User.login"] []] [].

(** A model at 0 that is not exposed: it has no [sharedClass]. *)
Definition private_world : world :=
  World [Obj KFunction [] [("modelName", VStr "Secret")];
         Obj KObject [] []] [].

(** ** Relation and scope operations *)

(** The operation names of one relation or scope: the prefix, the
    operation, and the key after a double underscore. *)
Definition operation_names (prefix : string) (methods : list string)
    (key : string) : list string :=
  (λ m, prefix +:+ m +:+ "__" +:+ key) <$> methods.

(** What [Object.keys(v)] yields when it yields. *)
Definition keys_at (w : world) (v : value) : list string :=
  match v with
  | VRef l => from_option keys_of [] (heap w !! l)
  | VStr s => indices (String.length s)
  | _ => []
  end.

(** The relations, or scopes, a model is configured with: the keys of
    [model.definition.settings[name]], then the keys of [model[name]] that
    are not among them. *)
Definition configured (w : world) (model : value) (name : string) : list string :=
  let setting :=
    prop_of w (prop_of w (prop_of w model "definition") "settings") name in
  let keys := if truthy setting then keys_at w setting else [] in
  let live := prop_of w model name in
  if truthy live then union keys (keys_at w live) else keys.

(** [extended n w w']: the store of [w'] is that of [w] followed by at most
    [n] new, empty arrays. *)
Definition extended (n : nat) (w w' : world) : Prop :=
  ∃ new, heap w' = heap w ++ new ∧
         Forall (λ o, o = Obj KArray [] []) new ∧ (length new ≤ n)%nat.

(** A model at 0 with the relations [orders] and [tags] and the scopes
    [active] and [recent]; at 5 the whitelist
    [{relation: ["orders"], scopes: ["active"]}], at 8 an empty blacklist. *)
Definition shop_world : world :=
  World [Obj KFunction [] [("sharedClass", VRef 9); ("modelName", VStr "Shop");
                           ("definition", VRef 1)];
         Obj KObject [] [("settings", VRef 2)];
         Obj KObject [] [("relations", VRef 3); ("scopes", VRef 4)];
         Obj KObject [] [("orders", VRef 9); ("tags", VRef 9)];
         Obj KObject [] [("active", VRef 9); ("recent", VRef 9)];
         Obj KObject [] [("relation", VRef 6); ("scopes", VRef 7)];
         Obj KArray [VStr "orders"] [];
         Obj KArray [VStr "active"] [];
         Obj KArray [] [];
         Obj KObject [] []] [].

(** [{name: "report", verb: "Post", path: "/report",
      description: "Monthly report", options: {notes: "internal"},
      handler: fn, before: fn, error: fn}] at 0; the handler at 1, the
    options at 2, the hooks at 3 and 4. *)
Definition report_world : world :=
  World [Obj KObject [] [("name", VStr "report"); ("verb", VStr "Post");
                         ("path", VStr "/report");
                         ("description", VStr "Monthly report");
                         ("options", VRef 2); ("handler", VRef 1);
                         ("before", VRef 3); ("error", VRef 4)];
         Obj KFunction [] [];
         Obj KObject [] [("notes", VStr "internal")];
         Obj KFunction [] [];
         Obj KFunction [] []] [].

(** [{name: "login", verb: "POST", path: "/login"}] at 0: no handler. *)
Definition login_without_handler : world :=
  World [Obj KObject [] [("name", VStr "login"); ("verb", VStr "POST");
                         ("path", VStr "/login")]] [].

(** ** What [loadController] does with a descriptor *)

(** The calls [loadController] makes on the model for one descriptor: the
    remote method, then its hooks. *)
Definition registrations (model : value) (def : controller) : list call :=
  RemoteMethod model (name def) (remoteMethod def)
  :: ((λ h, RemoteHook model (type h) (name def) (hook_handler h)) <$> hooks def).

(** The properties of a model that [loadController] itself reads. *)
Definition reserved : list string := ["prototype"; "settings"; "acls"].

(** [stores K w w']: as [frame K w w'] for the store alone, whatever was
    called on the framework in between. *)
Definition stores (K : list string) (w w' : world) : Prop :=
  frame K (World (heap w) (calls w')) w'.

(** The elements of the array [v] refers to, none for another value. *)
Definition elems_of (w : world) (v : value) : list value :=
  match v with
  | VRef l => elems_at w l
  | _ => []
  end.

(** A model at 0 with its prototype at 1 and its settings at 2, which hold
    one ACL entry (at 4) in the array at 3; the functions and objects of
    two descriptors from 5 on. *)
Definition load_world : world :=
  World [Obj KFunction [] [("prototype", VRef 1); ("settings", VRef 2)];
         Obj KObject [] [];
         Obj KObject [] [("acls", VRef 3)];
         Obj KArray [VRef 4] [];
         Obj KObject [] [("principalType", VStr "ROLE"); ("property", VStr "find")];
         Obj KFunction [] [];
         Obj KObject [] [];
         Obj KObject [] [("principalType", VStr "ROLE");
                         ("property", VStr "endpoint:login")];
         Obj KFunction [] [];
         Obj KFunction [] [];
         Obj KObject [] []] [].

(** A static descriptor with one ACL entry and a [beforeRemote] hook, and
    a prototype descriptor with neither. *)
Definition login_controller : controller :=
  Prepared "endpoint:login" (VBool true) (VRef 6) [VRef 7] (VRef 5)
    [Hook "beforeRemote" (VRef 8)].

Definition ping_controller : controller :=
  Prepared "prototype.endpoint:ping" (VBool false) (VRef 10) [] (VRef 9) [].

(** ** The mixin's options *)

(** [(options._meta || {})[k]] *)
Definition meta_of (w : world) (options : value) (k : string) : value :=
  let meta := prop_of w options "_meta" in
  if truthy meta then prop_of w meta k else VUndefined.

(** The name [prepare] gives the descriptor of the key [key]. *)
Definition named_after (key : string) (c : controller) : Prop :=
  name c = if truthy (isStatic c) then "endpoint:" +:+ key
           else "prototype.endpoint:" +:+ key.

(** The store of [shop_world] with the mixin's options
    [{whitelist: ..., blacklist: []}] at 10. *)
Definition mixin_world : world :=
  World (heap shop_world ++
           [Obj KObject [] [("whitelist", VRef 5); ("blacklist", VRef 8)]]) [].

(** A controller file at [./common/controllers/shop.js] that defines one
    endpoint under the key [report]; no file at any other path. *)
Definition shop_file (filePath Model controllers : value) : M unit :=
  if bool_decide (filePath = VStr "./common/controllers/shop.js")
  then fn ← alloc (Obj KFunction [] []);
       definition ← alloc (Obj KObject [] [("name", VStr "untitled");
                                           ("verb", VStr "GET");
                                           ("path", VStr "/report");
                                           ("handler", fn)]);
       set controllers "report" definition
  else throw TypeError.

(** What [_.kebabCase] gives for a name of one word, and a [path.resolve]
    that keeps its directory. *)
Definition one_word (v : value) : M string :=
  match v with
  | VStr s => mret (lower s)
  | _ => mret ""
  end.

Definition under (dir file : string) : string := dir +:+ file.

(** The array a controller file has filled, at 0:
    [controllers.report = {name: "untitled", verb: "GET", path: "/report",
    handler: fn}]. *)
Definition file_world : world :=
  World [Obj KArray [] [("report", VRef 1)];
         Obj KObject [] [("name", VStr "untitled"); ("verb", VStr "GET");
                         ("path", VStr "/report"); ("handler", VRef 2)];
         Obj KFunction [] []] [].

(** ** Stores without dangling references *)

(** [v] is no reference, or one that points into the store. *)
Definition points_in (w : world) (v : value) : Prop :=
  match v with
  | VRef l => valid w l
  | _ => True
  end.

#[global] Instance valid_dec w l : Decision (valid w l).
Proof. unfold valid. apply _. Defined.

#[global] Instance points_in_dec w v : Decision (points_in w v).
Proof. destruct v; simpl; apply _. Defined.

(** Every reference held by an element or a property points into the
    store. *)
Definition closed (w : world) : Prop :=
  Forall (λ o, Forall (points_in w) (elems o) ∧
               Forall (λ p, points_in w p.2) (props o)) (heap w).

(** What [hideEndpoints] needs to run through: a model with a definition
    that has settings, an array for blacklist, and a whitelist object
    whose [relation] and [scopes] are arrays where they are given. *)
Record hideable (w : world) (lm lb lw : loc) : Prop := Hideable {
  hd_closed : closed w;
  hd_model : valid w lm;
  hd_settings : ∃ ld ls, own_at w lm "definition" = VRef ld ∧
                         own_at w ld "settings" = VRef ls;
  hd_blacklist : kind_at w lb = Some KArray;
  hd_whitelist : valid w lw;
  hd_relation : truthy (own_at w lw "relation") = false ∨
                ∃ la, own_at w lw "relation" = VRef la ∧ kind_at w la = Some KArray;
  hd_scopes : truthy (own_at w lw "scopes") = false ∨
              ∃ la, own_at w lw "scopes" = VRef la ∧ kind_at w la = Some KArray
}.

(** The methods of a LoopBack model that register a hook. *)
Definition hook_types : list string :=
  ["beforeRemote"; "afterRemote"; "afterRemoteError"].

(** What [loadController] needs to run through: a model with a prototype
    and with settings whose [acls], when given, is an array, and
    descriptors as [prepare] names them, [endpoint:<key>] or
    [prototype.endpoint:<key>], whose hooks are of the kinds the framework
    registers. *)
Record loadable (w : world) (lm : loc) (controllers : list controller) : Prop :=
  Loadable {
    ld_model : valid w lm;
    ld_prototype : ∃ lp, own_at w lm "prototype" = VRef lp ∧ valid w lp;
    ld_settings : ∃ ls, own_at w lm "settings" = VRef ls ∧ valid w ls ∧
      (truthy (own_at w ls "acls") = false ∨
       ∃ la, own_at w ls "acls" = VRef la ∧ kind_at w la = Some KArray);
    ld_names : Forall (λ d, ∃ key, named_after key d) controllers;
    ld_hooks : Forall (λ d, Forall (λ h, type h ∈ hook_types) (hooks d)) controllers
  }.

(** [{verb: "get", handler: fn}] at 0: no name. *)
Definition nameless_world : world :=
  World [Obj KObject [] [("verb", VStr "get"); ("handler", VRef 1)];
         Obj KFunction [] []] [].

(** The store of [shop_world] with the whitelist [{base: "find"}] at 10,
    its [base] a string. *)
Definition string_base_world : world :=
  World (heap shop_world ++ [Obj KObject [] [("base", VStr "find")]]) [].

(** ** What [prepare] writes *)

(** [written l c w' l' k]: the property [k] of the object at [l'] is one
    that [prepare], having returned [c] and left the store [w'] for the
    definition at [l], assigns to: [isStatic] and [acls] of the definition,
    [http], [description], [accepts] and [returns] of the remote-method
    options, [verb] and [path] of their [http] object, [property] and
    [principalType] of an ACL entry. *)
Definition written (l : loc) (c : controller) (w' : world)
    (l' : loc) (k : string) : Prop :=
  (l' = l ∧ k ∈ ["isStatic"; "acls"]) ∨
  (remoteMethod c = VRef l' ∧ k ∈ ["http"; "description"; "accepts"; "returns"]) ∨
  (prop_of w' (remoteMethod c) "http" = VRef l' ∧ k ∈ ["verb"; "path"]) ∨
  (VRef l' ∈ acls c ∧ k ∈ ["property"; "principalType"]).

(** [evolves P w w']: the store has grown from [w] to [w'], and a property
    of an object of [w] that has another value in [w'] satisfies [P]. *)
Definition evolves (P : loc → string → Prop) (w w' : world) : Prop :=
  (length (heap w) ≤ length (heap w'))%nat ∧
  ∀ l k, valid w l → own_at w' l k ≠ own_at w l k → P l k.

(** Text of ASCII characters only, on which [lower] is
    [String.prototype.toLowerCase]. *)
Definition ascii_text (s : string) : bool :=
  forallb (λ c, (nat_of_ascii c <? 128)%nat) (list_ascii_of_string s).

(** [{name: "stats", verb: "GET", path: "/stats", options: {notes: "internal"},
      acls: {permission: "ALLOW"}, handler: fn}] at 0; the handler at 1,
    the options at 2, the ACL entry at 3. *)
Definition guarded_world : world :=
  World [Obj KObject [] [("name", VStr "stats"); ("verb", VStr "GET");
                         ("path", VStr "/stats"); ("options", VRef 2);
                         ("acls", VRef 3); ("handler", VRef 1)];
         Obj KFunction [] [];
         Obj KObject [] [("notes", VStr "internal")];
         Obj KObject [] [("permission", VStr "ALLOW")]] [].

(** [{name: "ping", verb: "get", handler: fn,
      acls: [{permission: "ALLOW"}, {permission: "DENY", principalType: "USER"}]}]
    at 0; the array at 2, its entries at 3 and 4. *)
Definition acl_pair_world : world :=
  World [Obj KObject [] [("name", VStr "ping"); ("verb", VStr "get");
                         ("acls", VRef 2); ("handler", VRef 1)];
         Obj KFunction [] [];
         Obj KArray [VRef 3; VRef 4] [];
         Obj KObject [] [("permission", VStr "ALLOW")];
         Obj KObject [] [("permission", VStr "DENY");
                         ("principalType", VStr "USER")]] [].

(** The array a controller file has filled with two definitions, at 0:
    [report], static, and [status], which is not. *)
Definition two_file_world : world :=
  World [Obj KArray [] [("report", VRef 1); ("status", VRef 3)];
         Obj KObject [] [("name", VStr "untitled"); ("verb", VStr "GET");
                         ("path", VStr "/report"); ("handler", VRef 2)];
         Obj KFunction [] [];
         Obj KObject [] [("verb", VStr "GET"); ("path", VStr "/status");
                         ("isStatic", VBool false); ("handler", VRef 4)];
         Obj KFunction [] []] [].

(** The store of [mixin_world] with the options
    [{_meta: {fileName: "shop"}, whitelist: ..., blacklist: []}] at 11 and
    their [_meta] at 12. *)
Definition meta_world : world :=
  World (heap mixin_world ++
           [Obj KObject [] [("_meta", VRef 12); ("whitelist", VRef 5);
                            ("blacklist", VRef 8)];
            Obj KObject [] [("fileName", VStr "shop")]]) [].

(** * Reasoning about runs *)

(** ** Runs and frames *)

Lemma bind_Ret {A B} (m : M A) (k : A → M B) w b w' :
  (m ≫= k) w = Ret (b, w') ↔ ∃ a w1, m w = Ret (a, w1) ∧ k a w1 = Ret (b, w').
Proof.
  unfold mbind, M_bind. split.
  - destruct (m w) as [[a w1]| |]; [eauto | discriminate..].
  - intros (a & w1 & -> & ?). done.
Qed.

Lemma mret_Ret {A} (a b : A) w w' :
  mret (M := M) a w = Ret (b, w') ↔ b = a ∧ w' = w.
Proof. unfold mret, M_ret. split; [by inversion 1 | by intros [-> ->]]. Qed.

Lemma valid_lookup w l : valid w l ↔ is_Some (heap w !! l).
Proof. unfold valid. by rewrite lookup_lt_is_Some. Qed.

Lemma frame_refl K w : frame K w w.
Proof. by split. Qed.

Lemma frame_valid K w w' l : frame K w w' → valid w l → valid w' l.
Proof. intros [_ Hlen _ _ _]. unfold valid. lia. Qed.

Lemma frame_trans K w1 w2 w3 : frame K w1 w2 → frame K w2 w3 → frame K w1 w3.
Proof.
  intros H12 H23. split.
  - by rewrite (frame_calls _ _ _ H23), (frame_calls _ _ _ H12).
  - pose proof (frame_length _ _ _ H12). pose proof (frame_length _ _ _ H23). lia.
  - intros l Hl. rewrite (frame_kind _ _ _ H23), (frame_kind _ _ _ H12); eauto using frame_valid.
  - intros l Hl. rewrite (frame_elems _ _ _ H23), (frame_elems _ _ _ H12); eauto using frame_valid.
  - intros l k Hl Hk.
    rewrite (frame_own _ _ _ H23), (frame_own _ _ _ H12); eauto using frame_valid.
Qed.

Lemma frame_mono K K' w w' : K ⊆ K' → frame K w w' → frame K' w w'.
Proof.
  intros HK [? ? ? ? Hown]. split; try done.
  intros l k Hl Hk. apply Hown; [done|]. intros ?. apply Hk. by apply HK.
Qed.

(** ** Properties of an object under assignment *)

Lemma assoc_assign_eq k v ps : assoc k (assign k v ps) = Some v.
Proof.
  induction ps as [|[k' v'] ps IH]; simpl.
  - by rewrite String.eqb_refl.
  - destruct (k' =? k) eqn:E; simpl; rewrite E; [done | apply IH].
Qed.

Lemma assoc_assign_ne k k' v ps : k ≠ k' → assoc k' (assign k v ps) = assoc k' ps.
Proof.
  intros Hne. induction ps as [|[k0 v0] ps IH]; simpl.
  - by apply String.eqb_neq in Hne as ->.
  - destruct (k0 =? k) eqn:E; simpl.
    + apply String.eqb_eq in E as ->. by apply String.eqb_neq in Hne as ->.
    + by rewrite IH.
Qed.

Lemma own_assign_ne o k k' x :
  k ≠ k' → own (Obj (okind o) (elems o) (assign k x (props o))) k' = own o k'.
Proof.
  intros Hne. unfold own; simpl. rewrite assoc_assign_ne by done. done.
Qed.

Lemma own_assign_eq o k x :
  is_index k || ((k =? "length") && bool_decide (okind o = KArray)) = false →
  own (Obj (okind o) (elems o) (assign k x (props o))) k = x.
Proof.
  intros [Hi Hg]%orb_false_elim. unfold own; simpl. rewrite assoc_assign_eq.
  destruct (okind o); try done. simpl in Hg. rewrite andb_true_r in Hg.
  rewrite Hg. unfold is_index in Hi.
  destruct (array_index k); [|done].
  by rewrite bool_decide_eq_false in Hi; destruct Hi.
Qed.

(** ** The primitive steps *)

Lemma deref_Ret l w o w' : deref l w = Ret (o, w') ↔ w' = w ∧ heap w !! l = Some o.
Proof.
  unfold deref. destruct (heap w !! l) as [o'|]; split.
  - by inversion 1.
  - intros [-> [= ->]]. done.
  - discriminate.
  - intros [_ [=]].
Qed.

Lemma get_Ret v k w x w' :
  get v k w = Ret (x, w') →
  w' = w ∧ match v with
           | VUndefined | VNull => False
           | VRef l => valid w l ∧ x = own_at w l k
           | _ => x = VUndefined
           end.
Proof.
  destruct v; simpl; try discriminate; try by inversion 1.
  intros (o & w1 & [-> Ho]%deref_Ret & [-> ->]%mret_Ret)%bind_Ret.
  split; [done|]. unfold own_at. rewrite Ho. split; [|done].
  apply valid_lookup. eauto.
Qed.

Lemma get_ref l k w : valid w l → get (VRef l) k w = Ret (own_at w l k, w).
Proof.
  intros [o Ho]%valid_lookup. unfold own_at. simpl.
  unfold mbind, M_bind, deref. by rewrite Ho.
Qed.

Lemma set_Ret v k x w u w' :
  set v k x w = Ret (u, w') →
  ∃ l, v = VRef l ∧ valid w l ∧ frame [k] w w' ∧ own_at w' l k = x ∧
       length (heap w') = length (heap w) ∧
       ∀ l', l' ≠ l → heap w' !! l' = heap w !! l'.
Proof.
  destruct v; simpl; try discriminate.
  destruct (heap w !! l) as [o|] eqn:Ho; [|discriminate].
  destruct (is_index k || _) eqn:Hg; [discriminate|].
  destruct ((_ || _) && _) eqn:Hn; [discriminate|].
  intros [= <- <-]. exists l.
  assert (Hl : valid w l) by (apply valid_lookup; eauto).
  unfold own_at, kind_at, elems_at. split_and!; try done.
  - split; unfold own_at, kind_at, elems_at; cbn [heap calls]; try done.
    + by rewrite length_insert.
    + intros l' _. destruct (decide (l' = l)) as [->|].
      * by rewrite list_lookup_insert_eq, Ho.
      * by rewrite list_lookup_insert_ne.
    + intros l' _. destruct (decide (l' = l)) as [->|].
      * by rewrite list_lookup_insert_eq, Ho.
      * by rewrite list_lookup_insert_ne.
    + intros l' k' _ Hk. destruct (decide (l' = l)) as [->|].
      * rewrite list_lookup_insert_eq, Ho by done. cbn [from_option].
        apply own_assign_ne. intros ->. apply Hk. constructor.
      * by rewrite list_lookup_insert_ne.
  - cbn [heap]. rewrite list_lookup_insert_eq by done. cbn [from_option].
    by apply own_assign_eq.
  - cbn [heap]. by rewrite length_insert.
  - intros l' Hne. cbn [heap]. by rewrite list_lookup_insert_ne.
Qed.

Lemma set_ref l k x w :
  valid w l → named k = true → ∃ w', set (VRef l) k x w = Ret (tt, w').
Proof.
  intros [o Ho]%valid_lookup Hk. simpl. rewrite Ho.
  unfold named in Hk.
  apply negb_true_iff, orb_false_elim in Hk as [[-> ->]%orb_false_elim ->].
  simpl. eauto.
Qed.

Lemma alloc_Ret o w v w' :
  alloc o w = Ret (v, w') →
  v = VRef (length (heap w)) ∧ frame [] w w' ∧
  heap w' !! length (heap w) = Some o ∧
  length (heap w') = S (length (heap w)).
Proof.
  unfold alloc. intros [= <- <-]. split_and!; cbn [heap calls].
  - done.
  - split; unfold own_at, kind_at, elems_at; cbn [heap calls].
    + done.
    + rewrite length_app. lia.
    + intros l Hl. by rewrite lookup_app_l.
    + intros l Hl. by rewrite lookup_app_l.
    + intros l k Hl _. by rewrite lookup_app_l.
  - by rewrite lookup_app_r, Nat.sub_diag.
  - rewrite length_app. simpl. lia.
Qed.

(** ** Steps that only read, and the properties a computation writes *)

Lemma pure_mret {A} (a : A) : pure (mret a).
Proof. by intros w b w' [_ ->]%mret_Ret. Qed.

Lemma pure_throw {A} e : pure (throw (A := A) e).
Proof. intros w a w'. discriminate. Qed.

Lemma pure_unmodelled {A} : pure (unmodelled (A := A)).
Proof. intros w a w'. discriminate. Qed.

Lemma pure_bind {A B} (m : M A) (k : A → M B) :
  pure m → (∀ a, pure (k a)) → pure (m ≫= k).
Proof.
  intros Hm Hk w b w' (a & w1 & H1 & H2)%bind_Ret.
  apply Hm in H1 as ->. by apply Hk in H2.
Qed.

Lemma pure_deref l : pure (deref l).
Proof. by intros w o w' [-> _]%deref_Ret. Qed.

Lemma pure_get v k : pure (get v k).
Proof. by intros w x w' [-> _]%get_Ret. Qed.

Lemma pure_typeof v : pure (typeof v).
Proof.
  destruct v; simpl; try apply pure_mret.
  apply pure_bind; [apply pure_deref | intros; apply pure_mret].
Qed.

Lemma pure_call_own {A} v m : pure (call_own v m (A := A)).
Proof.
  unfold call_own. apply pure_bind; [apply pure_get | intros f].
  apply pure_bind; [apply pure_typeof | intros t].
  destruct (t =? "function"); [apply pure_unmodelled | apply pure_throw].
Qed.

Lemma pure_to_string v : pure (to_string v).
Proof.
  unfold to_string. destruct (text v); [apply pure_mret | apply pure_unmodelled].
Qed.

Lemma to_string_Ret v w s w' :
  to_string v w = Ret (s, w') ↔ w' = w ∧ text v = Some s.
Proof.
  unfold to_string. destruct (text v) as [s'|]; split.
  - by intros [-> ->]%mret_Ret.
  - by intros [-> [= ->]].
  - discriminate.
  - by intros [_ ?].
Qed.

Lemma getEndpointName_Ret v w s w' :
  getEndpointName v w = Ret (s, w') ↔
  w' = w ∧ ∃ n, text v = Some n ∧ s = CONTROLLER_NAME_PREFIX +:+ n.
Proof.
  unfold getEndpointName. rewrite bind_Ret. split.
  - intros (n & w1 & [-> Hn]%to_string_Ret & [-> ->]%mret_Ret). eauto.
  - intros [-> (n & Hn & ->)]. exists n, w. by rewrite to_string_Ret, mret_Ret.
Qed.

Lemma pure_toLowerCase v : pure (toLowerCase v).
Proof. destruct v; simpl; try apply pure_call_own. apply pure_mret. Qed.

Lemma pure_getEndpointName v : pure (getEndpointName v).
Proof.
  unfold getEndpointName.
  apply pure_bind; [apply pure_to_string | intros; apply pure_mret].
Qed.

Lemma pure_writes {A} K (m : M A) : pure m → writes K m.
Proof. intros Hm w a w' ->%Hm. apply frame_refl. Qed.

Lemma writes_bind {A B} K (m : M A) (k : A → M B) :
  writes K m → (∀ a, writes K (k a)) → writes K (m ≫= k).
Proof.
  intros Hm Hk w b w' (a & w1 & H1 & H2)%bind_Ret.
  eapply frame_trans; [by eapply Hm | by eapply Hk].
Qed.

Lemma writes_set K v k x : k ∈ K → writes K (set v k x).
Proof.
  intros Hk w u w' (l & _ & _ & Hf & _)%set_Ret.
  eapply frame_mono; [|done]. by intros ? ->%list_elem_of_singleton.
Qed.

Lemma writes_alloc K o : writes K (alloc o).
Proof.
  intros w v w' (_ & Hf & _)%alloc_Ret.
  eapply frame_mono; [|done]. by intros ? ?%elem_of_nil.
Qed.

Lemma writes_or_else K a b : writes K b → writes K (or_else a b).
Proof.
  intros Hb. unfold or_else. destruct (truthy a); [|done].
  apply pure_writes, pure_mret.
Qed.

Lemma writes_array_map K f xs : (∀ x, writes K (f x)) → writes K (array_map f xs).
Proof.
  intros Hf. induction xs as [|x xs IH]; simpl.
  - apply pure_writes, pure_mret.
  - apply writes_bind; [done | intros y].
    apply writes_bind; [done | intros ys]. apply pure_writes, pure_mret.
Qed.

Lemma writes_map_method K f v : (∀ x, writes K (f x)) → writes K (map_method f v).
Proof.
  intros Hf. destruct v; simpl; try apply pure_writes, pure_call_own.
  apply writes_bind; [apply pure_writes, pure_deref | intros o].
  destruct (okind o); try apply pure_writes, pure_call_own.
  by apply writes_array_map.
Qed.

Create HintDb pure.
#[local] Hint Resolve pure_mret pure_throw pure_unmodelled pure_deref pure_get
  pure_typeof pure_call_own pure_to_string pure_toLowerCase
  pure_getEndpointName : pure.

(** Decompose a computation down to its reads, writes and allocations. *)
Ltac solve_writes :=
  repeat first
    [ solve [apply pure_writes; eauto with pure]
    | apply writes_alloc
    | apply writes_set; solve [repeat constructor]
    | apply writes_or_else
    | apply writes_map_method; intros ?
    | apply writes_bind; [|intros ?]
    | match goal with
      | |- writes _ (default_acl _ _) => unfold default_acl
      | |- writes _ (if ?b then _ else _) => destruct b
      | |- writes _ (let _ := _ in _) => cbv zeta
      | |- writes _ ((λ _, _) _) => cbv beta
      end ].

Lemma writes_default_acl name acl :
  writes ["property"; "principalType"] (default_acl name acl).
Proof. unfold default_acl. solve_writes. Qed.

Lemma writes_prepare definition : writes prepare_keys (prepare definition).
Proof. unfold prepare, default_acl. solve_writes. Qed.

(** ** Splitting a run into its steps *)

(** Split the first step off a run that returned. *)
Ltac run_step H a w1 H1 :=
  apply bind_Ret in H as (a & w1 & H1 & H); cbv beta zeta in H.

(** A read as first step: the store stays, the value is the property. *)
Ltac run_get H x Hx :=
  let w1 := fresh "w" in
  let H1 := fresh "H" in
  run_step H x w1 H1;
  apply get_Ret in H1 as [-> Hx].

(** Split a run that returned into all its steps. *)
Ltac run_all H :=
  repeat (let a := fresh "a" in
          let w1 := fresh "w" in
          let H1 := fresh "H" in
          run_step H a w1 H1).

(** ** The name and the [isStatic] of the descriptor *)

(** The name and the [isStatic] that [prepare] returns, in terms of the
    definition it was given: [isStatic] is the property of the definition
    with the default stored, which is also the property when [prepare]
    returns; the name is the prefixed text of the definition's name, under
    [prototype.] when that [isStatic] is falsy. *)
Lemma prepare_name_isStatic l w c w' :
  prepare (VRef l) w = Ret (c, w') →
  valid w l ∧
  isStatic c = own_at w' l "isStatic" ∧
  isStatic c = (if unset (own_at w l "isStatic") then VBool true
                else own_at w l "isStatic") ∧
  ∃ n, text (own_at w l "name") = Some n ∧
       name c = if truthy (isStatic c) then CONTROLLER_NAME_PREFIX +:+ n
                else "prototype." +:+ (CONTROLLER_NAME_PREFIX +:+ n).
Proof.
  intros H. unfold prepare in H.
  run_get H options Hoptions. destruct Hoptions as [Hl _].
  run_step H rm w1 Hrm.
  assert (H01 : frame ["isStatic"] w w1)
    by (revert Hrm; apply writes_or_else, writes_alloc).
  run_get H is0 His0. destruct His0 as [Hl1 ->].
  run_step H u w2 Hset.
  assert (H12 : frame ["isStatic"] w1 w2).
  { revert Hset. match goal with |- ?m w1 = _ → _ => enough (writes _ m) as Hw by apply Hw end.
    solve_writes. }
  pose proof (frame_trans _ _ _ _ H01 H12) as H02.
  assert (Hl2 : valid w2 l) by eauto using frame_valid.
  assert (H2 : own_at w2 l "isStatic"
               = if unset (own_at w l "isStatic") then VBool true
                 else own_at w l "isStatic").
  { assert (Heq : own_at w1 l "isStatic" = own_at w l "isStatic").
    { destruct (truthy options) eqn:Ho; unfold or_else in Hrm; rewrite Ho in Hrm.
      - by apply mret_Ret in Hrm as [_ ->].
      - apply alloc_Ret in Hrm as (_ & Hf & _).
        apply (frame_own _ _ _ Hf); [done | apply not_elem_of_nil]. }
    rewrite Heq in Hset. fold (unset (own_at w l "isStatic")) in Hset.
    destruct (unset _).
    - apply set_Ret in Hset as (? & [= <-] & _ & _ & -> & _). done.
    - apply mret_Ret in Hset as [_ ->]. done. }
  clear Hset Hrm.
  run_get H nv Hnv. destruct Hnv as [_ ->].
  rewrite (frame_own _ _ _ H02) in H by (done || compute_done).
  run_step H nm w3 Hnm.
  apply getEndpointName_Ret in Hnm as [-> (n & Hn & ->)].
  run_get H is1 His1. destruct His1 as [_ ->].
  assert (H2' : frame ["http"; "verb"; "path"; "description"; "accepts";
                       "returns"; "acls"; "property"; "principalType"] w2 w').
  { revert H. unfold default_acl.
    match goal with |- ?m w2 = _ → _ => enough (writes _ m) as Hw by apply Hw end.
    solve_writes. }
  assert (Hc : isStatic c = own_at w' l "isStatic"
               ∧ name c = if truthy (own_at w2 l "isStatic")
                          then CONTROLLER_NAME_PREFIX +:+ n
                          else "prototype." +:+ (CONTROLLER_NAME_PREFIX +:+ n)).
  { clear -H. run_all H. apply mret_Ret in H as [-> ->]. simpl. split; [|done].
    match goal with
    | Hg : get _ _ _ = Ret (?x, _) |- ?x = _ => by apply get_Ret in Hg as [-> [_ ->]]
    end. }
  destruct Hc as [Hc1 Hc2].
  assert (Hc3 : own_at w' l "isStatic" = own_at w2 l "isStatic")
    by (apply (frame_own _ _ _ H2'); [done | compute_done]).
  split_and!; try done.
  - by rewrite Hc1, Hc3.
  - exists n. split; [done|]. by rewrite Hc2, Hc1, Hc3.
Qed.

(** ** The defaults of an ACL entry *)

Lemma or_default_idemp d v : or_default d (or_default d v) = or_default d v.
Proof. unfold or_default. destruct (truthy v) eqn:E; [by rewrite E | by destruct (truthy d)]. Qed.

Lemma own_at_other w w' l l' k :
  (∀ l', l' ≠ l → heap w' !! l' = heap w !! l') → l' ≠ l →
  own_at w' l' k = own_at w l' k.
Proof. intros H Hne. unfold own_at. by rewrite H. Qed.

(** A conditional assignment [if (!v.k) v.k = d]. *)
Lemma default_prop_Ret l k d w u w' :
  (if truthy (own_at w l k) then mret tt else set (VRef l) k d) w = Ret (u, w') →
  frame [k] w w' ∧ own_at w' l k = or_default d (own_at w l k) ∧
  length (heap w') = length (heap w) ∧
  ∀ l' k', l' ≠ l → own_at w' l' k' = own_at w l' k'.
Proof.
  unfold or_default. destruct (truthy _).
  - intros [_ ->]%mret_Ret. split; [apply frame_refl | done].
  - intros (? & [= <-] & _ & Hf & Hx & Hlen & Hother)%set_Ret.
    split_and!; [done..|]. intros l' k' Hne. by eapply own_at_other.
Qed.

Lemma default_acl_Ret name acl w y w' :
  default_acl name acl w = Ret (y, w') →
  y = acl ∧ frame ["property"; "principalType"] w w' ∧
  length (heap w') = length (heap w) ∧
  ∃ la, acl = VRef la ∧ valid w la ∧
    own_at w' la "property" = or_default (VStr name) (own_at w la "property") ∧
    own_at w' la "principalType"
      = or_default (VStr "ROLE") (own_at w la "principalType") ∧
    ∀ l' k, l' ≠ la → own_at w' l' k = own_at w l' k.
Proof.
  intros H. pose proof (writes_default_acl name acl _ _ _ H) as Hf.
  unfold default_acl in H.
  run_get H property Hp.
  destruct acl as [| | | | |la]; try done;
    try (subst property; simpl in H; by run_step H u w1 H1).
  destruct Hp as [Hla ->].
  run_step H u w1 H1. apply default_prop_Ret in H1 as (Hf1 & Hp1 & Hlen1 & Ho1).
  run_get H principalType Hq. destruct Hq as [Hla1 ->].
  run_step H u' w2 H2. apply default_prop_Ret in H2 as (Hf2 & Hp2 & Hlen2 & Ho2).
  apply mret_Ret in H as [-> ->].
  split; [done|]. split; [done|]. split; [congruence|].
  exists la. split_and!; try done.
  - rewrite <- Hp1. apply (frame_own _ _ _ Hf2); [done | compute_done].
  - rewrite Hp2. f_equal. apply (frame_own _ _ _ Hf1); [done | compute_done].
  - intros l' k Hne. by rewrite Ho2, Ho1.
Qed.

(** The [map] over the entries: every entry that is listed gets its two
    defaults, whatever the other entries are, and no other object gets
    them. *)
Lemma array_map_default_acl name xs w ys w' :
  array_map (default_acl name) xs w = Ret (ys, w') →
  ys = xs ∧ frame ["property"; "principalType"] w w' ∧
  length (heap w') = length (heap w) ∧
  (∀ x, x ∈ xs → ∃ la, x = VRef la ∧ valid w la) ∧
  ∀ la, valid w la →
    own_at w' la "property"
      = (if decide (VRef la ∈ xs)
         then or_default (VStr name) (own_at w la "property")
         else own_at w la "property") ∧
    own_at w' la "principalType"
      = (if decide (VRef la ∈ xs)
         then or_default (VStr "ROLE") (own_at w la "principalType")
         else own_at w la "principalType").
Proof.
  revert w ys. induction xs as [|x xs IH]; intros w ys H; simpl in H.
  - apply mret_Ret in H as [-> ->]. split_and!; [done | apply frame_refl | done | |].
    + by intros x ?%elem_of_nil.
    + intros la _. by rewrite decide_False by apply not_elem_of_nil.
  - run_step H y w1 H1. run_step H zs w2 H2. apply mret_Ret in H as [-> ->].
    apply default_acl_Ret in H1
      as (-> & Hf1 & Hlen1 & lx & -> & Hlx & Hp & Hq & Hother).
    apply IH in H2 as (-> & Hf2 & Hlen2 & Hrefs & Hall).
    split_and!; [done | by eapply frame_trans | congruence | |].
    + intros x [->|Hx]%elem_of_cons; [eauto|].
      destruct (Hrefs _ Hx) as (la & -> & Hla). exists la. split; [done|].
      unfold valid in *. by rewrite <- Hlen1.
    + intros la Hla.
      destruct (Hall la (frame_valid _ _ _ _ Hf1 Hla)) as [Hp2 Hq2].
      rewrite Hp2, Hq2.
      destruct (decide (la = lx)) as [->|Hne].
      * rewrite Hp, Hq, !(decide_True (P := VRef lx ∈ VRef lx :: xs)) by constructor.
        destruct (decide (VRef lx ∈ xs)); by rewrite ?or_default_idemp.
      * rewrite !Hother by done.
        destruct (decide (VRef la ∈ xs)) as [Hin|Hin].
        -- by rewrite !decide_True by by constructor.
        -- rewrite !decide_False; [done|..];
             intros [[= ->]|?]%elem_of_cons; done.
Qed.

(** ** The entries of the descriptor *)

Ltac solve_pure :=
  repeat first
    [ solve [eauto with pure]
    | apply pure_bind; [|intros ?]
    | match goal with
      | |- pure (if ?b then _ else _) => destruct b
      | |- pure (let _ := _ in _) => cbv zeta
      | |- pure ((λ _, _) _) => cbv beta
      end ].

(** Split the first step off a run and extend the frame [Hacc] over it. *)
Ltac run_framed H Hacc :=
  let a := fresh "a" in
  let w1 := fresh "w" in
  let H1 := fresh "H" in
  run_step H a w1 H1;
  lazymatch type of Hacc with
  | frame ?K ?w0 ?w =>
      let Hf := fresh "Hf" in
      assert (Hf : frame K w w1)
        by (revert H1;
            match goal with
            | |- ?m _ = _ → _ =>
                let Hw := fresh "Hw" in enough (writes K m) as Hw by apply Hw
            end; solve_writes);
      let Hn := fresh "Hacc" in
      pose proof (frame_trans _ _ _ _ Hacc Hf) as Hn;
      clear Hacc Hf H1; rename Hn into Hacc
  end.

Lemma call_own_Ret {A} v m w (r : A * world) : call_own v m w ≠ Ret r.
Proof.
  unfold call_own, mbind, M_bind. destruct (get v m w) as [[f w1]| |]; try done.
  destruct (typeof f w1) as [[t w2]| |]; try done.
  by destruct (t =? "function").
Qed.

Lemma typeof_Ret v w t w' :
  typeof v w = Ret (t, w') →
  w' = w ∧ match v with
           | VRef l => ∃ o, heap w !! l = Some o ∧
               t = match okind o with KFunction => "function" | _ => "object" end
           | _ => True
           end.
Proof.
  destruct v; simpl; try by intros [_ ->]%mret_Ret.
  intros (o & w1 & [-> Ho]%deref_Ret & [-> ->]%mret_Ret)%bind_Ret. eauto.
Qed.

Lemma map_method_Ret f v w ys w' :
  map_method f v w = Ret (ys, w') →
  ∃ l o, v = VRef l ∧ heap w !! l = Some o ∧ okind o = KArray ∧
         array_map f (elems o) w = Ret (ys, w').
Proof.
  destruct v; simpl; try by intros ?%call_own_Ret.
  intros (o & w1 & [-> Ho]%deref_Ret & H)%bind_Ret.
  destruct (okind o) eqn:E; try by apply call_own_Ret in H.
  eauto 10.
Qed.

(** The ACL entries [prepare] returns: an absent [acls] gives none; any
    other [acls] that lets [prepare] return is an object and is the one
    entry returned.  Each entry returned has its own two defaults. *)
Lemma prepare_acls l w c w' :
  prepare (VRef l) w = Ret (c, w') →
  acls c = (if truthy (own_at w l "acls") then [own_at w l "acls"] else []) ∧
  (∃ lf, own_at w' l "acls" = VRef lf ∧ kind_at w' lf = Some KArray ∧
         elems_at w' lf = acls c) ∧
  ∀ acl, acl ∈ acls c →
    ∃ la, acl = VRef la ∧ valid w' la ∧
      (valid w la →
       own_at w' la "property"
         = or_default (VStr (name c)) (own_at w la "property") ∧
       own_at w' la "principalType"
         = or_default (VStr "ROLE") (own_at w la "principalType")).
Proof.
  intros H. unfold prepare in H.
  run_get H options Hoptions. destruct Hoptions as [Hl _].
  pose proof (frame_refl ["isStatic"; "http"; "verb"; "path"; "description";
                          "accepts"; "returns"] w) as Hacc.
  run_framed H Hacc. run_get H is0 His0. run_framed H Hacc.
  run_get H nv Hnv. run_framed H Hacc. run_get H is1 His1.
  run_get H http0 Hhttp0. run_framed H Hacc. run_get H http1 Hhttp1.
  run_get H verb Hverb. run_framed H Hacc. run_framed H Hacc.
  run_get H http2 Hhttp2. run_get H path Hpath. run_framed H Hacc.
  run_get H description Hdescription. run_framed H Hacc.
  run_get H accepts Haccepts. run_framed H Hacc. run_framed H Hacc.
  run_get H returned Hreturns. run_framed H Hacc. run_framed H Hacc.
  clear His0 Hnv His1 Hhttp0 Hhttp1 Hverb Hhttp2 Hpath Hdescription Haccepts Hreturns.
  match type of Hacc with frame _ _ ?x => rename x into wp end.
  assert (Hacc' : frame ["isStatic"; "http"; "verb"; "path"; "description";
                         "accepts"; "returns"; "acls"] w wp).
  { eapply frame_mono; [|exact Hacc]. compute_done. }
  run_get H acls0 Hacls0. destruct Hacls0 as [Hl1 ->].
  rewrite (frame_own _ _ _ Hacc) in H by (done || compute_done).
  set (acls0 := own_at w l "acls") in *.
  run_step H is_object wq Hiso.
  run_step H u wn Hnorm.
  run_get H acls1 Hacls1. destruct Hacls1 as [Hl3 ->].
  run_step H entries wm Hmap.
  assert (w' = wm ∧ acls c = entries ∧
          ∃ nm, name c = nm ∧ map_method (default_acl nm) (own_at wn l "acls") wn
                           = Ret (entries, wm)) as (-> & Hc & nm & Hnm & Hmap').
  { split_and!.
    - revert H. match goal with |- ?m wm = _ → _ => enough (pure m) as Hp by apply Hp end.
      solve_pure.
    - clear -H. run_all H. by apply mret_Ret in H as [-> _].
    - eexists. split; [|exact Hmap]. clear -H. run_all H.
      by apply mret_Ret in H as [-> _]. }
  clear H Hmap. rewrite Hc. subst nm.
  (* the wrapping at lines 198-201 *)
  assert (frame ["isStatic"; "http"; "verb"; "path"; "description";
                 "accepts"; "returns"; "acls"] w wn ∧
          ∃ lf, own_at wn l "acls" = VRef lf ∧
                heap wn !! lf = Some (Obj KArray (if truthy acls0 then [acls0] else []) []))
    as (Hacc3 & lf & Hlf & Hobj).
  { destruct (truthy acls0) eqn:Ht.
    - run_step Hiso t wt Ht'. apply mret_Ret in Hiso as [-> ->].
      apply typeof_Ret in Ht' as [-> Hty].
      destruct (t =? "object") eqn:Et.
      + run_step Hnorm a' wa Ha. apply alloc_Ret in Ha as (-> & Hf & Hnew & Hlen).
        apply set_Ret in Hnorm as (? & [= <-] & Hl2 & Hf' & Hset & _ & Hother).
        split.
        * eapply frame_trans; [exact Hacc'|]. eapply frame_trans.
          -- eapply frame_mono; [|exact Hf]. by intros ? ?%elem_of_nil.
          -- eapply frame_mono; [|exact Hf']. intros ? ->%list_elem_of_singleton.
             compute_done.
        * exists (length (heap wp)). split; [done|]. rewrite Hother; [done|].
          unfold valid in Hl1. lia.
      + exfalso. cbv beta iota delta [negb] in Hnorm.
        apply mret_Ret in Hnorm as [_ ->].
        apply map_method_Ret in Hmap' as (la & o & Hla & Ho & Hk & _).
        rewrite (frame_own _ _ _ Hacc) in Hla by (done || compute_done).
        fold acls0 in Hla. rewrite Hla in Hty. destruct Hty as (o' & Ho' & ->).
        rewrite Ho in Ho'. injection Ho' as <-. by rewrite Hk in Et.
    - apply mret_Ret in Hiso as [-> ->].
      cbv beta iota delta [negb] in Hnorm.
      run_step Hnorm a' wa Ha. apply alloc_Ret in Ha as (-> & Hf & Hnew & Hlen).
      apply set_Ret in Hnorm as (? & [= <-] & Hl2 & Hf' & Hset & _ & Hother).
      split.
      + eapply frame_trans; [exact Hacc'|]. eapply frame_trans.
        * eapply frame_mono; [|exact Hf]. by intros ? ?%elem_of_nil.
        * eapply frame_mono; [|exact Hf']. intros ? ->%list_elem_of_singleton.
          compute_done.
      + exists (length (heap wp)). split; [done|]. rewrite Hother; [done|].
        unfold valid in Hl1. lia. }
  rewrite Hlf in Hmap'. apply map_method_Ret in Hmap' as (? & o & [= <-] & Ho & _ & Hmap).
  rewrite Hobj in Ho. injection Ho as <-. cbn [elems] in Hmap.
  apply array_map_default_acl in Hmap as (-> & Hf34 & Hlen & Hrefs & Hall).
  split; [done|]. split.
  { assert (Hvf : valid wn lf) by (apply valid_lookup; eauto).
    exists lf. rewrite (frame_own _ _ _ Hf34) by (done || compute_done).
    rewrite (frame_kind _ _ _ Hf34), (frame_elems _ _ _ Hf34) by done.
    unfold kind_at, elems_at. by rewrite Hobj. }
  intros acl Hacl.
  destruct (Hrefs _ Hacl) as (la & -> & Hla). exists la. split; [done|].
  split; [by eapply frame_valid|]. intros Hla0.
  destruct (Hall la Hla) as [Hp Hq].
  rewrite decide_True in Hp, Hq by done.
  rewrite Hp, Hq, !(frame_own _ _ _ Hacc3) by (done || compute_done). done.
Qed.

(** ** The visibility resolver *)

Lemma indexOf_neg xs x : (indexOf xs x <? 0)%Z = true ↔ x ∉ xs.
Proof.
  induction xs as [|y ys IH]; simpl.
  - split; [intros _; apply not_elem_of_nil | done].
  - rewrite not_elem_of_cons. case_bool_decide as Hy.
    + split; [done | intros [? _]; done].
    + destruct (indexOf ys x <? 0)%Z eqn:E.
      * split; [intros _; split; [done | by apply IH] | done].
      * apply Z.ltb_ge in E. split.
        -- intros ?%Z.ltb_lt. lia.
        -- intros [_ Hin%IH]. done.
Qed.

Lemma filter_indexOf W ms :
  List.filter (λ methodName, (indexOf W (VStr methodName) <? 0)%Z) ms
  = filter (λ methodName, VStr methodName ∉ W) ms.
Proof.
  induction ms as [|m ms IH]; [done|]. simpl. rewrite filter_cons, IH.
  destruct (indexOf W (VStr m) <? 0)%Z eqn:E.
  - apply indexOf_neg in E. by rewrite decide_True.
  - rewrite decide_False; [done|]. intros H%indexOf_neg. congruence.
Qed.

Lemma get_prop_of v k w x w' : get v k w = Ret (x, w') → w' = w ∧ x = prop_of w v k.
Proof.
  intros [-> H]%get_Ret. split; [done|].
  destruct v; simpl; first [done | by destruct H].
Qed.

Lemma as_array_Ret v w r w' :
  as_array v w = Ret (r, w') →
  w' = w ∧ r = match v with
               | VRef l => if decide (kind_at w l = Some KArray)
                           then Some (elems_at w l) else None
               | _ => None
               end.
Proof.
  destruct v; simpl; try by intros [-> ->]%mret_Ret.
  intros (o & w1 & [-> Ho]%deref_Ret & [-> ->]%mret_Ret)%bind_Ret.
  split; [done|]. unfold kind_at, elems_at. rewrite Ho. simpl.
  destruct (okind o); by rewrite ?decide_True, ?decide_False by done.
Qed.

(** The base operations hidden, by the two cases of the whitelist. *)
Lemma modelMethods_Ret filter w ms w' :
  modelMethods filter w = Ret (ms, w') →
  w' = w ∧
  (∀ l, filter = VRef l → kind_at w l = Some KArray → elems_at w l ≠ [] →
        ms = base_minus (elems_at w l)) ∧
  (truthy filter = false ∨
   (∃ l, filter = VRef l ∧ kind_at w l = Some KArray ∧ elems_at w l = []) →
   ms = MODEL_METHODS).
Proof.
  unfold modelMethods. intros (arr & w1 & Harr & H)%bind_Ret.
  destruct (truthy filter) eqn:Ht.
  - apply as_array_Ret in Harr as [-> ->].
    destruct filter as [| | | | |l]; try (apply mret_Ret in H as [-> ->]; naive_solver).
    destruct (decide (kind_at w l = Some KArray)) as [Hk|Hk].
    + destruct (elems_at w l) as [|x xs] eqn:E; apply mret_Ret in H as [-> ->].
      * naive_solver.
      * split; [done|]. split.
        -- intros ? [= <-] _ _. rewrite E. apply filter_indexOf.
        -- intros [?|(? & [= <-] & _ & He)]; [done | congruence].
    + apply mret_Ret in H as [-> ->]. naive_solver.
  - apply mret_Ret in Harr as [-> ->]. apply mret_Ret in H as [-> ->].
    split; [done|]. split; [|done]. by intros l ->.
Qed.

Lemma pure_Object_keys v : pure (Object_keys v).
Proof. destruct v; simpl; solve_pure. Qed.

Lemma pure_indexOf_method v key : pure (indexOf_method v key).
Proof. destruct v; simpl; solve_pure. destruct (okind _); solve_pure. Qed.

Lemma pure_as_array v : pure (as_array v).
Proof. destruct v; simpl; solve_pure. Qed.

Lemma pure_concat_method v ys : pure (concat_method v ys).
Proof. destruct v; simpl; solve_pure. destruct (okind _); solve_pure. Qed.

Lemma pure_modelMethods filter : pure (modelMethods filter).
Proof. by intros w ms w' [-> _]%modelMethods_Ret. Qed.

#[local] Hint Resolve pure_Object_keys pure_indexOf_method pure_as_array
  pure_concat_method pure_modelMethods : pure.

Lemma pure_reduce_keys prefix predefinedMethods whitelist blacklist keys :
  pure (reduce_keys prefix predefinedMethods whitelist blacklist keys).
Proof. revert blacklist. induction keys; intros blacklist; simpl; solve_pure. Qed.

#[local] Hint Resolve pure_reduce_keys : pure.

Lemma pure_getSettings model name whitelist : pure (getSettings model name whitelist).
Proof. unfold getSettings. solve_pure. Qed.

#[local] Hint Resolve pure_getSettings : pure.

Lemma concat_method_Ret v ys w zs w' :
  concat_method v ys w = Ret (zs, w') →
  w' = w ∧ ∃ l, v = VRef l ∧ kind_at w l = Some KArray ∧ zs = elems_at w l ++ ys.
Proof.
  destruct v; simpl; try done; try by intros ?%call_own_Ret.
  intros (o & w1 & [-> Ho]%deref_Ret & H)%bind_Ret.
  destruct (okind o) eqn:E; try by apply call_own_Ret in H.
  apply mret_Ret in H as [-> ->]. split; [done|]. exists l.
  unfold kind_at, elems_at. by rewrite Ho; simpl; rewrite E.
Qed.

(** The final loop: one call per name, in order, and nothing else. *)
Lemma disable_all_Ret model ns w u w' :
  for_each (λ n, framework model (DisableRemoteMethodByName model n)) ns w
    = Ret (u, w') →
  heap w' = heap w ∧
  calls w' = calls w ++ (DisableRemoteMethodByName model <$> ns).
Proof.
  revert w. induction ns as [|n ns IH]; intros w H; simpl in H.
  - apply mret_Ret in H as [_ ->]. by rewrite app_nil_r.
  - run_step H u1 w1 H1. apply IH in H as [-> ->].
    destruct model; try done. simpl in H1.
    run_step H1 o w2 Ho. apply deref_Ret in Ho as [-> _].
    unfold emit in H1. injection H1 as <- <-. cbn [heap calls fmap list_fmap].
    by rewrite <- app_assoc.
Qed.

(** The names [hideEndpoints] disables: the elements of the blacklist it
    is given, then the base operations, then the relation and the scope
    operations; the base operations are those of [modelMethods] on
    [whitelist.base]. *)
Lemma hideEndpoints_calls model blacklist whitelist w u w' :
  hideEndpoints model blacklist whitelist w = Ret (u, w') →
  ∃ lb base relations scopes,
    blacklist = VRef lb ∧ kind_at w lb = Some KArray ∧
    modelMethods (prop_of w whitelist "base") w = Ret (base, w) ∧
    calls w' = calls w ++
      (DisableRemoteMethodByName model <$>
         (elems_at w lb ++ (VStr <$> base) ++ (VStr <$> relations)
            ++ (VStr <$> scopes))).
Proof.
  intros H. unfold hideEndpoints in H.
  run_step H wl w0 Hwl. apply get_prop_of in Hwl as [-> ->].
  run_step H base w1 Hbase.
  pose proof (pure_modelMethods _ _ _ _ Hbase) as ->.
  run_step H bl w1 Hbl. apply concat_method_Ret in Hbl as [-> (lb & -> & Hk & ->)].
  pose proof (frame_refl [] w) as Hacc.
  run_framed H Hacc. run_framed H Hacc. run_step H relations wr Hrel.
  apply pure_getSettings in Hrel as ->.
  run_framed H Hacc. run_framed H Hacc. run_step H scopes ws Hsc.
  apply pure_getSettings in Hsc as ->.
  apply disable_all_Ret in H as [_ ->].
  exists lb, base, relations, scopes. split_and!; [done..|].
  rewrite (frame_calls _ _ _ Hacc). by rewrite <- !app_assoc.
Qed.

(** ** Every configured relation is hidden *)

Lemma elem_of_uniq x seen xs : x ∈ uniq seen xs ↔ x ∈ xs ∧ x ∉ seen.
Proof.
  revert seen. induction xs as [|y ys IH]; intros seen; simpl.
  - split; [by intros ?%elem_of_nil | by intros [?%elem_of_nil _]].
  - case_bool_decide as Hy.
    + rewrite IH, elem_of_cons. split.
      * intros [? ?]. auto.
      * intros [[->|?] ?]; done.
    + rewrite !elem_of_cons, IH. split.
      * intros [->|[? Hn]]; [auto|]. split; [auto|].
        intros ?. apply Hn. by right.
      * intros [[->|?] Hn]; [by left|].
        destruct (decide (x = y)) as [->|Hne]; [by left | right].
        split; [done|]. by intros [?|?]%elem_of_cons.
Qed.

Lemma elem_of_union_l x xs ys : x ∈ xs → x ∈ union xs ys.
Proof.
  intros Hx. apply elem_of_uniq. split; [|apply not_elem_of_nil].
  apply elem_of_app. by left.
Qed.

Lemma alloc_lookup o w v w' l :
  alloc o w = Ret (v, w') → valid w l → heap w' !! l = heap w !! l.
Proof. unfold alloc. intros [= <- <-] Hl. cbn [heap]. by rewrite lookup_app_l. Qed.

(** With an empty whitelist the [reduce] keeps the names of every key. *)
Lemma reduce_keys_empty_whitelist prefix methods lw ps blacklist keys w :
  heap w !! lw = Some (Obj KArray [] ps) →
  reduce_keys prefix methods (VRef lw) blacklist keys w
  = Ret (blacklist ++
           (keys ≫= λ key, (λ m, prefix +:+ m +:+ "__" +:+ key) <$> methods), w).
Proof.
  intros Hlw. revert blacklist. induction keys as [|k keys IH]; intros blacklist.
  - simpl. by rewrite app_nil_r.
  - cbn [reduce_keys]. unfold mbind at 1, M_bind at 1.
    assert (Hi : indexOf_method (VRef lw) k w = Ret ((-1)%Z, w)).
    { simpl. unfold mbind, M_bind, deref. by rewrite Hlw. }
    rewrite Hi. change (0 <=? -1)%Z with false. cbv iota.
    rewrite IH. by rewrite <- app_assoc.
Qed.

(** The relation operations [getSettings] returns when nothing is
    whitelisted: all those of every relation in the model's settings. *)
Lemma getSettings_relations lm ld ls lr o lw ps w names w' :
  own_at w lm "definition" = VRef ld →
  own_at w ld "settings" = VRef ls →
  own_at w ls "relations" = VRef lr →
  heap w !! lr = Some o →
  heap w !! lw = Some (Obj KArray [] ps) →
  getSettings (VRef lm) "relations" (VRef lw) w = Ret (names, w') →
  ∀ key m, key ∈ keys_of o → m ∈ RELATION_METHODS →
    "prototype.__" +:+ m +:+ "__" +:+ key ∈ names.
Proof.
  intros Hd Hs Hr Ho Hlw H key m Hkey Hm. unfold getSettings in H.
  run_get H definition Hdefinition. destruct Hdefinition as [_ ->]. rewrite Hd in H.
  run_get H settings Hsettings. destruct Hsettings as [_ ->]. rewrite Hs in H.
  run_get H setting Hsetting. destruct Hsetting as [_ ->]. rewrite Hr in H.
  cbn [truthy] in H.
  run_step H keys wk Hkeys. run_step Hkeys o' wo Ho'.
  apply deref_Ret in Ho' as [-> Ho']. rewrite Ho in Ho'. injection Ho' as <-.
  apply mret_Ret in Hkeys as [-> ->].
  run_step H live wl Hlive. apply get_prop_of in Hlive as [-> ->].
  run_step H keys' wk Hkeys'.
  assert (wk = w ∧ key ∈ keys') as [-> Hkey'].
  { destruct (truthy _).
    - run_step Hkeys' ks wks Hks. apply pure_Object_keys in Hks as ->.
      apply mret_Ret in Hkeys' as [-> ->]. split; [done|]. by apply elem_of_union_l.
    - by apply mret_Ret in Hkeys' as [-> ->]. }
  change ("relations" =? "relations") with true in H. cbv iota in H.
  rewrite (reduce_keys_empty_whitelist _ _ _ _ _ _ _ Hlw) in H.
  injection H as <- _. apply list_elem_of_bind. exists key. split; [|done].
  exact (list_elem_of_fmap_2 (λ m0, "prototype.__" +:+ m0 +:+ "__" +:+ key) _ _ Hm).
Qed.

(** Whatever [whitelist.relations] lists: when the whitelist has no
    [relation] property, [hideEndpoints] disables every operation of every
    relation in the model's settings. *)
Lemma hideEndpoints_hides_every_relation
    lm ld ls lr o blacklist whitelist w u w' key m :
  own_at w lm "definition" = VRef ld →
  own_at w ld "settings" = VRef ls →
  own_at w ls "relations" = VRef lr →
  heap w !! lr = Some o →
  prop_of w whitelist "relation" = VUndefined →
  hideEndpoints (VRef lm) blacklist whitelist w = Ret (u, w') →
  key ∈ keys_of o → m ∈ RELATION_METHODS →
  DisableRemoteMethodByName (VRef lm) (VStr ("prototype.__" +:+ m +:+ "__" +:+ key))
    ∈ calls w'.
Proof.
  intros Hd Hs Hr Ho Hrel H Hkey Hm. unfold hideEndpoints in H.
  run_step H wl wb Hwl. apply get_prop_of in Hwl as [-> ->].
  run_step H base wb Hbase. pose proof (pure_modelMethods _ _ _ _ Hbase) as ->.
  run_step H bl wb Hbl. apply concat_method_Ret in Hbl as [-> (lb & -> & Hk & ->)].
  run_step H rel wb Hrel'. apply get_prop_of in Hrel' as [-> ->].
  rewrite Hrel in H. unfold or_else at 1 in H. cbn [truthy] in H.
  run_step H rel0 wr Halloc.
  assert (Hvalid : ∀ l x k, own_at w l k = VRef x → valid w l).
  { intros l x k Hx. apply valid_lookup. unfold own_at in Hx.
    destruct (heap w !! l); [eauto | done]. }
  assert (Hlr : valid w lr) by (apply valid_lookup; eauto).
  pose proof Halloc as (-> & Hf & Hnew & _)%alloc_Ret.
  run_step H rels wg Hget.
  eapply getSettings_relations in Hget;
    [ | rewrite (frame_own _ _ _ Hf); [exact Hd | eauto | apply not_elem_of_nil]
      | rewrite (frame_own _ _ _ Hf); [exact Hs | eauto | apply not_elem_of_nil]
      | rewrite (frame_own _ _ _ Hf); [exact Hr | eauto | apply not_elem_of_nil]
      | by rewrite (alloc_lookup _ _ _ _ _ Halloc)
      | exact Hnew | exact Hkey | exact Hm ].
  pose proof (frame_refl [] wg) as Hacc.
  run_framed H Hacc. run_framed H Hacc. run_step H scopes ws Hsc.
  apply disable_all_Ret in H as [_ ->].
  apply elem_of_app. right. apply list_elem_of_fmap. eexists. split; [done|].
  rewrite !elem_of_app. left. right. by apply list_elem_of_fmap_2.
Qed.

(** ** When [prepare] returns *)

Lemma returns_bind {A B} (m : M A) (k : A → M B) w :
  returns m w → (∀ a w1, m w = Ret (a, w1) → returns (k a) w1) →
  returns (m ≫= k) w.
Proof.
  intros (a & w1 & Hm) Hk. destruct (Hk a w1 Hm) as (b & w2 & Hb).
  exists b, w2. apply bind_Ret. eauto.
Qed.

Lemma ends_bind {A B} Q (m : M A) (k : A → M B) w :
  returns m w → (∀ a w1, m w = Ret (a, w1) → ends Q (k a) w1) →
  ends Q (m ≫= k) w.
Proof.
  intros (a & w1 & Hm) Hk. unfold ends, mbind, M_bind. rewrite Hm.
  exact (Hk a w1 Hm).
Qed.

Lemma returns_mret {A} (a : A) w : returns (mret a) w.
Proof. by exists a, w. Qed.

Lemma returns_get l k w : valid w l → returns (get (VRef l) k) w.
Proof. intros Hl. eexists _, _. by apply get_ref. Qed.

Lemma returns_set l k x w : valid w l → named k = true → returns (set (VRef l) k x) w.
Proof. intros Hl Hk. destruct (set_ref l k x w Hl Hk) as [w' H]. by exists tt, w'. Qed.

Lemma returns_alloc o w : returns (alloc o) w.
Proof. by eexists _, _. Qed.

Lemma returns_or_else a b w : returns b w → returns (or_else a b) w.
Proof. unfold or_else. destruct (truthy a); [intros _; apply returns_mret | done]. Qed.

Lemma returns_default_acl name la w : valid w la → returns (default_acl name (VRef la)) w.
Proof.
  intros Hla. unfold default_acl.
  apply returns_bind; [by apply returns_get | intros p w1 [-> _]%get_Ret].
  apply returns_bind.
  { destruct (truthy p); [apply returns_mret | by apply returns_set]. }
  intros u w1 H1.
  assert (Hla1 : valid w1 la).
  { destruct (truthy p).
    - by apply mret_Ret in H1 as [_ ->].
    - apply set_Ret in H1 as (_ & _ & _ & Hf & _). by eapply frame_valid. }
  apply returns_bind; [by apply returns_get | intros q w2 [-> _]%get_Ret].
  apply returns_bind; [|intros; apply returns_mret].
  destruct (truthy q); [apply returns_mret | by apply returns_set].
Qed.

Lemma returns_array_map_default_acl name xs w :
  (∀ x, x ∈ xs → ∃ la, x = VRef la ∧ valid w la) →
  returns (array_map (default_acl name) xs) w.
Proof.
  revert w. induction xs as [|x xs IH]; intros w Hxs; simpl.
  - apply returns_mret.
  - destruct (Hxs x) as (la & -> & Hla); [constructor|].
    apply returns_bind; [by apply returns_default_acl | intros y w1 Hy].
    apply default_acl_Ret in Hy as (_ & _ & Hlen & _).
    apply returns_bind; [|intros; apply returns_mret].
    apply IH. intros x Hx. destruct (Hxs x) as (lx & -> & Hlx); [by constructor|].
    exists lx. split; [done|]. unfold valid in *. by rewrite Hlen.
Qed.

(** The frame of the first step of a run. *)
Ltac step_frame K H1 Hf :=
  lazymatch type of H1 with
  | ?m ?w = Ret (_, ?w1) =>
      assert (Hf : frame K w w1)
        by (revert H1;
            let Hw := fresh "Hw" in
            enough (writes K m) as Hw by apply Hw; solve_writes)
  end.

(** A read of a valid object as first step of a run that has to return. *)
Ltac ret_get :=
  apply ends_bind;
  [ apply returns_get; eauto using frame_valid
  | let x := fresh "x" in
    let w1 := fresh "w" in
    let H := fresh "H" in
    intros x w1 H; apply get_Ret in H as [-> [_ ->]]; cbv beta zeta ].

(** Split on the condition of a conditional step. *)
Ltac ret_if :=
  match goal with |- returns (if ?b then _ else _) _ => destruct b end.

Lemma typeof_ref l w o :
  heap w !! l = Some o →
  typeof (VRef l) w
  = Ret (match okind o with KFunction => "function" | _ => "object" end, w).
Proof. intros Ho. simpl. unfold mbind, M_bind, deref. by rewrite Ho. Qed.

Lemma map_method_array f l o w :
  heap w !! l = Some o → okind o = KArray →
  map_method f (VRef l) w = array_map f (elems o) w.
Proof. intros Ho Hk. simpl. unfold mbind, M_bind, deref. by rewrite Ho, Hk. Qed.

Lemma frame_extend K1 K2 K w1 w2 w3 :
  frame K1 w1 w2 → frame K2 w2 w3 → K1 ⊆ K → K2 ⊆ K → frame K w1 w3.
Proof.
  intros H1 H2 HK1 HK2.
  eapply frame_trans; [by eapply frame_mono; [exact HK1|] | by eapply frame_mono; [exact HK2|]].
Qed.

(** On a well-formed definition [prepare] gets as far as the handler
    check at line 215, and ends by it. *)
Lemma prepare_ends l w :
  well_formed w l →
  ends (by_handler (own_at w l "handler")) (prepare (VRef l)) w.
Proof.
  intros [Hl [n Hn] [s Hs] Ho Ha]. unfold prepare.
  set (Q := by_handler (own_at w l "handler")).
  (* line 174 *)
  ret_get.
  apply ends_bind; [apply returns_or_else, returns_alloc | intros rm w1 Hrm].
  step_frame (@nil string) Hrm H01.
  assert (∃ lr, rm = VRef lr ∧ valid w1 lr ∧
            (truthy (own_at w1 lr "http") = false ∨
             ∃ lh, own_at w1 lr "http" = VRef lh ∧ valid w1 lh))
    as (lr & -> & Hlr1 & Hhttp1).
  { unfold or_else in Hrm. destruct Ho as [Ho | (lo & Ho & Hlo & Hhttp)]; rewrite Ho in Hrm.
    - apply alloc_Ret in Hrm as (-> & _ & Hnew & Hlen).
      exists (length (heap w)). split; [done|]. split; [unfold valid; lia|].
      left. unfold own_at. by rewrite Hnew.
    - apply mret_Ret in Hrm as [-> ->]. exists lo. eauto. }
  clear Hrm Ho.
  assert (Hl1 : valid w1 l) by eauto using frame_valid.
  (* lines 176-177 *)
  ret_get.
  apply ends_bind.
  { ret_if; [by apply returns_set | apply returns_mret]. }
  intros u w2 Hset. step_frame ["isStatic"] Hset H12. clear Hset.
  assert (H02 : frame ["isStatic"] w w2).
  { eapply frame_trans; [|exact H12]. eapply frame_mono; [|exact H01]. compute_done. }
  assert (Hl2 : valid w2 l) by eauto using frame_valid.
  assert (Hlr2 : valid w2 lr) by eauto using frame_valid.
  (* lines 179-182 *)
  ret_get. rewrite (frame_own _ _ _ H02), Hn by (done || compute_done).
  apply ends_bind.
  { eexists _, _. apply getEndpointName_Ret. eauto. }
  intros nm w3 [-> _]%getEndpointName_Ret.
  ret_get.
  set (name := if truthy (own_at w2 l "isStatic") then nm else "prototype." +:+ nm).
  (* lines 185-186 *)
  ret_get.
  assert (Hhttp2 : truthy (own_at w2 lr "http") = false ∨
                   ∃ lh, own_at w2 lr "http" = VRef lh ∧ valid w2 lh).
  { rewrite (frame_own _ _ _ H12) by (done || compute_done).
    destruct Hhttp1 as [?|(lh & ? & ?)]; eauto 6 using frame_valid. }
  apply ends_bind.
  { destruct Hhttp2 as [-> | (lh & -> & _)]; [|apply returns_mret].
    apply returns_bind; [apply returns_alloc | intros o wa Ho].
    apply alloc_Ret in Ho as (-> & Hf & _). apply returns_set; eauto using frame_valid. }
  intros u3 w3 Hinit. step_frame ["http"] Hinit H23.
  assert (∃ lh, own_at w3 lr "http" = VRef lh ∧ valid w3 lh) as (lh & Hlh & Hvlh).
  { destruct Hhttp2 as [Hf | (lh & Heq & Hv)].
    - rewrite Hf in Hinit. run_step Hinit o wa Ho.
      apply alloc_Ret in Ho as (-> & _ & _ & Hlen).
      apply set_Ret in Hinit as (? & [= <-] & _ & _ & Hx & Hlen' & _).
      exists (length (heap w2)). split; [done|]. unfold valid. lia.
    - rewrite Heq in Hinit. apply mret_Ret in Hinit as [_ ->]. eauto. }
  clear Hinit Hhttp1 Hhttp2.
  pose proof (frame_extend _ _ ["isStatic"; "http"] _ _ _ H02 H23
                ltac:(compute_done) ltac:(compute_done)) as H03.
  assert (Hl3 : valid w3 l) by eauto using frame_valid.
  assert (Hlr3 : valid w3 lr) by eauto using frame_valid.
  (* line 188 *)
  ret_get. rewrite Hlh.
  ret_get. rewrite (frame_own _ _ _ H03), Hs by (done || compute_done).
  apply ends_bind; [apply returns_mret | intros lowered wa [-> ->]%mret_Ret].
  apply ends_bind; [by apply returns_set | intros u4 w4 Hverb].
  step_frame ["verb"] Hverb H34. clear Hverb.
  assert (Hlh4 : own_at w4 lr "http" = VRef lh)
    by (by rewrite (frame_own _ _ _ H34) by (done || compute_done)).
  assert (Hl4 : valid w4 l) by eauto using frame_valid.
  assert (Hlr4 : valid w4 lr) by eauto using frame_valid.
  assert (Hvlh4 : valid w4 lh) by eauto using frame_valid.
  pose proof (frame_extend _ _ ["isStatic"; "http"; "verb"] _ _ _ H03 H34
                ltac:(compute_done) ltac:(compute_done)) as H04.
  (* line 189 *)
  ret_get. rewrite Hlh4. ret_get.
  apply ends_bind; [by apply returns_set | intros u5 w5 Hpath].
  step_frame ["path"] Hpath H45. clear Hpath.
  assert (Hl5 : valid w5 l) by eauto using frame_valid.
  assert (Hlr5 : valid w5 lr) by eauto using frame_valid.
  pose proof (frame_extend _ _ ["isStatic"; "http"; "verb"; "path"] _ _ _ H04 H45
                ltac:(compute_done) ltac:(compute_done)) as H05.
  (* lines 191-192 *)
  ret_get.
  apply ends_bind.
  { ret_if; [by apply returns_set | apply returns_mret]. }
  intros u6 w6 Hdesc. step_frame ["description"] Hdesc H56. clear Hdesc.
  assert (Hl6 : valid w6 l) by eauto using frame_valid.
  assert (Hlr6 : valid w6 lr) by eauto using frame_valid.
  pose proof (frame_extend _ _ ["isStatic"; "http"; "verb"; "path"; "description"]
                _ _ _ H05 H56 ltac:(compute_done) ltac:(compute_done)) as H06.
  (* line 194 *)
  ret_get.
  apply ends_bind; [apply returns_or_else, returns_alloc | intros accepts w7 Hacc].
  step_frame (@nil string) Hacc H67. clear Hacc.
  assert (Hl7 : valid w7 l) by eauto using frame_valid.
  assert (Hlr7 : valid w7 lr) by eauto using frame_valid.
  apply ends_bind; [by apply returns_set | intros u8 w8 Hacc].
  step_frame ["accepts"] Hacc H78. clear Hacc.
  assert (Hl8 : valid w8 l) by eauto using frame_valid.
  assert (Hlr8 : valid w8 lr) by eauto using frame_valid.
  pose proof (frame_extend _ _ ["accepts"] _ _ _ H67 H78
                ltac:(compute_done) ltac:(compute_done)) as H68.
  pose proof (frame_extend _ _
                ["isStatic"; "http"; "verb"; "path"; "description"; "accepts"]
                _ _ _ H06 H68 ltac:(compute_done) ltac:(compute_done)) as H08.
  (* line 195 *)
  ret_get.
  apply ends_bind; [apply returns_or_else, returns_alloc | intros returns_ w9 Hret].
  step_frame (@nil string) Hret H89. clear Hret.
  assert (Hl9 : valid w9 l) by eauto using frame_valid.
  assert (Hlr9 : valid w9 lr) by eauto using frame_valid.
  apply ends_bind; [by apply returns_set | intros u10 w10 Hret].
  step_frame ["returns"] Hret H910. clear Hret.
  assert (Hl10 : valid w10 l) by eauto using frame_valid.
  pose proof (frame_extend _ _ ["returns"] _ _ _ H89 H910
                ltac:(compute_done) ltac:(compute_done)) as H810.
  pose proof (frame_extend _ _
                ["isStatic"; "http"; "verb"; "path"; "description"; "accepts";
                 "returns"]
                _ _ _ H08 H810 ltac:(compute_done) ltac:(compute_done)) as H010.
  clear H01 H12 H02 H23 H03 H34 H04 H45 H05 H56 H06 H67 H78 H68 H08 H89 H910 H810.
  clear Hl1 Hl2 Hl3 Hl4 Hl5 Hl6 Hl7 Hl8 Hl9 Hlr1 Hlr2 Hlr3 Hlr4 Hlr5 Hlr6 Hlr7 Hlr8 Hlr9.
  (* lines 198-201 *)
  ret_get. rewrite (frame_own _ _ _ H010) by (done || compute_done).
  match goal with
  | |- ends _ (mbind (λ _, mbind ?K _) _) _ =>
      assert (Htail : ∀ w12 lf xs,
                frame ["isStatic"; "http"; "verb"; "path"; "description";
                       "accepts"; "returns"; "acls"] w w12 →
                own_at w12 l "acls" = VRef lf →
                heap w12 !! lf = Some (Obj KArray xs []) →
                (∀ x, x ∈ xs → ∃ la, x = VRef la ∧ valid w12 la) →
                ends Q (K tt) w12)
  end.
  { clear dependent w10. intros w12 lf xs H012 Hlf Hobj Hxs.
    assert (Hl12 : valid w12 l) by eauto using frame_valid.
    ret_get. rewrite Hlf.
    apply ends_bind.
    { destruct (returns_array_map_default_acl name xs w12 Hxs) as (ys & w13 & Hmap).
      exists ys, w13. by rewrite (map_method_array _ _ _ _ Hobj). }
    intros ys w13 Hmap. step_frame ["property"; "principalType"] Hmap H1213.
    clear Hmap.
    pose proof (frame_extend _ _ prepare_keys _ _ _ H012 H1213
                  ltac:(compute_done) ltac:(compute_done)) as H013.
    assert (Hl13 : valid w13 l) by eauto using frame_valid.
    (* line 215 *)
    ret_get. rewrite (frame_own _ _ _ H013) by (done || compute_done).
    subst Q. unfold by_handler. destruct (truthy (own_at w l "handler")).
    - apply ends_bind; [apply returns_mret | intros ? ? [_ ->]%mret_Ret].
      (* lines 216-228 *)
      ret_get. ret_get. ret_get. ret_get. unfold ends. by eexists _, _.
    - done. }
  destruct Ha as [Ha | (la & Ha & Hk)]; rewrite Ha.
  - apply ends_bind; [apply returns_mret | intros ? ? [-> ->]%mret_Ret].
    cbv beta iota delta [negb].
    apply ends_bind.
    { apply returns_bind; [apply returns_alloc | intros a wa Hnew].
      apply alloc_Ret in Hnew as (-> & Hf & _). apply returns_set; eauto using frame_valid. }
    intros u12 w12 Hnorm. step_frame ["acls"] Hnorm H1012.
    run_step Hnorm a wa Hnew. apply alloc_Ret in Hnew as (-> & _ & Hnew & _).
    apply set_Ret in Hnorm as (? & [= <-] & _ & _ & Hset & _ & Hother).
    apply (Htail w12 (length (heap w10)) []).
    + eapply frame_extend; [exact H010 | exact H1012 | compute_done..].
    + done.
    + rewrite Hother; [done|]. unfold valid in Hl10. lia.
    + by intros x ?%elem_of_nil.
  - assert (Hla : valid w la).
    { apply valid_lookup. unfold kind_at in Hk.
      destruct (heap w !! la); [eauto | by destruct Hk]. }
    assert (Hla10 : valid w10 la) by eauto using frame_valid.
    assert (Hk10 : kind_at w10 la = Some KObject ∨ kind_at w10 la = Some KArray)
      by (by rewrite (frame_kind _ _ _ H010)).
    cbn [truthy].
    apply ends_bind.
    { unfold kind_at in Hk10. destruct (heap w10 !! la) as [o|] eqn:Ho; [|by destruct Hk10].
      apply returns_bind; [|intros; apply returns_mret].
      eexists _, _. by apply typeof_ref. }
    intros is_object wt Hiso.
    assert (wt = w10 ∧ is_object = true) as [-> ->].
    { run_step Hiso t wt' Ht. apply mret_Ret in Hiso as [-> ->].
      apply typeof_Ret in Ht as [-> (o & Ho & ->)].
      unfold kind_at in Hk10. rewrite Ho in Hk10. simpl in Hk10.
      split; [done|]. by destruct Hk10 as [[= ->]|[= ->]]. }
    clear Hiso. cbv iota.
    apply ends_bind.
    { apply returns_bind; [apply returns_alloc | intros a wa Hnew].
      apply alloc_Ret in Hnew as (-> & Hf & _). apply returns_set; eauto using frame_valid. }
    intros u12 w12 Hnorm. step_frame ["acls"] Hnorm H1012.
    run_step Hnorm a wa Hnew. apply alloc_Ret in Hnew as (-> & _ & Hnew & _).
    apply set_Ret in Hnorm as (? & [= <-] & _ & _ & Hset & _ & Hother).
    apply (Htail w12 (length (heap w10)) [VRef la]).
    + eapply frame_extend; [exact H010 | exact H1012 | compute_done..].
    + done.
    + rewrite Hother; [done|]. unfold valid in Hl10. lia.
    + intros x ->%list_elem_of_singleton. eauto using frame_valid.
Qed.

Lemma prepare_returns l w :
  well_formed w l → truthy (own_at w l "handler") = true →
  returns (prepare (VRef l)) w.
Proof.
  intros Hwf Hh. pose proof (prepare_ends l w Hwf) as H.
  unfold ends, by_handler in H. by rewrite Hh in H.
Qed.

(** The handler check itself: a well-formed definition without a handler
    is refused with the error of line 215. *)
Lemma prepare_HandlerIsNotSet l w :
  well_formed w l → truthy (own_at w l "handler") = false →
  prepare (VRef l) w = Throw HandlerIsNotSet.
Proof.
  intros Hwf Hh. pose proof (prepare_ends l w Hwf) as H.
  unfold ends, by_handler in H. by rewrite Hh in H.
Qed.

(** ** The verb and the handler *)

(** Split steps off a run, extending the frame, up to the read of [k]. *)
Ltac run_framed_to k H Hacc :=
  repeat lazymatch type of H with
         | (get _ k ≫= _) _ = _ => fail
         | _ => run_framed H Hacc
         end.

(** What [prepare] stores as [http.verb]: the definition's verb must be a
    string; it is stored in lower case, and as ["get"] when it is empty. *)
Lemma prepare_http_verb l w c w' :
  prepare (VRef l) w = Ret (c, w') →
  ∃ s lr lh,
    own_at w l "verb" = VStr s ∧ remoteMethod c = VRef lr ∧
    own_at w' lr "http" = VRef lh ∧
    own_at w' lh "verb" = or_default (VStr "get") (VStr (lower s)).
Proof.
  intros H. unfold prepare in H.
  run_get H options Hoptions. destruct Hoptions as [Hl _].
  pose proof (frame_refl ["isStatic"; "http"] w) as Hacc.
  run_step H rm wrm Hrm.
  assert (H01 : frame ["isStatic"; "http"] w wrm)
    by (revert Hrm; apply writes_or_else, writes_alloc).
  clear Hrm. pose proof (frame_trans _ _ _ _ Hacc H01) as Hacc1. clear Hacc H01.
  run_framed_to "http" H Hacc1.
  run_step H http0 wh Hhttp0. apply get_prop_of in Hhttp0 as [-> ->].
  match type of Hacc1 with frame _ _ ?x => rename x into wpre end.
  run_step H u winit Hinit.
  assert (H23 : frame ["isStatic"; "http"] wpre winit).
  { revert Hinit.
    match goal with |- ?m wpre = _ → _ => enough (writes ["isStatic"; "http"] m) as Hw by apply Hw end.
    solve_writes. }
  assert (∃ lr, rm = VRef lr) as [lr ->].
  { destruct rm; try (simpl in Hinit; run_step Hinit o wa Ho; inversion Hinit); eauto. }
  clear Hinit. pose proof (frame_trans _ _ _ _ Hacc1 H23) as H03. clear Hacc1 H23.
  run_get H http1 Hhttp1. destruct Hhttp1 as [Hlr3 ->].
  run_get H verb Hverb. destruct Hverb as [Hl3 ->].
  rewrite (frame_own _ _ _ H03 l "verb") in H by (done || compute_done).
  run_step H lowered wl Hlow.
  destruct (own_at w l "verb") as [| | | |s|lv] eqn:Hs;
    try (by apply call_own_Ret in Hlow).
  apply mret_Ret in Hlow as [-> ->].
  run_step H u4 wset Hset.
  apply set_Ret in Hset as (lh & Hlh & Hvlh & H34 & Hx & _).
  assert (H4 : frame ["path"; "description"; "accepts"; "returns"; "acls";
                      "property"; "principalType"] wset w').
  { revert H.
    match goal with |- ?m wset = _ → _ => enough (writes _ m) as Hw by apply Hw end.
    solve_writes. }
  assert (Hc : remoteMethod c = VRef lr).
  { clear -H. run_all H. by apply mret_Ret in H as [-> _]. }
  exists s, lr, lh. split_and!; [done..| |].
  - rewrite (frame_own _ _ _ H4), (frame_own _ _ _ H34)
      by (eauto using frame_valid || compute_done). done.
  - rewrite (frame_own _ _ _ H4) by (eauto using frame_valid || compute_done).
    done.
Qed.

(** [prepare] returns only for a definition that has a handler, and
    returns that handler. *)
Lemma prepare_needs_handler l w c w' :
  prepare (VRef l) w = Ret (c, w') →
  truthy (own_at w l "handler") = true ∧ handler c = own_at w l "handler".
Proof.
  intros H. unfold prepare in H.
  run_get H options Hoptions. destruct Hoptions as [Hl _].
  pose proof (frame_refl prepare_keys w) as Hacc.
  run_framed_to "handler" H Hacc.
  run_get H hv Hhv. destruct Hhv as [_ ->].
  rewrite (frame_own _ _ _ Hacc) in H by (done || compute_done).
  destruct (truthy (own_at w l "handler")); [|by run_step H u wthrow H1].
  split; [done|]. clear -H. run_all H. by apply mret_Ret in H as [-> _].
Qed.

Lemma bind_Throw {A B} (m : M A) (k : A → M B) w e :
  (m ≫= k) w = Throw e →
  m w = Throw e ∨ ∃ a w1, m w = Ret (a, w1) ∧ k a w1 = Throw e.
Proof.
  unfold mbind, M_bind. destruct (m w) as [[a w1]|e'|].
  - intros H. right. eauto.
  - intros [= ->]. by left.
  - discriminate.
Qed.

Lemma quiet_bind {A B} (m : M A) (k : A → M B) :
  quiet m → (∀ a, quiet (k a)) → quiet (m ≫= k).
Proof.
  intros Hm Hk w [H|(a & w1 & _ & H)]%bind_Throw; [by apply Hm in H | by apply Hk in H].
Qed.

Lemma quiet_mret {A} (a : A) : quiet (mret a).
Proof. done. Qed.

Lemma quiet_TypeError {A} : quiet (throw (A := A) TypeError).
Proof. done. Qed.

Lemma quiet_unmodelled {A} : quiet (unmodelled (A := A)).
Proof. done. Qed.

Lemma quiet_deref l : quiet (deref l).
Proof. intros w. unfold deref. by destruct (heap w !! l). Qed.

Lemma quiet_get v k : quiet (get v k).
Proof.
  destruct v; simpl; try done.
  apply quiet_bind; [apply quiet_deref | done].
Qed.

Lemma quiet_set v k x : quiet (set v k x).
Proof.
  intros w. destruct v; simpl; try done.
  destruct (heap w !! l); [|done]. destruct (is_index k || _); [done|].
  by destruct ((_ || _) && _).
Qed.

Lemma quiet_alloc o : quiet (alloc o).
Proof. done. Qed.

Lemma quiet_typeof v : quiet (typeof v).
Proof.
  destruct v; simpl; try done.
  apply quiet_bind; [apply quiet_deref | done].
Qed.

Lemma quiet_call_own {A} v m : quiet (call_own v m (A := A)).
Proof.
  unfold call_own. apply quiet_bind; [apply quiet_get | intros f].
  apply quiet_bind; [apply quiet_typeof | intros t]. by destruct (t =? "function").
Qed.

Lemma quiet_toLowerCase v : quiet (toLowerCase v).
Proof. destruct v; simpl; try apply quiet_call_own. done. Qed.

Lemma quiet_getEndpointName v : quiet (getEndpointName v).
Proof.
  unfold getEndpointName, to_string. apply quiet_bind; [|done]. by destruct (text v).
Qed.

Lemma quiet_or_else a b : quiet b → quiet (or_else a b).
Proof. intros Hb. unfold or_else. by destruct (truthy a). Qed.

Lemma quiet_array_map f xs : (∀ x, quiet (f x)) → quiet (array_map f xs).
Proof.
  intros Hf. induction xs as [|x xs IH]; simpl; [done|].
  apply quiet_bind; [done | intros y]. apply quiet_bind; [done | done].
Qed.

Lemma quiet_map_method f v : (∀ x, quiet (f x)) → quiet (map_method f v).
Proof.
  intros Hf. destruct v; simpl; try apply quiet_call_own.
  apply quiet_bind; [apply quiet_deref | intros o].
  destruct (okind o); try apply quiet_call_own. by apply quiet_array_map.
Qed.

Ltac solve_quiet :=
  repeat first
    [ apply quiet_mret | apply quiet_TypeError | apply quiet_unmodelled
    | apply quiet_get | apply quiet_set | apply quiet_alloc | apply quiet_typeof
    | apply quiet_toLowerCase | apply quiet_getEndpointName
    | apply quiet_or_else
    | apply quiet_map_method; intros ?
    | apply quiet_bind; [|intros ?]
    | match goal with
      | |- quiet (default_acl _ _) => unfold default_acl
      | |- quiet (if ?b then _ else _) => destruct b
      | |- quiet (let _ := _ in _) => cbv zeta
      | |- quiet ((λ _, _) _) => cbv beta
      end ].

(** Split the first step off a run that raised the handler error: the
    step itself is quiet, so it returned; extend the frame over it. *)
Ltac throw_framed H Hacc :=
  let a := fresh "a" in
  let w1 := fresh "w" in
  let H1 := fresh "H" in
  apply bind_Throw in H as [H | (a & w1 & H1 & H)];
  [ exfalso; revert H;
    lazymatch goal with
    | |- ?m ?w = _ → _ =>
        let Hq := fresh "Hq" in enough (quiet m) as Hq by apply Hq
    end;
    solve_quiet
  | cbv beta zeta in H;
    lazymatch type of Hacc with
    | frame ?K ?w0 ?w =>
        let Hf := fresh "Hf" in
        assert (Hf : frame K w w1)
          by (revert H1;
              match goal with
              | |- ?m _ = _ → _ =>
                  let Hw := fresh "Hw" in enough (writes K m) as Hw by apply Hw
              end; solve_writes);
        let Hn := fresh "Hacc" in
        pose proof (frame_trans _ _ _ _ Hacc Hf) as Hn;
        clear Hacc Hf H1; rename Hn into Hacc
    end ].

(** With a handler present the error of the handler check is not raised. *)
Lemma prepare_handler_present l w :
  truthy (own_at w l "handler") = true →
  prepare (VRef l) w ≠ Throw HandlerIsNotSet.
Proof.
  intros Hh H. unfold prepare in H.
  assert (Hl : valid w l).
  { apply valid_lookup. unfold own_at in Hh. by destruct (heap w !! l); [eauto|]. }
  pose proof (frame_refl prepare_keys w) as Hacc.
  repeat lazymatch type of H with
         | (get _ "handler" ≫= _) _ = _ => fail
         | _ => throw_framed H Hacc
         end.
  apply bind_Throw in H as [H | (hv & wh & Hhv & H)]; [by apply quiet_get in H|].
  apply get_Ret in Hhv as [-> [_ ->]].
  rewrite (frame_own _ _ _ Hacc), Hh in H by (done || compute_done).
  revert H.
  match goal with |- ?m ?w = _ → _ => enough (quiet m) as Hq by apply Hq end.
  solve_quiet.
Qed.

(** ** The remote-method options of the descriptor *)

(** What [prepare] leaves in the options object it returns, lines 185-195:
    [http.path] is the definition's path; a description is attached when
    the definition has one; [accepts] and [returns] are the definition's,
    or a new empty array and a new [{root: true, type: "object"}]. *)
Lemma prepare_remoteMethod l w c w' :
  prepare (VRef l) w = Ret (c, w') →
  ∃ lr lh,
    remoteMethod c = VRef lr ∧ own_at w' lr "http" = VRef lh ∧
    own_at w' lh "path" = own_at w l "path" ∧
    (truthy (own_at w l "description") = true →
     own_at w' lr "description" = own_at w l "description") ∧
    (if truthy (own_at w l "accepts")
     then own_at w' lr "accepts" = own_at w l "accepts"
     else ∃ la, own_at w' lr "accepts" = VRef la ∧ ¬ valid w la ∧
                kind_at w' la = Some KArray ∧ elems_at w' la = []) ∧
    (if truthy (own_at w l "returns")
     then own_at w' lr "returns" = own_at w l "returns"
     else ∃ lo, own_at w' lr "returns" = VRef lo ∧ ¬ valid w lo ∧
                kind_at w' lo = Some KObject ∧
                own_at w' lo "root" = VBool true ∧
                own_at w' lo "type" = VStr "object").
Proof.
  intros H. unfold prepare in H.
  run_get H options Hoptions. destruct Hoptions as [Hl _].
  pose proof (frame_refl ["isStatic"; "http"] w) as Hacc.
  run_step H rm wrm Hrm.
  assert (H01 : frame ["isStatic"; "http"] w wrm)
    by (revert Hrm; apply writes_or_else, writes_alloc).
  clear Hrm. pose proof (frame_trans _ _ _ _ Hacc H01) as Hacc1. clear Hacc H01.
  run_framed_to "http" H Hacc1.
  run_step H http0 wh Hhttp0. apply get_prop_of in Hhttp0 as [-> ->].
  match type of Hacc1 with frame _ _ ?x => rename x into wpre end.
  run_step H u winit Hinit.
  step_frame ["isStatic"; "http"] Hinit H23.
  assert (∃ lr, rm = VRef lr) as [lr ->].
  { destruct rm; try (simpl in Hinit; run_step Hinit o wa Ho; inversion Hinit); eauto. }
  clear Hinit. pose proof (frame_trans _ _ _ _ Hacc1 H23) as H03. clear Hacc1 H23.
  (* line 188 *)
  run_get H http1 Hhttp1. destruct Hhttp1 as [Hlr3 ->].
  run_get H verb Hverb. destruct Hverb as [Hl3 ->].
  run_step H lowered wl Hlow. apply pure_toLowerCase in Hlow as ->.
  run_step H u4 wverb Hset.
  apply set_Ret in Hset as (lh & Hlh & Hvlh & H34 & _).
  pose proof (frame_extend _ _ ["isStatic"; "http"; "verb"] _ _ _ H03 H34
                ltac:(compute_done) ltac:(compute_done)) as H04.
  assert (Hl4 : valid wverb l) by eauto using frame_valid.
  assert (Hlr4 : valid wverb lr) by eauto using frame_valid.
  assert (Hlh4 : valid wverb lh) by eauto using frame_valid.
  assert (Hhttp4 : own_at wverb lr "http" = VRef lh)
    by (by rewrite (frame_own _ _ _ H34) by (done || compute_done)).
  (* line 189 *)
  run_get H http2 Hhttp2. destruct Hhttp2 as [_ ->]. rewrite Hhttp4 in H.
  run_get H path Hpath. destruct Hpath as [_ ->].
  rewrite (frame_own _ _ _ H04 l "path") in H by (done || compute_done).
  run_step H u5 wpath Hset.
  apply set_Ret in Hset as (? & [= <-] & _ & H45 & Hpath & _).
  step_frame ["description"; "accepts"; "returns"; "acls"; "property";
              "principalType"] H Hrest5.
  pose proof (frame_extend _ _ ["isStatic"; "http"; "verb"; "path"] _ _ _ H04 H45
                ltac:(compute_done) ltac:(compute_done)) as H05.
  assert (Hl5 : valid wpath l) by eauto using frame_valid.
  assert (Hlr5 : valid wpath lr) by eauto using frame_valid.
  assert (Hlh5 : valid wpath lh) by eauto using frame_valid.
  assert (Hhttp5 : own_at wpath lr "http" = VRef lh)
    by (by rewrite (frame_own _ _ _ H45) by (done || compute_done)).
  (* lines 191-192 *)
  run_get H description Hdescription. destruct Hdescription as [_ ->].
  rewrite (frame_own _ _ _ H05 l "description") in H by (done || compute_done).
  run_step H u6 wdesc Hdesc.
  step_frame ["description"] Hdesc H56.
  step_frame ["accepts"; "returns"; "acls"; "property"; "principalType"] H Hrest6.
  assert (Hd6 : truthy (own_at w l "description") = true →
                own_at wdesc lr "description" = own_at w l "description").
  { intros Ht. rewrite Ht in Hdesc.
    by apply set_Ret in Hdesc as (? & [= <-] & _ & _ & ? & _). }
  clear Hdesc.
  pose proof (frame_extend _ _ ["isStatic"; "http"; "verb"; "path"; "description"]
                _ _ _ H05 H56 ltac:(compute_done) ltac:(compute_done)) as H06.
  assert (Hl6 : valid wdesc l) by eauto using frame_valid.
  assert (Hlr6 : valid wdesc lr) by eauto using frame_valid.
  (* line 194 *)
  run_get H accepts Haccepts. destruct Haccepts as [_ ->].
  rewrite (frame_own _ _ _ H06 l "accepts") in H by (done || compute_done).
  run_step H accepted wacc Hor.
  step_frame (@nil string) Hor H67.
  run_step H u8 wset8 Hset.
  apply set_Ret in Hset as (? & [= <-] & _ & H78 & Haccepts & _).
  step_frame ["returns"; "acls"; "property"; "principalType"] H Hrest8.
  pose proof (frame_extend _ _ ["accepts"] _ _ _ H67 H78
                ltac:(compute_done) ltac:(compute_done)) as H68.
  pose proof (frame_extend _ _
                ["isStatic"; "http"; "verb"; "path"; "description"; "accepts"]
                _ _ _ H06 H68 ltac:(compute_done) ltac:(compute_done)) as H08.
  assert (Hl8 : valid wset8 l) by eauto using frame_valid.
  assert (Hlr8 : valid wset8 lr) by eauto using frame_valid.
  assert (Hacc8 :
    if truthy (own_at w l "accepts")
    then accepted = own_at w l "accepts"
    else ∃ la, accepted = VRef la ∧ ¬ valid w la ∧ valid wset8 la ∧
               kind_at wset8 la = Some KArray ∧ elems_at wset8 la = []).
  { unfold or_else in Hor. destruct (truthy (own_at w l "accepts")).
    - by apply mret_Ret in Hor as [-> _].
    - pose proof Hor as (-> & _ & Hnew & Hlen)%alloc_Ret.
      assert (Hva : valid wacc (length (heap wdesc))) by (unfold valid; lia).
      exists (length (heap wdesc)). split_and!.
      + done.
      + pose proof (frame_length _ _ _ H06). unfold valid. lia.
      + exact (frame_valid _ _ _ _ H78 Hva).
      + rewrite (frame_kind _ _ _ H78) by done. unfold kind_at. by rewrite Hnew.
      + rewrite (frame_elems _ _ _ H78) by done. unfold elems_at. by rewrite Hnew. }
  clear Hor.
  (* line 195 *)
  run_get H returned Hreturned. destruct Hreturned as [_ ->].
  rewrite (frame_own _ _ _ H08 l "returns") in H by (done || compute_done).
  run_step H given wret Hor.
  step_frame (@nil string) Hor H89.
  run_step H u10 wset10 Hset.
  apply set_Ret in Hset as (? & [= <-] & _ & H910 & Hreturns & _).
  step_frame ["acls"; "property"; "principalType"] H Hrest10.
  assert (Hlr10 : valid wset10 lr) by eauto using frame_valid.
  assert (Hret10 :
    if truthy (own_at w l "returns")
    then given = own_at w l "returns"
    else ∃ lo, given = VRef lo ∧ ¬ valid w lo ∧ valid wset10 lo ∧
               kind_at wset10 lo = Some KObject ∧
               own_at wset10 lo "root" = VBool true ∧
               own_at wset10 lo "type" = VStr "object").
  { unfold or_else in Hor. destruct (truthy (own_at w l "returns")).
    - by apply mret_Ret in Hor as [-> _].
    - pose proof Hor as (-> & _ & Hnew & Hlen)%alloc_Ret.
      assert (Hva : valid wret (length (heap wset8))) by (unfold valid; lia).
      exists (length (heap wset8)). split_and!.
      + done.
      + pose proof (frame_length _ _ _ H08). unfold valid. lia.
      + exact (frame_valid _ _ _ _ H910 Hva).
      + rewrite (frame_kind _ _ _ H910) by done. unfold kind_at. by rewrite Hnew.
      + rewrite (frame_own _ _ _ H910) by (done || compute_done).
        unfold own_at. by rewrite Hnew.
      + rewrite (frame_own _ _ _ H910) by (done || compute_done).
        unfold own_at. by rewrite Hnew. }
  clear Hor.
  assert (Hc : remoteMethod c = VRef lr).
  { clear -H. run_all H. by apply mret_Ret in H as [-> _]. }
  exists lr, lh. split_and!.
  - done.
  - rewrite (frame_own _ _ _ Hrest5) by (done || compute_done). done.
  - rewrite (frame_own _ _ _ Hrest5) by (done || compute_done). done.
  - intros Ht. rewrite (frame_own _ _ _ Hrest6) by (done || compute_done). auto.
  - destruct (truthy (own_at w l "accepts")).
    + rewrite (frame_own _ _ _ Hrest8) by (done || compute_done). congruence.
    + destruct Hacc8 as (la & -> & Hfresh & Hva & Hk & He). exists la.
      rewrite (frame_own _ _ _ Hrest8), (frame_kind _ _ _ Hrest8),
        (frame_elems _ _ _ Hrest8) by (done || compute_done). done.
  - destruct (truthy (own_at w l "returns")).
    + rewrite (frame_own _ _ _ Hrest10) by (done || compute_done). congruence.
    + destruct Hret10 as (lo & -> & Hfresh & Hvo & Hk & Hroot & Htype). exists lo.
      rewrite !(frame_own _ _ _ Hrest10), (frame_kind _ _ _ Hrest10)
        by (done || compute_done). done.
Qed.

(** The hooks [prepare] collects, lines 216-219: one for each of [before],
    [after] and [error] the definition has, in that order. *)
Lemma prepare_hooks l w c w' :
  prepare (VRef l) w = Ret (c, w') →
  hooks c =
    push_hook "afterRemoteError" (own_at w l "error")
      (push_hook "afterRemote" (own_at w l "after")
         (push_hook "beforeRemote" (own_at w l "before") [])).
Proof.
  intros H. unfold prepare in H.
  run_get H options Hoptions. destruct Hoptions as [Hl _].
  pose proof (frame_refl prepare_keys w) as Hacc.
  run_framed_to "handler" H Hacc.
  match type of Hacc with frame _ _ ?x => rename x into wn end.
  run_get H hv Hhv. destruct Hhv as [Hln _].
  run_step H u wcheck Hcheck.
  assert (wcheck = wn) as ->.
  { destruct (truthy hv); [by apply mret_Ret in Hcheck as [_ ->] | done]. }
  run_get H hb Hhb. destruct Hhb as [_ ->].
  run_get H ha Hha. destruct Hha as [_ ->].
  run_get H he Hhe. destruct Hhe as [_ ->].
  rewrite !(frame_own _ _ _ Hacc) in H by (done || compute_done).
  run_all H. by apply mret_Ret in H as [-> _].
Qed.

(** The options object of the descriptor, line 174: the definition's
    [options] itself when it has one, a new object otherwise. *)
Lemma prepare_options l w c w' :
  prepare (VRef l) w = Ret (c, w') →
  if truthy (own_at w l "options")
  then remoteMethod c = own_at w l "options"
  else ∃ lr, remoteMethod c = VRef lr ∧ ¬ valid w lr ∧ valid w' lr.
Proof.
  intros H. unfold prepare in H.
  run_get H options Hoptions. destruct Hoptions as [Hl ->].
  run_step H rm wrm Hrm.
  step_frame prepare_keys H Hrest.
  assert (Hc : remoteMethod c = rm).
  { clear -H. run_all H. by apply mret_Ret in H as [-> _]. }
  unfold or_else in Hrm. destruct (truthy (own_at w l "options")).
  - apply mret_Ret in Hrm as [-> _]. done.
  - apply alloc_Ret in Hrm as (-> & _ & _ & Hlen).
    exists (length (heap w)). split; [done|]. split; [unfold valid; lia|].
    eapply frame_valid; [exact Hrest|]. unfold valid. lia.
Qed.

(** ** What [getSettings] returns *)

Lemma indexOf_nonneg xs x : (0 <=? indexOf xs x)%Z = bool_decide (x ∈ xs).
Proof.
  rewrite Z.leb_antisym. destruct (indexOf xs x <? 0)%Z eqn:E; simpl.
  - apply indexOf_neg in E. by rewrite bool_decide_eq_false_2.
  - rewrite bool_decide_eq_true_2; [done|].
    destruct (decide (x ∈ xs)) as [|Hn]; [done|].
    apply indexOf_neg in Hn. congruence.
Qed.

(** With an array for whitelist the [reduce] keeps the names of the keys
    that the array does not hold. *)
Lemma reduce_keys_array prefix methods lw o blacklist keys w :
  heap w !! lw = Some o → okind o = KArray →
  reduce_keys prefix methods (VRef lw) blacklist keys w
  = Ret (blacklist ++
           (filter (λ key, VStr key ∉ elems o) keys
              ≫= operation_names prefix methods), w).
Proof.
  intros Ho Hk. revert blacklist. induction keys as [|k keys IH]; intros blacklist.
  - simpl. by rewrite app_nil_r.
  - cbn [reduce_keys]. unfold mbind at 1, M_bind at 1.
    assert (Hi : indexOf_method (VRef lw) k w = Ret (indexOf (elems o) (VStr k), w)).
    { simpl. unfold mbind, M_bind, deref. by rewrite Ho, Hk. }
    rewrite Hi, indexOf_nonneg, filter_cons. case_bool_decide as Hin.
    + rewrite decide_False by (by intros ?). apply IH.
    + rewrite decide_True by done. rewrite IH. cbn [mbind list_bind].
      by rewrite <- app_assoc.
Qed.

Lemma Object_keys_Ret v w ks w' :
  Object_keys v w = Ret (ks, w') → w' = w ∧ ks = keys_at w v.
Proof.
  destruct v; simpl; try done; try by intros [-> ->]%mret_Ret.
  intros (o & w1 & [-> Ho]%deref_Ret & [-> ->]%mret_Ret)%bind_Ret.
  by rewrite Ho.
Qed.

(** [getSettings] reduces over the configured keys and leaves the store
    as it is. *)
Lemma getSettings_keys model name whitelist w names w' :
  getSettings model name whitelist w = Ret (names, w') →
  w' = w ∧
  (if name =? "relations"
   then reduce_keys "prototype.__" RELATION_METHODS whitelist [] (configured w model name)
   else if name =? "scopes"
   then reduce_keys "__" SCOPE_METHODS whitelist [] (configured w model name)
   else mret []) w = Ret (names, w).
Proof.
  intros H. pose proof (pure_getSettings _ _ _ _ _ _ H) as ->. split; [done|].
  unfold getSettings in H.
  run_step H definition w1 H1. apply get_prop_of in H1 as [-> ->].
  run_step H settings w1 H1. apply get_prop_of in H1 as [-> ->].
  run_step H setting w1 H1. apply get_prop_of in H1 as [-> ->].
  run_step H keys w1 H1. run_step H live w2 H2. apply get_prop_of in H2 as [-> ->].
  run_step H keys' w2 H2. unfold configured. cbv zeta.
  assert (w1 = w ∧ keys = if truthy (prop_of w (prop_of w (prop_of w model "definition")
                                               "settings") name)
                          then keys_at w (prop_of w (prop_of w (prop_of w model "definition")
                                               "settings") name) else []) as [-> ->].
  { destruct (truthy _); [by apply Object_keys_Ret in H1 | by apply mret_Ret in H1 as [-> ->]]. }
  clear H1.
  match type of H2 with
  | (if _ then _ else mret ?ks) _ = _ => set (keys0 := ks) in *
  end.
  assert (w2 = w ∧ keys' = if truthy (prop_of w model name)
                           then union keys0 (keys_at w (prop_of w model name))
                           else keys0) as [-> ->].
  { destruct (truthy (prop_of w model name)).
    - run_step H2 ks wk Hks. apply Object_keys_Ret in Hks as [-> ->].
      by apply mret_Ret in H2 as [-> ->].
    - by apply mret_Ret in H2 as [-> ->]. }
  exact H.
Qed.

(** [getSettings] with an array for whitelist: the operation names of the
    configured keys the array does not hold, key by key. *)
Lemma getSettings_array model name lw w names w' :
  kind_at w lw = Some KArray →
  getSettings model name (VRef lw) w = Ret (names, w') →
  w' = w ∧
  names =
    let kept := filter (λ key, VStr key ∉ elems_at w lw) (configured w model name) in
    if name =? "relations" then kept ≫= operation_names "prototype.__" RELATION_METHODS
    else if name =? "scopes" then kept ≫= operation_names "__" SCOPE_METHODS
    else [].
Proof.
  intros Hk [-> H]%getSettings_keys. split; [done|].
  assert (∃ o, heap w !! lw = Some o ∧ okind o = KArray ∧ elems_at w lw = elems o)
    as (o & Ho & Hko & ->).
  { unfold kind_at, elems_at in *. destruct (heap w !! lw) as [o|]; [|done].
    exists o. by injection Hk as ->. }
  cbv zeta. destruct (name =? "relations").
  { rewrite (reduce_keys_array _ _ _ _ _ _ _ Ho Hko) in H. by injection H as <-. }
  destruct (name =? "scopes").
  { rewrite (reduce_keys_array _ _ _ _ _ _ _ Ho Hko) in H. by injection H as <-. }
  by apply mret_Ret in H as [-> _].
Qed.

(** Whatever the whitelist is, a name the [reduce] adds is an operation
    name of one of the keys. *)
Lemma reduce_keys_names prefix methods whitelist blacklist keys w names w' n :
  reduce_keys prefix methods whitelist blacklist keys w = Ret (names, w') →
  n ∈ names →
  n ∈ blacklist ∨ ∃ key, key ∈ keys ∧ n ∈ operation_names prefix methods key.
Proof.
  revert blacklist w. induction keys as [|k keys IH]; intros blacklist w H Hn.
  - apply mret_Ret in H as [-> _]. by left.
  - cbn [reduce_keys] in H. run_step H i w1 Hi. destruct (0 <=? i)%Z.
    + destruct (IH _ _ H Hn) as [?|(key & ? & ?)]; [by left|].
      right. exists key. split; [by right | done].
    + destruct (IH _ _ H Hn) as [[?|?]%elem_of_app|(key & ? & ?)].
      * by left.
      * right. exists k. split; [by left | done].
      * right. exists key. split; [by right | done].
Qed.

Lemma getSettings_names model name whitelist w names w' n :
  getSettings model name whitelist w = Ret (names, w') →
  n ∈ names →
  ∃ key, key ∈ configured w model name ∧
    ((name = "relations" ∧ n ∈ operation_names "prototype.__" RELATION_METHODS key) ∨
     (name = "scopes" ∧ n ∈ operation_names "__" SCOPE_METHODS key)).
Proof.
  intros [-> H]%getSettings_keys Hn.
  destruct (name =? "relations") eqn:E1.
  { apply String.eqb_eq in E1 as ->.
    destruct (reduce_keys_names _ _ _ _ _ _ _ _ _ H Hn) as [[]%elem_of_nil|(key & ? & ?)].
    eauto 10. }
  destruct (name =? "scopes") eqn:E2.
  { apply String.eqb_eq in E2 as ->.
    destruct (reduce_keys_names _ _ _ _ _ _ _ _ _ H Hn) as [[]%elem_of_nil|(key & ? & ?)].
    eauto 10. }
  apply mret_Ret in H as [-> _]. by apply elem_of_nil in Hn.
Qed.

(** ** What [hideEndpoints] disables *)

(** Two operation names of scopes, or of relations, are equal only for one
    and the same key. *)
Lemma scope_name_inj m m' key key' :
  m ∈ SCOPE_METHODS → m' ∈ SCOPE_METHODS →
  "__" +:+ m +:+ "__" +:+ key = "__" +:+ m' +:+ "__" +:+ key' → key = key'.
Proof.
  unfold SCOPE_METHODS. intros Hm Hm'.
  repeat (apply elem_of_cons in Hm as [->|Hm]);
    try (by apply elem_of_nil in Hm);
    repeat (apply elem_of_cons in Hm' as [->|Hm']);
    try (by apply elem_of_nil in Hm');
    simpl; intros ?; by simplify_eq.
Qed.

Lemma relation_name_inj m m' key key' :
  m ∈ RELATION_METHODS → m' ∈ RELATION_METHODS →
  "prototype.__" +:+ m +:+ "__" +:+ key = "prototype.__" +:+ m' +:+ "__" +:+ key' →
  key = key'.
Proof.
  unfold RELATION_METHODS. intros Hm Hm'.
  repeat (apply elem_of_cons in Hm as [->|Hm]);
    try (by apply elem_of_nil in Hm);
    repeat (apply elem_of_cons in Hm' as [->|Hm']);
    try (by apply elem_of_nil in Hm');
    simpl; intros ?; by simplify_eq.
Qed.

Lemma prefix_not_relation m key m' key' :
  "__" +:+ m +:+ "__" +:+ key ≠ "prototype.__" +:+ m' +:+ "__" +:+ key'.
Proof. simpl. discriminate. Qed.

Lemma scope_name_not_base m key : "__" +:+ m +:+ "__" +:+ key ∉ MODEL_METHODS.
Proof.
  unfold MODEL_METHODS. simpl. intros H.
  repeat (apply elem_of_cons in H as [H|H]; [discriminate|]).
  by apply elem_of_nil in H.
Qed.

Lemma relation_name_not_base m key :
  "prototype.__" +:+ m +:+ "__" +:+ key ∉ MODEL_METHODS.
Proof.
  unfold MODEL_METHODS. simpl. intros H.
  repeat (apply elem_of_cons in H as [H|H]; [discriminate|]).
  by apply elem_of_nil in H.
Qed.

Lemma modelMethods_subset filter w ms w' m :
  modelMethods filter w = Ret (ms, w') → m ∈ ms → m ∈ MODEL_METHODS.
Proof.
  unfold modelMethods. intros (arr & w1 & _ & H)%bind_Ret Hm.
  destruct arr as [[|x xs]|]; try (by apply mret_Ret in H as [-> _]).
  apply mret_Ret in H as [-> _].
  apply list_elem_of_In, filter_In in Hm as [Hm _]. by apply list_elem_of_In.
Qed.

Lemma extended_lookup n w w' l o :
  extended n w w' → heap w !! l = Some o → heap w' !! l = Some o.
Proof. intros (new & -> & _) Ho. by apply lookup_app_l_Some. Qed.

Lemma extended_new n w w' l o :
  extended n w w' → heap w !! l = None → heap w' !! l = Some o →
  o = Obj KArray [] [].
Proof.
  intros (new & Hh & Hall & _) Hnone Ho. rewrite Hh in Ho.
  apply lookup_app_Some in Ho as [Ho|[_ Ho]]; [congruence|].
  rewrite Forall_lookup in Hall. eauto.
Qed.

Lemma own_empty_array k : k ≠ "length" → own (Obj KArray [] []) k = VUndefined.
Proof.
  intros Hk. unfold own. simpl. apply String.eqb_neq in Hk. rewrite Hk.
  by destruct (array_index k).
Qed.

(** A store extended by empty arrays reads as before, the [length] of a
    reference that pointed nowhere apart. *)
Lemma extended_own_at n w w' l k :
  extended n w w' → k ≠ "length" → own_at w' l k = own_at w l k.
Proof.
  intros Hext Hk. unfold own_at. destruct (heap w !! l) as [o|] eqn:Ho.
  - by rewrite (extended_lookup _ _ _ _ _ Hext Ho).
  - destruct (heap w' !! l) as [o'|] eqn:Ho'; [|done].
    rewrite (extended_new _ _ _ _ _ Hext Ho Ho'). simpl. by apply own_empty_array.
Qed.

Lemma extended_prop_of n w w' v k :
  extended n w w' → k ≠ "length" → prop_of w' v k = prop_of w v k.
Proof. destruct v; simpl; eauto using extended_own_at. Qed.

Lemma extended_keys_at n w w' v : extended n w w' → keys_at w' v = keys_at w v.
Proof.
  intros Hext. destruct v as [| | | | |l]; simpl; try done.
  destruct (heap w !! l) as [o|] eqn:Ho.
  - by rewrite (extended_lookup _ _ _ _ _ Hext Ho).
  - destruct (heap w' !! l) as [o'|] eqn:Ho'; [|done].
    by rewrite (extended_new _ _ _ _ _ Hext Ho Ho').
Qed.

Lemma extended_configured n w w' model name :
  extended n w w' → name ≠ "length" →
  configured w' model name = configured w model name.
Proof.
  intros Hext Hn. unfold configured.
  rewrite !(extended_prop_of _ _ _ _ _ Hext) by done.
  by rewrite !(extended_keys_at _ _ _ _ Hext).
Qed.

Lemma extended_kind_at n w w' l k :
  extended n w w' → kind_at w l = Some k → kind_at w' l = Some k.
Proof.
  intros Hext. unfold kind_at. destruct (heap w !! l) as [o|] eqn:Ho; [|done].
  by rewrite (extended_lookup _ _ _ _ _ Hext Ho).
Qed.

Lemma extended_elems_at n w w' l k :
  extended n w w' → kind_at w l = Some k → elems_at w' l = elems_at w l.
Proof.
  intros Hext. unfold kind_at, elems_at. destruct (heap w !! l) as [o|] eqn:Ho; [|done].
  by rewrite (extended_lookup _ _ _ _ _ Hext Ho).
Qed.

Lemma extended_trans n m w1 w2 w3 :
  extended n w1 w2 → extended m w2 w3 → extended (n + m) w1 w3.
Proof.
  intros (new1 & H1 & Hf1 & Hl1) (new2 & H2 & Hf2 & Hl2).
  exists (new1 ++ new2). rewrite H2, H1, <- app_assoc. split; [done|].
  split; [by apply Forall_app|]. rewrite length_app. lia.
Qed.

Lemma or_else_array_Ret a w v w' :
  or_else a (alloc (Obj KArray [] [])) w = Ret (v, w') →
  extended 1 w w' ∧ calls w' = calls w ∧
  (if truthy a then v = a
   else ∃ lf, v = VRef lf ∧ kind_at w' lf = Some KArray ∧ elems_at w' lf = []).
Proof.
  unfold or_else. destruct (truthy a).
  - intros [-> ->]%mret_Ret. split; [|done]. exists []. rewrite app_nil_r.
    split_and!; [done | constructor | simpl; lia].
  - intros H. pose proof H as (-> & _ & Hnew & _)%alloc_Ret.
    unfold alloc in H. injection H as <-. split_and!.
    + exists [Obj KArray [] []]. split_and!; [done | by constructor | simpl; lia].
    + done.
    + eexists. split; [done|]. unfold kind_at, elems_at. by rewrite Hnew.
Qed.

(** [hideEndpoints], step by step: the relation and the scope operations
    are those [getSettings] returns for [whitelist.relation || []] and
    [whitelist.scopes || []]; the store only grows, by the empty arrays of
    these two defaults. *)
Lemma hideEndpoints_parts model blacklist whitelist w u w' :
  hideEndpoints model blacklist whitelist w = Ret (u, w') →
  ∃ lb base wr Wr rs ws Ws ss,
    blacklist = VRef lb ∧ kind_at w lb = Some KArray ∧
    (∀ m, m ∈ base → m ∈ MODEL_METHODS) ∧
    extended 1 w wr ∧ extended 1 wr ws ∧ heap w' = heap ws ∧
    (if truthy (prop_of w whitelist "relation")
     then Wr = prop_of w whitelist "relation"
     else ∃ lf, Wr = VRef lf ∧ kind_at wr lf = Some KArray ∧ elems_at wr lf = []) ∧
    getSettings model "relations" Wr wr = Ret (rs, wr) ∧
    (if truthy (prop_of w whitelist "scopes")
     then Ws = prop_of w whitelist "scopes"
     else ∃ lf, Ws = VRef lf ∧ kind_at ws lf = Some KArray ∧ elems_at ws lf = []) ∧
    getSettings model "scopes" Ws ws = Ret (ss, ws) ∧
    calls w' = calls w ++
      (DisableRemoteMethodByName model <$>
         (elems_at w lb ++ (VStr <$> base) ++ (VStr <$> rs) ++ (VStr <$> ss))).
Proof.
  intros H. unfold hideEndpoints in H.
  run_step H wl wb Hwl. apply get_prop_of in Hwl as [-> ->].
  run_step H base wb Hbase. pose proof (pure_modelMethods _ _ _ _ Hbase) as ->.
  run_step H bl wb Hbl. apply concat_method_Ret in Hbl as [-> (lb & -> & Hk & ->)].
  run_step H rel wb Hrel. apply get_prop_of in Hrel as [-> ->].
  run_step H Wr wr HWr. apply or_else_array_Ret in HWr as (Hwr & Hcr & HWr).
  run_step H rs wg HR. pose proof (pure_getSettings _ _ _ _ _ _ HR) as ->.
  run_step H sc wb Hsc. apply get_prop_of in Hsc as [-> ->].
  rewrite (extended_prop_of _ _ _ _ _ Hwr) in H by done.
  run_step H Ws ws HWs. apply or_else_array_Ret in HWs as (Hws & Hcs & HWs).
  run_step H ss wg HS. pose proof (pure_getSettings _ _ _ _ _ _ HS) as ->.
  apply disable_all_Ret in H as [Hheap Hcalls].
  exists lb, base, wr, Wr, rs, ws, Ws, ss. split_and!; try done.
  - intros m. by apply (modelMethods_subset _ _ _ _ _ Hbase).
  - rewrite Hcalls, Hcs, Hcr. by rewrite <- !app_assoc.
Qed.

(** The names [getSettings] returns for a whitelist that is an array, or
    an absent one replaced by the empty array, from the keys of a store
    the run's store extends. *)
Lemma getSettings_kept n w0 w model name given W names :
  extended n w0 w → name ≠ "length" →
  (if truthy given then W = given
   else ∃ lf, W = VRef lf ∧ kind_at w lf = Some KArray ∧ elems_at w lf = []) →
  getSettings model name W w = Ret (names, w) →
  truthy given = false ∨
  (∃ lw, given = VRef lw ∧ kind_at w0 lw = Some KArray) →
  ∃ listed,
    (if truthy given then ∃ lw, given = VRef lw ∧ listed = elems_at w0 lw
     else listed = []) ∧
    names =
      let kept := filter (λ key, VStr key ∉ listed) (configured w0 model name) in
      if name =? "relations" then kept ≫= operation_names "prototype.__" RELATION_METHODS
      else if name =? "scopes" then kept ≫= operation_names "__" SCOPE_METHODS
      else [].
Proof.
  intros Hext Hname HW H Hgiven.
  destruct Hgiven as [Hf|(lw & -> & Hk)].
  - rewrite Hf in HW |- *. destruct HW as (lf & -> & Hkf & Hef).
    apply (getSettings_array _ _ _ _ _ _ Hkf) in H as [_ ->].
    exists []. split; [done|]. by rewrite Hef, (extended_configured _ _ _ _ _ Hext).
  - simpl in HW |- *. subst W.
    apply (getSettings_array _ _ _ _ _ _ (extended_kind_at _ _ _ _ _ Hext Hk)) in H
      as [_ ->].
    exists (elems_at w0 lw). split; [eauto|].
    by rewrite (extended_elems_at _ _ _ _ _ Hext Hk),
      (extended_configured _ _ _ _ _ Hext).
Qed.

(** ** What [loadController] does *)

Lemma frame_heap K w1 w2 w1' w2' :
  heap w1' = heap w1 → heap w2' = heap w2 → calls w2' = calls w1' →
  frame K w1 w2 → frame K w1' w2'.
Proof.
  destruct w1, w2, w1', w2'. cbn [heap calls]. intros -> -> -> [? ? ? ? ?].
  by split.
Qed.

Lemma frame_stores K w w' : frame K w w' → stores K w w'.
Proof. by apply frame_heap. Qed.

Lemma stores_heap K w w' : heap w' = heap w → stores K w w'.
Proof. intros Hh. by apply (frame_heap K w w), frame_refl. Qed.

Lemma stores_trans K w1 w2 w3 : stores K w1 w2 → stores K w2 w3 → stores K w1 w3.
Proof.
  unfold stores. intros H12 H23. eapply frame_trans; [|exact H23].
  by eapply frame_heap; [..|exact H12].
Qed.

Lemma stores_mono K K' w w' : K ⊆ K' → stores K w w' → stores K' w w'.
Proof. apply frame_mono. Qed.

Lemma stores_valid K w w' l : stores K w w' → valid w l → valid w' l.
Proof. intros H. exact (frame_valid _ _ _ _ H). Qed.

Lemma stores_own K w w' l k :
  stores K w w' → valid w l → k ∉ K → own_at w' l k = own_at w l k.
Proof. intros H. exact (frame_own _ _ _ H l k). Qed.

Lemma stores_kind K w w' l : stores K w w' → valid w l → kind_at w' l = kind_at w l.
Proof. intros H. exact (frame_kind _ _ _ H l). Qed.

Lemma stores_elems K w w' l : stores K w w' → valid w l → elems_at w' l = elems_at w l.
Proof. intros H. exact (frame_elems _ _ _ H l). Qed.

Lemma framework_Ret model c w u w' :
  framework model c w = Ret (u, w') →
  ∃ l, model = VRef l ∧ valid w l ∧ heap w' = heap w ∧ calls w' = calls w ++ [c].
Proof.
  destruct model as [| | | | |l]; try done. simpl. intros H.
  run_step H o w1 Ho. apply deref_Ret in Ho as [-> Ho].
  unfold emit in H. injection H as <- <-. exists l. split_and!; try done.
  apply valid_lookup. eauto.
Qed.

(** A loop of framework calls: one call per element, in order, and
    nothing else. *)
Lemma for_each_framework_Ret {A} model (f : A → call) xs w u w' :
  for_each (λ x, framework model (f x)) xs w = Ret (u, w') →
  heap w' = heap w ∧ calls w' = calls w ++ (f <$> xs).
Proof.
  revert w. induction xs as [|x xs IH]; intros w H; simpl in H.
  - apply mret_Ret in H as [_ ->]. by rewrite app_nil_r.
  - run_step H u1 w1 H1. apply IH in H as [-> ->].
    apply framework_Ret in H1 as (l & _ & _ & -> & ->).
    split; [done|]. cbn [fmap list_fmap]. by rewrite <- app_assoc.
Qed.

Lemma not_reserved n :
  n ∉ reserved → n ≠ "prototype" ∧ n ≠ "settings" ∧ n ≠ "acls".
Proof.
  unfold reserved. intros H. split_and!; intros ->; apply H; repeat constructor.
Qed.

(** One round of the loop: the calls made, the handler assigned, what the
    store keeps, and the model's ACL list. *)
Lemma load_one_Ret lm def w u w' :
  load_one (VRef lm) def w = Ret (u, w') →
  valid w lm ∧
  calls w' = calls w ++ registrations (VRef lm) def ∧
  stores [name def; "acls"] w w' ∧
  (name def ≠ "acls" →
   ∃ lt, (if truthy (isStatic def) then lt = lm
          else own_at w lm "prototype" = VRef lt) ∧
         valid w lt ∧ own_at w' lt (name def) = handler def) ∧
  (acls def = [] →
   stores [name def] w w' ∧ length (heap w') = length (heap w)) ∧
  (acls def ≠ [] → name def ∉ reserved →
   ∃ ls la, own_at w lm "settings" = VRef ls ∧ valid w ls ∧
     own_at w' ls "acls" = VRef la ∧ ¬ valid w la ∧ valid w' la ∧
     kind_at w' la = Some KArray ∧
     elems_at w' la = elems_of w (own_at w ls "acls") ++ acls def ∧
     (∀ lo, own_at w ls "acls" = VRef lo → valid w lo)).
Proof.
  intros H. unfold load_one in H.
  run_step H u1 w1 H1.
  apply framework_Ret in H1 as (? & [= <-] & Hlm & Hh1 & Hc1).
  run_step H u2 w2 H2.
  assert (∃ lt, (if truthy (isStatic def) then lt = lm
                 else own_at w lm "prototype" = VRef lt) ∧
                valid w lt ∧ frame [name def] w1 w2 ∧
                own_at w2 lt (name def) = handler def ∧
                length (heap w2) = length (heap w1))
    as (lt & Hlt & Hvt & H12 & Hhandler & Hlen12).
  { destruct (truthy (isStatic def)).
    - apply set_Ret in H2 as (l & [= <-] & Hv & Hf & Hown & Hlen & _).
      exists lm. by split_and!.
    - run_step H2 p wp Hp. apply get_prop_of in Hp as [-> ->].
      apply set_Ret in H2 as (l & Hp & Hv & Hf & Hown & Hlen & _).
      exists l. simpl in Hp. unfold own_at in Hp |- *. rewrite Hh1 in Hp.
      split_and!; try done. unfold valid in *. by rewrite <- Hh1. }
  clear H2. run_step H u3 w3 H3.
  apply for_each_framework_Ret in H as [Hh3 Hc3].
  assert (H23 : frame ["acls"] w2 w3).
  { revert H3. generalize w2 u3 w3. change (writes ["acls"]
      (match acls def with
       | [] => mret tt
       | _ :: _ =>
           settings ← get (VRef lm) "settings";
           current ← get settings "acls";
           (if truthy current then mret tt
            else a ← alloc (Obj KArray [] []);
                 settings0 ← get (VRef lm) "settings";
                 set settings0 "acls" a);;
           settings0 ← get (VRef lm) "settings";
           settings' ← get (VRef lm) "settings";
           current0 ← get settings' "acls";
           merged ← concat_method current0 (acls def);
           a ← alloc (Obj KArray merged []);
           set settings0 "acls" a
       end)).
    destruct (acls def); [apply pure_writes, pure_mret|].
    solve_writes. }
  assert (Hstores : stores [name def; "acls"] w w').
  { apply (frame_heap _ w1 w3); [done..|].
    eapply frame_trans; (eapply frame_mono; [|eassumption]).
    - intros ? ->%list_elem_of_singleton. by left.
    - intros ? ->%list_elem_of_singleton. right. by left. }
  split; [done|]. split.
  { rewrite Hc3. pose proof (frame_calls _ _ _ H23) as ->.
    pose proof (frame_calls _ _ _ H12) as ->. rewrite Hc1.
    unfold registrations. by rewrite <- app_assoc. }
  split; [done|]. split.
  { intros Hname. exists lt. split_and!; try done.
    unfold own_at in *. rewrite Hh3.
    change (own_at w3 lt (name def) = handler def).
    rewrite (frame_own _ _ _ H23), <- Hhandler; [done| |].
    - eapply frame_valid; [exact H12|]. unfold valid in *. by rewrite Hh1.
    - by intros ?%list_elem_of_singleton. }
  split.
  { intros E. rewrite E in H3. apply mret_Ret in H3 as [_ ->]. split.
    - by apply (frame_heap _ w1 w2).
    - by rewrite Hh3, Hlen12, Hh1. }
  intros Hne (Hn1 & Hn2 & Hn3)%not_reserved.
  destruct (acls def) as [|acl0 rest] eqn:E; [done|]. rewrite <- E in *. clear Hne.
  assert (Hw2 : ∀ l k, valid w l → k ≠ name def → own_at w2 l k = own_at w l k).
  { intros l k Hl Hk. rewrite (frame_own _ _ _ H12); [by unfold own_at; rewrite Hh1| |].
    - unfold valid in *. by rewrite Hh1.
    - by intros ?%list_elem_of_singleton. }
  assert (Hv2 : ∀ l, valid w2 l ↔ valid w l).
  { intros l. unfold valid. by rewrite Hlen12, Hh1. }
  rewrite E in H3. rewrite <- E in H3.
  run_step H3 settings wa Hs. apply get_Ret in Hs as [-> [Hlm2 ->]].
  rewrite (Hw2 lm "settings") in H3 by done.
  run_step H3 current wa Hcur. pose proof Hcur as Hcur'.
  apply get_prop_of in Hcur' as [-> ->].
  run_step H3 ui wi Hinit.
  assert (H2i : frame ["acls"] w2 wi).
  { match type of Hinit with
    | ?m _ = _ => assert (Hwr : writes ["acls"] m) by solve_writes
    end.
    exact (Hwr _ _ _ Hinit). }
  assert (Hsi : own_at wi lm "settings" = own_at w lm "settings").
  { rewrite (frame_own _ _ _ H2i), Hw2; [done..| ]. by intros ?%list_elem_of_singleton. }
  run_step H3 settings0 wb Hs0. apply get_Ret in Hs0 as [-> [_ ->]].
  run_step H3 settings' wb Hs1. apply get_Ret in Hs1 as [-> [_ ->]].
  rewrite Hsi in H3.
  run_step H3 current0 wb Hcur0. apply get_prop_of in Hcur0 as [-> ->].
  run_step H3 merged wb Hm. apply concat_method_Ret in Hm as [-> (lb & Hlb & Hkb & ->)].
  run_step H3 a wc Ha.
  apply alloc_Ret in Ha as (-> & Hic & Hnew & Hlenc).
  apply set_Ret in H3 as (ls' & Hls' & Hvc & Hc3' & Hown3 & Hlen3 & Hother).
  rewrite Hls' in *. simpl in Hlb. change (prop_of w2 (VRef ls') "acls") with (own_at w2 ls' "acls") in Hinit.
  apply get_Ret in Hcur as [_ [Hls2 _]].
  assert (Hls : valid w ls') by by apply Hv2.
  exists ls', (length (heap wi)).
  pose proof (frame_length _ _ _ H2i) as Hlen2i.
  assert (Hold : elems_at wi lb = elems_of w (own_at w ls' "acls") ∧
                 ∀ lo, own_at w ls' "acls" = VRef lo → valid w lo).
  { rewrite <- (Hw2 ls' "acls") by done.
    destruct (truthy (own_at w2 ls' "acls")) eqn:Ht.
    - apply mret_Ret in Hinit as [_ ->]. rewrite Hlb. simpl.
      assert (Hvb : valid w lb).
      { apply Hv2. unfold kind_at in Hkb. apply valid_lookup.
        destruct (heap w2 !! lb); [eauto | done]. }
      split; [|by intros lo [= <-]].
      rewrite (frame_elems _ _ _ H12) by (unfold valid in *; by rewrite Hh1).
      unfold elems_at. by rewrite Hh1.
    - run_step Hinit a0 wx Ha0. pose proof (alloc_lookup _ _ _ _ lm Ha0) as Hlookm.
      apply alloc_Ret in Ha0 as (-> & H2x & Hnewx & Hlenx).
      run_step Hinit s1 wy Hs1. apply get_Ret in Hs1 as [-> [_ ->]].
      assert (own_at wx lm "settings" = VRef ls') as Hsx.
      { rewrite (frame_own _ _ _ H2x), Hw2; [done..|]. by intros ?%elem_of_nil. }
      rewrite Hsx in Hinit.
      apply set_Ret in Hinit as (l1 & [= <-] & Hvx & Hxi & Howni & Hleni & _).
      rewrite Howni in Hlb. injection Hlb as <-.
      rewrite (frame_elems _ _ _ Hxi) by (unfold valid; lia).
      unfold elems_at at 1. rewrite Hnewx. simpl.
      destruct (own_at w2 ls' "acls"); done. }
  destruct Hold as [Hold Hvalid].
  split_and!; try done.
  - unfold own_at. rewrite Hh3. exact Hown3.
  - unfold valid. rewrite <- (Hv2 (length (heap wi))). unfold valid. lia.
  - unfold valid. rewrite Hh3, Hlen3, Hlenc. lia.
  - unfold kind_at. rewrite Hh3.
    change (kind_at w3 (length (heap wi)) = Some KArray).
    rewrite (frame_kind _ _ _ Hc3') by (unfold valid; lia).
    unfold kind_at. by rewrite Hnew.
  - unfold elems_at at 1. rewrite Hh3.
    change (elems_at w3 (length (heap wi)) = elems_of w (own_at w ls' "acls") ++ acls def).
    rewrite (frame_elems _ _ _ Hc3') by (unfold valid; lia).
    unfold elems_at at 1. rewrite Hnew. simpl. by rewrite Hold.
Qed.

Lemma load_one_model model def w u w' :
  load_one model def w = Ret (u, w') → ∃ lm, model = VRef lm.
Proof.
  unfold load_one. intros H. run_step H u1 w1 H1.
  apply framework_Ret in H1 as (l & -> & _). eauto.
Qed.

Lemma loadController_calls model controllers w u w' :
  loadController model controllers w = Ret (u, w') →
  calls w' = calls w ++ (controllers ≫= registrations model).
Proof.
  unfold loadController. revert w.
  induction controllers as [|def cs IH]; intros w H; simpl in H.
  - apply mret_Ret in H as [_ ->]. by rewrite app_nil_r.
  - run_step H u1 w1 H1. destruct (load_one_model _ _ _ _ _ H1) as [lm ->].
    apply load_one_Ret in H1 as (_ & Hc & _). apply IH in H.
    rewrite H, Hc. cbn [mbind list_bind]. by rewrite <- app_assoc.
Qed.

Lemma loadController_stores lm controllers w u w' :
  loadController (VRef lm) controllers w = Ret (u, w') →
  stores ((name <$> controllers) ++ ["acls"]) w w'.
Proof.
  unfold loadController. revert w.
  induction controllers as [|def cs IH]; intros w H; simpl in H.
  - apply mret_Ret in H as [_ ->]. by apply stores_heap.
  - run_step H u1 w1 H1. apply load_one_Ret in H1 as (_ & _ & Hs & _).
    apply IH in H. eapply stores_trans; (eapply stores_mono; [|eassumption]).
    + intros k [->|[->|[]%elem_of_nil]%elem_of_cons]%elem_of_cons.
      * cbn [fmap list_fmap]. by left.
      * apply elem_of_app. right. by left.
    + intros k Hk. cbn [fmap list_fmap]. by right.
Qed.

Lemma loadController_handlers lm controllers w u w' def :
  loadController (VRef lm) controllers w = Ret (u, w') →
  NoDup (name <$> controllers) →
  Forall (λ d, name d ∉ reserved) controllers →
  def ∈ controllers →
  prop_of w' (if truthy (isStatic def) then VRef lm else own_at w lm "prototype")
    (name def) = handler def.
Proof.
  unfold loadController. revert w.
  induction controllers as [|d cs IH]; intros w H Hnd Hres Hdef.
  { by apply elem_of_nil in Hdef. }
  simpl in H. run_step H u1 w1 H1.
  apply load_one_Ret in H1 as (Hlm & _ & Hs1 & Hh & _).
  apply NoDup_cons in Hnd as [Hfresh Hnd].
  apply Forall_cons in Hres as [(Hn1 & Hn2 & Hn3)%not_reserved Hres].
  apply elem_of_cons in Hdef as [->|Hdef].
  - destruct (Hh Hn3) as (lt & Hlt & Hvt & Hown).
    pose proof (loadController_stores _ _ _ _ _ H) as Hs.
    assert (own_at w' lt (name d) = handler d) as Hgoal.
    { rewrite (stores_own _ _ _ _ _ Hs); [done| |].
      - eapply stores_valid; [exact Hs1 | done].
      - intros [?|[?|[]%elem_of_nil]%elem_of_cons]%elem_of_app; done. }
    destruct (truthy (isStatic d)); [by subst lt | by rewrite Hlt].
  - rewrite <- (stores_own _ _ _ lm "prototype" Hs1); [by apply IH|done|].
    intros [?|[?|[]%elem_of_nil]%elem_of_cons]%elem_of_cons; done.
Qed.

Lemma loadController_acls lm ls controllers w u w' :
  loadController (VRef lm) controllers w = Ret (u, w') →
  Forall (λ d, name d ∉ reserved) controllers →
  own_at w lm "settings" = VRef ls → valid w lm → valid w ls →
  (∀ lo, own_at w ls "acls" = VRef lo → valid w lo) →
  own_at w' lm "settings" = VRef ls ∧
  (controllers ≫= acls = [] → own_at w' ls "acls" = own_at w ls "acls") ∧
  (controllers ≫= acls ≠ [] →
   ∃ la, own_at w' ls "acls" = VRef la ∧ ¬ valid w la ∧
         kind_at w' la = Some KArray ∧
         elems_at w' la = elems_of w (own_at w ls "acls") ++ (controllers ≫= acls)).
Proof.
  unfold loadController. revert w.
  induction controllers as [|d cs IH]; intros w H Hres Hsettings Hlm Hls Hold.
  { simpl in H. apply mret_Ret in H as [_ ->]. by split_and!. }
  simpl in H. run_step H u1 w1 H1.
  pose proof (loadController_stores _ _ _ _ _ H) as Hs.
  apply load_one_Ret in H1 as (_ & _ & Hs1 & _ & Hlen & Hacls).
  apply Forall_cons in Hres as [Hd Hres].
  pose proof (not_reserved _ Hd) as (Hn1 & Hn2 & Hn3).
  assert (Hsettings1 : own_at w1 lm "settings" = VRef ls).
  { rewrite (stores_own _ _ _ _ _ Hs1); [done..|].
    intros [?|[?|[]%elem_of_nil]%elem_of_cons]%elem_of_cons; done. }
  assert (Hlm1 : valid w1 lm) by (by eapply stores_valid).
  assert (Hls1 : valid w1 ls) by (by eapply stores_valid).
  cbn [mbind list_bind].
  destruct (acls d) as [|acl0 rest] eqn:E.
  - clear Hacls. destruct (Hlen eq_refl) as [Hsd Hlen1].
    assert (Hacls1 : own_at w1 ls "acls" = own_at w ls "acls").
    { rewrite (stores_own _ _ _ _ _ Hsd); [done..|].
      by intros ?%list_elem_of_singleton. }
    destruct (IH w1 H Hres Hsettings1 Hlm1 Hls1) as (IH1 & IH2 & IH3).
    { intros lo Hlo. rewrite Hacls1 in Hlo. eapply stores_valid; eauto. }
    rewrite app_nil_l. split; [done|]. split.
    + intros Hnil. by rewrite IH2.
    + intros Hne. destruct (IH3 Hne) as (la & Hla & Hfresh & Hk & He).
      exists la. split_and!; try done.
      * unfold valid in *. lia.
      * rewrite He, Hacls1. f_equal. destruct (own_at w ls "acls") as [| | | | |lo] eqn:Eo; try done.
        simpl. apply (stores_elems _ _ _ _ Hs1). by apply Hold.
  - rewrite <- E in *. assert (Hne : acls d ≠ []) by (by rewrite E).
    destruct (Hacls Hne Hd) as (ls' & la & Hs' & _ & Hla & Hfresh & Hvla & Hk & He & _).
    rewrite Hsettings in Hs'. injection Hs' as <-.
    destruct (IH w1 H Hres Hsettings1 Hlm1 Hls1) as (IH1 & IH2 & IH3).
    { intros lo Hlo. rewrite Hla in Hlo. by injection Hlo as <-. }
    split; [done|]. split.
    { intros Hnil. apply app_eq_nil in Hnil as [? _]. done. }
    intros _. destruct (decide (cs ≫= acls = [])) as [Hnil|Hcons].
    + exists la. rewrite IH2, Hnil, app_nil_r by done. split_and!; try done.
      * by rewrite (stores_kind _ _ _ _ Hs).
      * by rewrite (stores_elems _ _ _ _ Hs).
    + destruct (IH3 Hcons) as (la' & Hla' & Hfresh' & Hk' & He').
      exists la'. split_and!; try done.
      * intros Hv. apply Hfresh'. by eapply stores_valid.
      * rewrite He', Hla. simpl. by rewrite He, <- app_assoc.
Qed.

(** ** The steps of [Controller] *)

Lemma writes_mono {A} K K' (m : M A) : K ⊆ K' → writes K m → writes K' m.
Proof. intros HK Hm w a w' H. eapply frame_mono; [exact HK | by eapply Hm]. Qed.

Lemma writes_prepare_all controllers keys :
  writes ("name" :: prepare_keys) (prepare_all controllers keys).
Proof.
  induction keys as [|key keys IH]; simpl.
  - apply pure_writes, pure_mret.
  - apply writes_bind; [apply pure_writes, pure_get | intros controller].
    apply writes_bind; [apply writes_set; by left | intros _].
    apply writes_bind; [|intros c].
    { eapply writes_mono; [|apply writes_prepare]. intros k Hk. by right. }
    apply writes_bind; [exact IH | intros cs]. apply pure_writes, pure_mret.
Qed.

(** The [map] over the keys gives one descriptor per key, named after the
    key whatever name the definition had. *)
Lemma prepare_all_names controllers keys w cs w' :
  prepare_all controllers keys w = Ret (cs, w') → Forall2 named_after keys cs.
Proof.
  revert w cs w'. induction keys as [|key keys IH]; intros w cs w' H; simpl in H.
  - apply mret_Ret in H as [-> _]. constructor.
  - run_step H defn w1 Hc. run_step H u2 w2 Hset.
    run_step H c w3 Hp. run_step H cs' w4 Hcs. apply mret_Ret in H as [-> _].
    constructor; [|exact (IH _ _ _ Hcs)].
    apply set_Ret in Hset as (l & -> & _ & _ & Hname & _).
    apply prepare_name_isStatic in Hp as (_ & _ & _ & n & Hn & Hc').
    rewrite Hname in Hn. injection Hn as <-. exact Hc'.
Qed.

Lemma named_after_not_reserved key c : named_after key c → name c ∉ reserved.
Proof.
  unfold named_after, reserved. intros ->.
  destruct (truthy (isStatic c)); simpl; intros H;
    repeat (apply elem_of_cons in H as [H|H]; [discriminate|]);
    by apply elem_of_nil in H.
Qed.

Lemma named_after_inj key key' c c' :
  named_after key c → named_after key' c' → name c = name c' → key = key'.
Proof.
  unfold named_after. intros -> ->.
  destruct (truthy (isStatic c)), (truthy (isStatic c')); simpl; intros H;
    by simplify_eq.
Qed.

Lemma meta_read w options meta w1 k :
  or_else (prop_of w options "_meta") (alloc (Obj KObject [] [])) w = Ret (meta, w1) →
  prop_of w1 meta k = meta_of w options k.
Proof.
  unfold or_else, meta_of. cbv zeta. destruct (truthy (prop_of w options "_meta")).
  - by intros [-> ->]%mret_Ret.
  - intros (-> & _ & Hnew & _)%alloc_Ret. simpl. unfold own_at. by rewrite Hnew.
Qed.

(** A run of [Controller] on an exposed model, step by step. *)
Lemma Controller_Ret kebabCase path_resolve require Model options w u w' :
  (∀ v, pure (kebabCase v)) →
  truthy (prop_of w Model "sharedClass") = true →
  Controller kebabCase path_resolve require Model options w = Ret (u, w') →
  ∃ fileName filePath lc w0 w1 w2 controllers names,
    (if truthy (meta_of w options "fileName")
     then fileName = meta_of w options "fileName"
     else ∃ s wk, kebabCase (prop_of w Model "modelName") wk = Ret (s, wk) ∧
                  fileName = VStr s) ∧
    (if truthy (meta_of w options "filePath")
     then filePath = meta_of w options "filePath"
     else ∃ s, text fileName = Some s ∧
               filePath = VStr (path_resolve CONTROLLER_DEFAULT_DIR (s +:+ ".js"))) ∧
    frame [] w w0 ∧ ¬ valid w lc ∧
    heap w0 !! lc = Some (Obj KArray [] []) ∧
    require filePath Model (VRef lc) w0 = Ret (tt, w1) ∧
    prepare_all (VRef lc) (keys_at w1 (VRef lc)) w1 = Ret (controllers, w2) ∧
    calls w' = calls w1 ++ (controllers ≫= registrations Model)
                 ++ (DisableRemoteMethodByName Model <$> names).
Proof.
  intros Hkebab Hshared H. unfold Controller in H.
  destruct Model as [| | | | |lM]; try done. cbn [truthy] in H.
  run_step H shared ws Hs. apply get_Ret in Hs as [-> [HvM ->]].
  simpl in Hshared. rewrite Hshared in H.
  run_step H meta0 wx Hm0. apply get_prop_of in Hm0 as [-> ->].
  run_step H meta wm Hmeta.
  pose proof (meta_read _ _ _ _ "fileName" Hmeta) as HfileName.
  pose proof (meta_read _ _ _ _ "filePath" Hmeta) as HfilePath.
  assert (Hwm : frame [] w wm) by (revert Hmeta; apply writes_or_else, writes_alloc).
  run_step H fileName0 wx Hf0. apply get_prop_of in Hf0 as [-> ->].
  rewrite HfileName in H.
  run_step H fileName wx Hfile.
  assert (wx = wm ∧
          if truthy (meta_of w options "fileName")
          then fileName = meta_of w options "fileName"
          else ∃ s wk, kebabCase (prop_of w (VRef lM) "modelName") wk = Ret (s, wk) ∧
                       fileName = VStr s) as [-> HfileName'].
  { unfold or_else in Hfile. destruct (truthy (meta_of w options "fileName")).
    - by apply mret_Ret in Hfile as [-> ->].
    - run_step Hfile modelName wy Hmn. apply get_Ret in Hmn as [-> [_ ->]].
      run_step Hfile s wy Hk. pose proof (Hkebab _ _ _ _ Hk) as ->.
      apply mret_Ret in Hfile as [-> ->]. split; [done|].
      exists s, wm. split; [|done]. simpl.
      by rewrite <- (frame_own _ _ _ Hwm lM "modelName");
        [|done|intros ?%elem_of_nil]. }
  run_step H filePath0 wx Hp0. apply get_prop_of in Hp0 as [-> ->].
  rewrite HfilePath in H.
  run_step H filePath wx Hpath.
  assert (wx = wm ∧
          if truthy (meta_of w options "filePath")
          then filePath = meta_of w options "filePath"
          else ∃ s, text fileName = Some s ∧
                    filePath = VStr (path_resolve CONTROLLER_DEFAULT_DIR (s +:+ ".js")))
    as [-> HfilePath'].
  { unfold or_else in Hpath. destruct (truthy (meta_of w options "filePath")).
    - by apply mret_Ret in Hpath as [-> ->].
    - run_step Hpath s wy Hs. apply to_string_Ret in Hs as [-> Hs].
      apply mret_Ret in Hpath as [-> ->]. eauto. }
  run_step H cs0 w0 Halloc. apply alloc_Ret in Halloc as (-> & Hm0 & Hnew & Hlen0).
  run_step H u1 w1 Hreq. destruct u1.
  run_step H keys wx Hkeys. apply Object_keys_Ret in Hkeys as [-> ->].
  run_step H controllers w2 Hprep.
  run_step H u3 w3 Hload. apply loadController_calls in Hload.
  run_step H bl0 wx Hbl0. apply get_prop_of in Hbl0 as [-> ->].
  run_step H bl w4 Hbl.
  assert (H34 : frame [] w3 w4) by (revert Hbl; apply writes_or_else, writes_alloc).
  run_step H wl0 wx Hwl0. apply get_prop_of in Hwl0 as [-> ->].
  run_step H wl w5 Hwl.
  assert (H45 : frame [] w4 w5) by (revert Hwl; apply writes_or_else, writes_alloc).
  apply hideEndpoints_calls in H as (lb & base & rs & ss & _ & _ & _ & Hcalls).
  pose proof (writes_prepare_all _ _ _ _ _ Hprep) as H12.
  exists fileName, filePath, (length (heap wm)), w0, w1, w2, controllers.
  eexists. split_and!; try done.
  - by eapply frame_trans.
  - pose proof (frame_length _ _ _ Hwm). unfold valid. lia.
  - rewrite Hcalls, (frame_calls _ _ _ H45), (frame_calls _ _ _ H34), Hload,
      (frame_calls _ _ _ H12). by rewrite <- app_assoc.
Qed.

(** ** Runs of [hideEndpoints] that return *)

Lemma assoc_Some k ps v : assoc k ps = Some v → ∃ k', (k', v) ∈ ps.
Proof.
  induction ps as [|[k0 v0] ps IH]; simpl; [done|].
  destruct (k0 =? k).
  - intros [= ->]. exists k0. by left.
  - intros (k' & ?)%IH. exists k'. by right.
Qed.

Lemma closed_own_at w l k l' : closed w → own_at w l k = VRef l' → valid w l'.
Proof.
  unfold closed, own_at. rewrite Forall_lookup. intros Hc Hown.
  destruct (heap w !! l) as [o|] eqn:Ho; [|done].
  destruct (Hc l o Ho) as [He Hp]. simpl in Hown.
  assert (Hprops : default VUndefined (assoc k (props o)) = VRef l' → valid w l').
  { destruct (assoc k (props o)) as [v|] eqn:Hk; [|done]. simpl. intros ->.
    apply assoc_Some in Hk as [k' Hk]. rewrite Forall_forall in Hp.
    exact (Hp _ Hk). }
  unfold own in Hown. destruct (okind o); try by apply Hprops.
  destruct (k =? "length"); [done|].
  destruct (array_index k) as [i|]; [|by apply Hprops].
  destruct (elems o !! i) as [v|] eqn:Hi; [|done]. simpl in Hown. subst v.
  rewrite Forall_lookup in He. exact (He _ _ Hi).
Qed.

Lemma closed_extended n w w' : extended n w w' → closed w → closed w'.
Proof.
  intros (new & Hh & Hall & _) Hc. unfold closed in *. rewrite Hh.
  assert (Hv : ∀ v, points_in w v → points_in w' v).
  { intros [| | | | |l]; simpl; try done. unfold valid. rewrite Hh, length_app. lia. }
  apply Forall_app. split.
  - eapply Forall_impl; [exact Hc|]. intros o [He Hp]. split.
    + eapply Forall_impl; [exact He | done].
    + eapply Forall_impl; [exact Hp|]. intros p. apply Hv.
  - eapply Forall_impl; [exact Hall|]. intros o ->. by split; constructor.
Qed.

Lemma returns_modelMethods filter w :
  (∀ l, filter = VRef l → valid w l) → returns (modelMethods filter) w.
Proof.
  intros Hf. unfold modelMethods. apply returns_bind.
  - destruct (truthy filter); [|apply returns_mret].
    destruct filter as [| | | | |l]; try apply returns_mret.
    destruct (proj1 (valid_lookup _ _) (Hf l eq_refl)) as [o Ho].
    eexists _, _. simpl. unfold mbind, M_bind, deref. by rewrite Ho.
  - intros [[|x xs]|] w1 _; apply returns_mret.
Qed.

Lemma concat_method_array l ys w :
  kind_at w l = Some KArray →
  concat_method (VRef l) ys w = Ret (elems_at w l ++ ys, w).
Proof.
  unfold kind_at, elems_at. simpl. unfold mbind, M_bind, deref.
  destruct (heap w !! l) as [o|]; [|done]. simpl. by intros [= ->].
Qed.

Lemma returns_Object_keys v w :
  truthy v = true → (∀ l, v = VRef l → valid w l) → returns (Object_keys v) w.
Proof.
  intros Ht Hv. destruct v as [| | | | |l]; try done; try apply returns_mret.
  destruct (proj1 (valid_lookup _ _) (Hv l eq_refl)) as [o Ho].
  eexists _, _. simpl. unfold mbind, M_bind, deref. by rewrite Ho.
Qed.

Lemma returns_getSettings lm ld ls name lW w :
  closed w → valid w lm →
  own_at w lm "definition" = VRef ld → own_at w ld "settings" = VRef ls →
  kind_at w lW = Some KArray →
  returns (getSettings (VRef lm) name (VRef lW)) w.
Proof.
  intros Hc Hlm Hd Hs HW. unfold getSettings.
  assert (Hld : valid w ld) by (by eapply closed_own_at).
  assert (Hls : valid w ls) by (by eapply closed_own_at).
  apply returns_bind; [by apply returns_get | intros d w1 [-> [_ ->]]%get_Ret].
  rewrite Hd.
  apply returns_bind; [by apply returns_get | intros s w1 [-> [_ ->]]%get_Ret].
  rewrite Hs.
  apply returns_bind; [by apply returns_get | intros setting w1 [-> [_ ->]]%get_Ret].
  apply returns_bind.
  { destruct (truthy (own_at w ls name)) eqn:Ht; [|apply returns_mret].
    apply returns_Object_keys; [done|]. intros l Hl. by eapply closed_own_at. }
  intros keys w1 Hkeys.
  assert (w1 = w) as ->.
  { destruct (truthy (own_at w ls name)).
    - by apply pure_Object_keys in Hkeys.
    - by apply mret_Ret in Hkeys as [_ ->]. }
  apply returns_bind; [by apply returns_get | intros live w1 [-> [_ ->]]%get_Ret].
  apply returns_bind.
  { destruct (truthy (own_at w lm name)) eqn:Ht; [|apply returns_mret].
    apply returns_bind; [|intros; apply returns_mret].
    apply returns_Object_keys; [done|]. intros l Hl. by eapply closed_own_at. }
  intros keys' w1 Hkeys'.
  assert (w1 = w) as ->.
  { destruct (truthy (own_at w lm name)).
    - run_step Hkeys' ks wk Hks. apply pure_Object_keys in Hks as ->.
      by apply mret_Ret in Hkeys' as [_ ->].
    - by apply mret_Ret in Hkeys' as [_ ->]. }
  assert (∃ o, heap w !! lW = Some o ∧ okind o = KArray) as (o & Ho & Hko).
  { unfold kind_at in HW. destruct (heap w !! lW) as [o|]; [|done].
    exists o. by injection HW as ->. }
  destruct (name =? "relations"); [|destruct (name =? "scopes")].
  - eexists _, _. by apply reduce_keys_array.
  - eexists _, _. by apply reduce_keys_array.
  - apply returns_mret.
Qed.

Lemma returns_for_each_framework {A} l (f : A → call) xs w :
  valid w l → returns (for_each (λ x, framework (VRef l) (f x)) xs) w.
Proof.
  revert w. induction xs as [|x xs IH]; intros w Hl; cbn [for_each].
  - apply returns_mret.
  - apply returns_bind.
    + destruct (proj1 (valid_lookup _ _) Hl) as [o Ho].
      eexists _, _. simpl. unfold mbind, M_bind, deref. by rewrite Ho.
    + intros u w1 (? & _ & _ & Hh & _)%framework_Ret. apply IH.
      unfold valid in *. by rewrite Hh.
Qed.

(** The whitelist of [getSettings] in [hideEndpoints] is an array: the
    one given, or the empty default. *)
Lemma whitelist_array n w0 w given W :
  extended n w0 w →
  truthy given = false ∨ (∃ la, given = VRef la ∧ kind_at w0 la = Some KArray) →
  (if truthy given then W = given
   else ∃ lf, W = VRef lf ∧ kind_at w lf = Some KArray ∧ elems_at w lf = []) →
  ∃ lW, W = VRef lW ∧ kind_at w lW = Some KArray.
Proof.
  intros Hext [Hf|(la & -> & Hk)] HW.
  - rewrite Hf in HW. destruct HW as (lf & -> & ? & _). eauto.
  - simpl in HW. subst W. exists la. split; [done|]. by eapply extended_kind_at.
Qed.

Lemma hideEndpoints_returns lm lb lw w :
  hideable w lm lb lw →
  returns (hideEndpoints (VRef lm) (VRef lb) (VRef lw)) w.
Proof.
  intros [Hc Hlm (ld & ls & Hd & Hs) Hlb Hlw Hrel Hsc]. unfold hideEndpoints.
  apply returns_bind; [by apply returns_get | intros filter w1 [-> [_ ->]]%get_Ret].
  apply returns_bind.
  { apply returns_modelMethods. intros l Hl. by eapply closed_own_at. }
  intros base w1 ->%pure_modelMethods.
  apply returns_bind; [eexists _, _; by apply concat_method_array|].
  intros bl w1 [-> _]%concat_method_Ret.
  apply returns_bind; [by apply returns_get | intros rel w1 [-> [_ ->]]%get_Ret].
  apply returns_bind; [apply returns_or_else, returns_alloc|].
  intros Wr wr (Hwr & _ & HWr)%or_else_array_Ret.
  destruct (whitelist_array _ _ _ _ _ Hwr Hrel HWr) as (lWr & -> & HkWr).
  pose proof (closed_extended _ _ _ Hwr Hc) as Hcr.
  assert (Hv : ∀ n w2 l, extended n w w2 → valid w l → valid w2 l).
  { intros n w2 l Hext [o Ho]%valid_lookup. apply valid_lookup.
    eauto using extended_lookup. }
  apply returns_bind.
  { apply (returns_getSettings lm ld ls); try done.
    - by eapply Hv.
    - by rewrite (extended_own_at _ _ _ _ _ Hwr).
    - by rewrite (extended_own_at _ _ _ _ _ Hwr). }
  intros rs w2 ->%pure_getSettings.
  apply returns_bind.
  { apply returns_get. by eapply Hv. }
  intros sc w2 [-> [_ ->]]%get_Ret.
  rewrite (extended_own_at _ _ _ _ _ Hwr) by done.
  apply returns_bind; [apply returns_or_else, returns_alloc|].
  intros Ws ws (Hws & _ & HWs)%or_else_array_Ret.
  pose proof (extended_trans _ _ _ _ _ Hwr Hws) as Hext.
  destruct (whitelist_array _ _ _ _ _ Hext Hsc HWs) as (lWs & -> & HkWs).
  apply returns_bind.
  { apply (returns_getSettings lm ld ls); try done.
    - by eapply closed_extended.
    - by eapply Hv.
    - by rewrite (extended_own_at _ _ _ _ _ Hext).
    - by rewrite (extended_own_at _ _ _ _ _ Hext). }
  intros ss w2 ->%pure_getSettings.
  apply returns_for_each_framework. by eapply Hv.
Qed.

(** ** Runs of [loadController] that return *)

Lemma returns_framework l c w : valid w l → returns (framework (VRef l) c) w.
Proof.
  intros [o Ho]%valid_lookup. eexists _, _. simpl.
  unfold mbind, M_bind, deref. by rewrite Ho.
Qed.

(** A name [prepare] gives is neither an index nor [length]: it can be
    assigned on any object. *)
Lemma named_after_named key c : named_after key c → named (name c) = true.
Proof.
  unfold named_after, named, is_index, array_index. intros ->.
  assert (He : ∀ s, NilZero.uint_of_string (String "e" s) = None).
  { intros s. simpl. by destruct (NilEmpty.uint_of_string s). }
  assert (Hp : ∀ s, NilZero.uint_of_string (String "p" s) = None).
  { intros s. simpl. by destruct (NilEmpty.uint_of_string s). }
  destruct (truthy (isStatic c)).
  - change ("endpoint:" +:+ key) with (String "e" ("ndpoint:" +:+ key)).
    by rewrite He.
  - change ("prototype.endpoint:" +:+ key)
      with (String "p" ("rototype.endpoint:" +:+ key)).
    by rewrite Hp.
Qed.

Lemma returns_load_one lm def w :
  loadable w lm [def] → returns (load_one (VRef lm) def) w.
Proof.
  intros [Hlm (lp & Hp & Hlp) (ls & Hs & Hls & Hacls) Hnames _].
  apply Forall_cons in Hnames as [(key & Hkey) _].
  pose proof (named_after_named _ _ Hkey) as Hnamed.
  pose proof (not_reserved _ (named_after_not_reserved _ _ Hkey)) as (Hn1 & Hn2 & Hn3).
  unfold load_one.
  apply returns_bind; [by apply returns_framework|].
  intros u1 w1 (? & _ & _ & Hh1 & _)%framework_Ret.
  assert (Hv1 : ∀ l, valid w l → valid w1 l).
  { intros l. unfold valid. by rewrite Hh1. }
  assert (Ho1 : ∀ l k, own_at w1 l k = own_at w l k).
  { intros l k. unfold own_at. by rewrite Hh1. }
  apply returns_bind.
  { destruct (truthy (isStatic def)).
    - apply returns_set; [by apply Hv1 | done].
    - apply returns_bind; [by apply returns_get, Hv1|].
      intros p w2 [-> [_ ->]]%get_Ret. rewrite Ho1, Hp.
      apply returns_set; [by apply Hv1 | done]. }
  intros u2 w2 H2.
  assert (H12 : frame [name def] w1 w2).
  { match type of H2 with
    | ?m _ = _ => assert (Hwr : writes [name def] m) by solve_writes
    end.
    exact (Hwr _ _ _ H2). }
  assert (Hv2 : ∀ l, valid w l → valid w2 l).
  { intros l Hl. eapply frame_valid; [exact H12 | by apply Hv1]. }
  assert (Ho2 : ∀ l k, valid w l → k ≠ name def → own_at w2 l k = own_at w l k).
  { intros l k Hl Hk. rewrite (frame_own _ _ _ H12), Ho1; [done|by apply Hv1|].
    by intros ?%list_elem_of_singleton. }
  assert (Hk2 : ∀ l, valid w l → kind_at w2 l = kind_at w l).
  { intros l Hl. rewrite (frame_kind _ _ _ H12) by (by apply Hv1).
    unfold kind_at. by rewrite Hh1. }
  apply returns_bind.
  - destruct (acls def) as [|acl0 rest] eqn:E; [apply returns_mret|].
    rewrite <- E. clear E acl0 rest.
    apply returns_bind; [by apply returns_get, Hv2|].
    intros settings wx [-> [_ ->]]%get_Ret. rewrite (Ho2 lm "settings"), Hs by done.
    apply returns_bind; [by apply returns_get, Hv2|].
    intros current wx [-> [_ ->]]%get_Ret. rewrite (Ho2 ls "acls") by done.
    apply returns_bind.
    { destruct (truthy (own_at w ls "acls")); [apply returns_mret|].
      apply returns_bind; [apply returns_alloc|].
      intros a wa (-> & Hfa & _)%alloc_Ret.
      apply returns_bind.
      { apply returns_get. eapply frame_valid; [exact Hfa | by apply Hv2]. }
      intros s wx [-> [Hlma ->]]%get_Ret.
      rewrite (frame_own _ _ _ Hfa), (Ho2 lm "settings"), Hs;
        [|done..|by apply Hv2|by intros ?%elem_of_nil].
      apply returns_set; [|done].
      eapply frame_valid; [exact Hfa | by apply Hv2]. }
    intros ui wi Hinit.
    assert (H2i : frame ["acls"] w2 wi).
    { match type of Hinit with
      | ?m _ = _ => assert (Hwr : writes ["acls"] m) by solve_writes
      end.
      exact (Hwr _ _ _ Hinit). }
    assert (Hsi : own_at wi lm "settings" = VRef ls).
    { rewrite (frame_own _ _ _ H2i), (Ho2 lm "settings"), Hs;
        [done..|by apply Hv2|by intros ?%list_elem_of_singleton]. }
    assert (Hvi : ∀ l, valid w l → valid wi l).
    { intros l Hl. eapply frame_valid; [exact H2i | by apply Hv2]. }
    assert (∃ lb, own_at wi ls "acls" = VRef lb ∧ kind_at wi lb = Some KArray)
      as (lb & Hlb & Hkb).
    { destruct (truthy (own_at w ls "acls")) eqn:Ht.
      - apply mret_Ret in Hinit as [_ ->].
        destruct Hacls as [?|(la & Hla & Hka)]; [congruence|].
        exists la. rewrite (Ho2 ls "acls") by done. split; [done|].
        rewrite Hk2; [done|]. unfold kind_at in Hka. apply valid_lookup.
        destruct (heap w !! la); [eauto | done].
      - run_step Hinit a0 wx Ha0.
        apply alloc_Ret in Ha0 as (-> & H2x & Hnewx & Hlenx).
        run_step Hinit s1 wy Hs1. apply get_Ret in Hs1 as [-> [_ ->]].
        rewrite (frame_own _ _ _ H2x), (Ho2 lm "settings"), Hs in Hinit;
          [|done..|by apply Hv2|by intros ?%elem_of_nil].
        apply set_Ret in Hinit as (l1 & [= <-] & Hvx & Hxi & Howni & _).
        exists (length (heap w2)). split; [done|].
        rewrite (frame_kind _ _ _ Hxi) by (unfold valid; lia).
        unfold kind_at. by rewrite Hnewx. }
    apply returns_bind; [by apply returns_get, Hvi|].
    intros s0 wx [-> [_ ->]]%get_Ret.
    apply returns_bind; [by apply returns_get, Hvi|].
    intros s1 wx [-> [_ ->]]%get_Ret. rewrite Hsi.
    apply returns_bind; [by apply returns_get, Hvi|].
    intros c0 wx [-> [_ ->]]%get_Ret. rewrite Hlb.
    apply returns_bind; [eexists _, _; by apply concat_method_array|].
    intros merged wx [-> _]%concat_method_Ret.
    apply returns_bind; [apply returns_alloc|].
    intros a wa (-> & Hfa & _)%alloc_Ret.
    apply returns_set; [|done].
    eapply frame_valid; [exact Hfa | by apply Hvi].
  - intros u3 w3 H3.
    assert (H23 : frame ["acls"] w2 w3).
    { match type of H3 with
      | ?m _ = _ => assert (Hwr : writes ["acls"] m)
      end.
      { destruct (acls def); [apply pure_writes, pure_mret | solve_writes]. }
      exact (Hwr _ _ _ H3). }
    apply returns_for_each_framework.
    eapply frame_valid; [exact H23 | by apply Hv2].
Qed.

Lemma loadController_returns lm controllers w :
  loadable w lm controllers → returns (loadController (VRef lm) controllers) w.
Proof.
  unfold loadController. revert w.
  induction controllers as [|d cs IH]; intros w Hw; cbn [for_each].
  { apply returns_mret. }
  destruct Hw as [Hlm (lp & Hp & Hlp) (ls & Hs & Hls & Hacls) Hnames Hhooks].
  pose proof Hnames as [(key & Hkey) Hrest]%Forall_cons.
  pose proof Hhooks as [Hhook Hhrest]%Forall_cons.
  pose proof (not_reserved _ (named_after_not_reserved _ _ Hkey)) as (Hn1 & Hn2 & Hn3).
  apply returns_bind.
  { apply returns_load_one. split; eauto 10. }
  intros u1 w1 H1.
  apply load_one_Ret in H1 as (_ & _ & Hs1 & _ & Hnone & Hsome).
  assert (Hkeep : ∀ k, k ≠ name d → k ≠ "acls" → own_at w1 lm k = own_at w lm k).
  { intros k Hk1 Hk2. rewrite (stores_own _ _ _ _ _ Hs1); [done..|].
    intros [?|[?|[]%elem_of_nil]%elem_of_cons]%elem_of_cons; done. }
  apply IH. split.
  - by eapply stores_valid.
  - exists lp. rewrite Hkeep by done. split; [done|]. by eapply stores_valid.
  - exists ls. rewrite Hkeep by done. split; [done|].
    split; [by eapply stores_valid|].
    destruct (acls d) as [|acl0 rest] eqn:E.
    + destruct (Hnone eq_refl) as [Hsd _].
      rewrite (stores_own _ _ _ _ _ Hsd); [|done|by intros ?%list_elem_of_singleton].
      destruct Hacls as [?|(la & Hla & Hka)]; [by left|]. right.
      exists la. split; [done|]. rewrite (stores_kind _ _ _ _ Hsd); [done|].
      unfold kind_at in Hka. apply valid_lookup.
      destruct (heap w !! la); [eauto | done].
    + destruct Hsome as (ls' & la & Hs' & _ & Hla & _ & _ & Hk & _);
        [done | by eapply named_after_not_reserved |].
      rewrite Hs in Hs'. injection Hs' as <-. right. eauto.
  - done.
  - done.
Qed.

(** ** The properties [prepare] assigns to *)

Lemma evolves_refl P w : evolves P w w.
Proof. split; [done|]. by intros l k _ []. Qed.

Lemma evolves_trans P w1 w2 w3 :
  evolves P w1 w2 → evolves P w2 w3 → evolves P w1 w3.
Proof.
  intros [Hl1 H1] [Hl2 H2]. split; [lia|]. intros l k Hl Hne.
  destruct (decide (own_at w2 l k = own_at w1 l k)) as [Heq|Hne1].
  - apply H2; [unfold valid in *; lia | by rewrite Heq].
  - by apply H1.
Qed.

Lemma evolves_mono (P Q : loc → string → Prop) w w' :
  (∀ l k, P l k → Q l k) → evolves P w w' → evolves Q w w'.
Proof. intros HPQ [Hl H]. split; [done|]. intros l k Hv Hne. by apply HPQ, H. Qed.

Lemma frame_evolves P w w' : frame [] w w' → evolves P w w'.
Proof.
  intros Hf. split; [exact (frame_length _ _ _ Hf)|]. intros l k Hl [].
  apply (frame_own _ _ _ Hf); [done | apply not_elem_of_nil].
Qed.

Lemma set_evolves v k x w u w' :
  set v k x w = Ret (u, w') →
  ∃ l, v = VRef l ∧ valid w l ∧ own_at w' l k = x ∧ frame [k] w w' ∧
       evolves (λ l' k', l' = l ∧ k' = k) w w'.
Proof.
  intros (l & -> & Hl & Hf & Hx & Hlen & Hother)%set_Ret.
  exists l. split_and!; try done. split; [lia|]. intros l' k' Hl' Hne.
  destruct (decide (l' = l)) as [->|Hl0].
  - split; [done|]. destruct (decide (k' = k)) as [|Hk]; [done|].
    destruct Hne. apply (frame_own _ _ _ Hf); [done|].
    by intros ?%list_elem_of_singleton.
  - destruct Hne. by eapply own_at_other.
Qed.

(** A conditional assignment [if (b) v.k = x]. *)
Lemma cond_set_evolves (b : bool) v k x w u w' :
  (if b then set v k x else mret tt) w = Ret (u, w') →
  frame [k] w w' ∧ ∀ l, v = VRef l → evolves (λ l' k', l' = l ∧ k' = k) w w'.
Proof.
  destruct b.
  - intros (l & -> & _ & _ & Hf & He)%set_evolves. split; [done|].
    by intros ? [= <-].
  - intros [_ ->]%mret_Ret. split; [apply frame_refl|]. intros. apply evolves_refl.
Qed.

(** An assignment of a value that may be a new object:
    [v.k = x || {...}]. *)
Lemma or_else_set_evolves a o l k w x w1 u w' :
  or_else a (alloc o) w = Ret (x, w1) →
  set (VRef l) k x w1 = Ret (u, w') →
  frame [k] w w' ∧ evolves (λ l' k', l' = l ∧ k' = k) w w'.
Proof.
  intros Hor Hset.
  assert (H01 : frame [] w w1) by (revert Hor; apply writes_or_else, writes_alloc).
  apply set_evolves in Hset as (? & [= <-] & Hl1 & _ & Hf & He). split.
  - eapply frame_trans; [|exact Hf]. eapply frame_mono; [|exact H01].
    by intros ? ?%elem_of_nil.
  - eapply evolves_trans; [by apply frame_evolves | done].
Qed.

(** An assignment of a new object: [v.k = {...}]. *)
Lemma alloc_set_evolves o l k w a w1 u w' :
  alloc o w = Ret (a, w1) →
  set (VRef l) k a w1 = Ret (u, w') →
  a = VRef (length (heap w)) ∧ own_at w' l k = a ∧
  frame [k] w w' ∧ evolves (λ l' k', l' = l ∧ k' = k) w w'.
Proof.
  intros Ha Hset. pose proof Ha as (-> & H01 & _)%alloc_Ret.
  apply set_evolves in Hset as (? & [= <-] & Hl1 & Hx & Hf & He). split_and!; try done.
  - eapply frame_trans; [|exact Hf]. eapply frame_mono; [|exact H01].
    by intros ? ?%elem_of_nil.
  - eapply evolves_trans; [by apply frame_evolves | done].
Qed.

(** The entries of the [map], lines 203-212: only they are written, and
    only their [property] and [principalType]. *)
Lemma array_map_default_acl_evolves name xs w ys w' :
  array_map (default_acl name) xs w = Ret (ys, w') →
  evolves (λ l' k', VRef l' ∈ xs ∧ k' ∈ ["property"; "principalType"]) w w'.
Proof.
  intros H. pose proof H as (_ & Hf & Hlen & _ & Hall)%array_map_default_acl.
  split; [lia|]. intros l k Hl Hne.
  destruct (decide (k ∈ ["property"; "principalType"])) as [Hk|Hk].
  - split; [|done]. destruct (Hall l Hl) as [Hp Hq].
    destruct (decide (VRef l ∈ xs)) as [|Hout]; [done|]. destruct Hne.
    apply elem_of_cons in Hk as [->|[->|[]%elem_of_nil]%elem_of_cons].
    + by rewrite Hp.
    + by rewrite Hq.
  - destruct Hne. by apply (frame_own _ _ _ Hf).
Qed.

Ltac solve_written :=
  first [ by left; split; [|compute_done]
        | by right; left; split; [|compute_done]
        | by right; right; left; split; [|compute_done]
        | by right; right; right; split; [|compute_done] ].

(** What [prepare] assigns to, object by object: a property of an object
    that existed and that has another value afterwards is one of
    [isStatic] and [acls] of the definition, [http], [description],
    [accepts] and [returns] of the options, [verb] and [path] of their
    [http] object, [property] and [principalType] of an ACL entry; the
    array left in [acls] is new. *)
Lemma prepare_footprint l w c w' :
  prepare (VRef l) w = Ret (c, w') →
  (∃ lf, own_at w' l "acls" = VRef lf ∧ ¬ valid w lf) ∧
  ∀ l' k, valid w l' → own_at w' l' k ≠ own_at w l' k → written l c w' l' k.
Proof.
  intros H.
  pose proof (prepare_remoteMethod _ _ _ _ H) as (lr & lh & Hc & Hhttp & _).
  pose proof (prepare_acls _ _ _ _ H) as (_ & (lf & Hlf & _ & _) & _).
  pose proof (proj1 (prepare_name_isStatic _ _ _ _ H)) as Hl.
  set (P := λ l' k',
    (l' = l ∧ k' ∈ ["isStatic"; "acls"]) ∨
    (l' = lr ∧ k' ∈ ["http"; "description"; "accepts"; "returns"]) ∨
    (l' = lh ∧ k' ∈ ["verb"; "path"]) ∨
    (VRef l' ∈ acls c ∧ k' ∈ ["property"; "principalType"])).
  enough ((¬ valid w lf) ∧ evolves P w w') as [Hfresh [_ He]].
  { split; [eauto|]. intros l' k Hl' Hne. unfold written. rewrite Hc. simpl.
    rewrite Hhttp. destruct (He l' k Hl' Hne) as [?|[[-> ?]|[[-> ?]|?]]]; eauto. }
  unfold prepare in H.
  run_get H options Hoptions. destruct Hoptions as [_ ->].
  run_step H rm w1 Hrm.
  assert (H01 : frame [] w w1) by (revert Hrm; apply writes_or_else, writes_alloc).
  assert (Hrm' : remoteMethod c = rm).
  { clear -H. run_all H. by apply mret_Ret in H as [-> _]. }
  rewrite Hc in Hrm'. subst rm. clear Hrm.
  pose proof (frame_evolves P _ _ H01) as E01.
  (* lines 176-177 *)
  run_get H is0 His0. clear His0.
  run_step H u2 w2 Hs. apply cond_set_evolves in Hs as [H12 E12].
  specialize (E12 l eq_refl).
  (* lines 179-182 *)
  run_get H nv Hnv. clear Hnv.
  run_step H nm wx Hnm. apply pure_getEndpointName in Hnm as ->.
  run_get H is1 His1. clear His1.
  (* lines 185-186 *)
  run_get H http0 Hhttp0. destruct Hhttp0 as [Hlr2 ->].
  run_step H u3 w3 Hinit.
  assert (frame ["http"] w2 w3 ∧
          evolves (λ l' k', l' = lr ∧ k' = "http") w2 w3) as [H23 E23].
  { destruct (truthy (own_at w2 lr "http")).
    - apply mret_Ret in Hinit as [_ ->]. split; [apply frame_refl | apply evolves_refl].
    - run_step Hinit o wo Ho.
      exact (or_else_set_evolves VUndefined _ _ _ _ _ _ _ _ Ho Hinit). }
  clear Hinit.
  (* line 188 *)
  run_get H http1 Hhttp1. destruct Hhttp1 as [Hlr3 ->].
  run_get H verb Hverb. clear Hverb.
  run_step H lowered wx Hlow. apply pure_toLowerCase in Hlow as ->.
  run_step H u4 w4 Hset.
  apply set_evolves in Hset as (lh1 & Hlh1 & Hvlh & _ & H34 & E34).
  assert (lh1 = lh) as ->.
  { assert (Hk : own_at w' lr "http" = own_at w3 lr "http"); [|congruence].
    match type of H with
    | ?m _ = _ => assert (Hwr : writes ["path"; "description"; "accepts"; "returns";
                                        "acls"; "property"; "principalType"] m)
        by solve_writes
    end.
    pose proof (Hwr _ _ _ H) as H4'.
    rewrite (frame_own _ _ _ H4') by (eauto using frame_valid || compute_done).
    apply (frame_own _ _ _ H34); [done | compute_done]. }
  (* line 189 *)
  run_get H http2 Hhttp2. destruct Hhttp2 as [Hlr4 ->].
  rewrite (frame_own _ _ _ H34), Hlh1 in H by (done || compute_done).
  run_get H path Hpath. clear Hpath.
  run_step H u5 w5 Hset.
  apply set_evolves in Hset as (? & [= <-] & Hvlh4 & _ & H45 & E45).
  (* lines 191-192 *)
  run_get H description Hdescription. clear Hdescription.
  run_step H u6 w6 Hdesc. apply cond_set_evolves in Hdesc as [H56 E56].
  specialize (E56 lr eq_refl).
  (* line 194 *)
  run_get H accepts Haccepts. clear Haccepts.
  run_step H accepted w6a Hor. run_step H u7 w7 Hset.
  destruct (or_else_set_evolves _ _ _ _ _ _ _ _ _ Hor Hset) as [H67 E67].
  clear Hor Hset.
  (* line 195 *)
  run_get H returned Hreturned. clear Hreturned.
  run_step H given w7a Hor. run_step H u8 w8 Hset.
  destruct (or_else_set_evolves _ _ _ _ _ _ _ _ _ Hor Hset) as [H78 E78].
  clear Hor Hset.
  (* lines 198-201 *)
  run_get H acls0 Hacls0. destruct Hacls0 as [Hl8 ->].
  run_step H is_object wx Hiso.
  assert (wx = w8) as ->.
  { revert Hiso. match goal with |- ?m _ = _ → _ => enough (pure m) as Hp by apply Hp end.
    destruct (truthy _); solve_pure. }
  run_step H u9 w9 Hnorm.
  (* lines 203-212 *)
  run_get H acls1 Hacls1. destruct Hacls1 as [Hl9 ->].
  run_step H entries w10 Hmap.
  assert (w' = w10 ∧ acls c = entries) as [-> Hentries].
  { split.
    - revert H. match goal with |- ?m _ = _ → _ => enough (pure m) as Hp by apply Hp end.
      solve_pure.
    - clear -H. run_all H. by apply mret_Ret in H as [-> _]. }
  clear H.
  apply map_method_Ret in Hmap as (la & o & Hla & Ho & Hk & Hmap).
  pose proof (array_map_default_acl_evolves _ _ _ _ _ Hmap) as E910.
  apply array_map_default_acl in Hmap as (-> & H910 & _).
  assert (frame ["acls"] w8 w9 ∧
          evolves (λ l' k', l' = l ∧ k' = "acls") w8 w9 ∧
          la = length (heap w8)) as (H89 & E89 & Hfresh).
  { destruct is_object.
    - run_step Hnorm a wa Ha.
      destruct (alloc_set_evolves _ _ _ _ _ _ _ _ Ha Hnorm) as (-> & Hown & Hf & He).
      rewrite Hown in Hla. by injection Hla as <-.
    - destruct (truthy (own_at w8 l "acls")) eqn:Ht; cbv beta iota delta [negb] in Hnorm.
      + exfalso. apply mret_Ret in Hnorm as [_ ->].
        run_step Hiso t wt Hty. apply mret_Ret in Hiso as [Hiso _].
        apply typeof_Ret in Hty as [-> Hty]. rewrite Hla in Hty.
        destruct Hty as (o' & Ho' & ->). rewrite Ho in Ho'. injection Ho' as <-.
        by rewrite Hk in Hiso.
      + run_step Hnorm a wa Ha.
        destruct (alloc_set_evolves _ _ _ _ _ _ _ _ Ha Hnorm) as (-> & Hown & Hf & He).
        rewrite Hown in Hla. by injection Hla as <-. }
  clear Hnorm Hiso.
  assert (Hlen : (length (heap w) ≤ length (heap w8))%nat).
  { pose proof (frame_length _ _ _ H01). pose proof (frame_length _ _ _ H12).
    pose proof (frame_length _ _ _ H23). pose proof (frame_length _ _ _ H34).
    pose proof (frame_length _ _ _ H45). pose proof (frame_length _ _ _ H56).
    pose proof (frame_length _ _ _ H67). pose proof (frame_length _ _ _ H78). lia. }
  split.
  { assert (lf = la) as ->; [|unfold valid; lia].
    rewrite (frame_own _ _ _ H910), Hla in Hlf by (done || compute_done).
    by injection Hlf. }
  assert (Hstep : ∀ (Q : loc → string → Prop) wa wb,
            (∀ l' k', Q l' k' → P l' k') → evolves Q wa wb → evolves P wa wb).
  { intros Q wa wb HQ. by apply evolves_mono. }
  eapply evolves_trans; [exact E01|].
  eapply evolves_trans; [eapply Hstep; [|exact E12]; intros ? ? [-> ->]; solve_written|].
  eapply evolves_trans; [eapply Hstep; [|exact E23]; intros ? ? [-> ->]; solve_written|].
  eapply evolves_trans; [eapply Hstep; [|exact E34]; intros ? ? [-> ->]; solve_written|].
  eapply evolves_trans; [eapply Hstep; [|exact E45]; intros ? ? [-> ->]; solve_written|].
  eapply evolves_trans; [eapply Hstep; [|exact E56]; intros ? ? [-> ->]; solve_written|].
  eapply evolves_trans; [eapply Hstep; [|exact E67]; intros ? ? [-> ->]; solve_written|].
  eapply evolves_trans; [eapply Hstep; [|exact E78]; intros ? ? [-> ->]; solve_written|].
  eapply evolves_trans; [eapply Hstep; [|exact E89]; intros ? ? [-> ->]; solve_written|].
  eapply Hstep; [|exact E910]. intros l' k' [Hin Hk']. do 3 right.
  by rewrite Hentries.
Qed.

(** The names [hideEndpoints] disables, by their origin: the elements of
    the blacklist, the base operations [modelMethods] gives for
    [whitelist.base], and operation names of relations and of scopes. *)
Lemma hideEndpoints_names model blacklist whitelist w u w' :
  hideEndpoints model blacklist whitelist w = Ret (u, w') →
  ∃ lb base relations scopes,
    blacklist = VRef lb ∧
    modelMethods (prop_of w whitelist "base") w = Ret (base, w) ∧
    calls w' = calls w ++
      (DisableRemoteMethodByName model <$>
         (elems_at w lb ++ (VStr <$> base) ++ (VStr <$> relations)
            ++ (VStr <$> scopes))) ∧
    (∀ n, n ∈ relations →
          ∃ key, n ∈ operation_names "prototype.__" RELATION_METHODS key) ∧
    (∀ n, n ∈ scopes → ∃ key, n ∈ operation_names "__" SCOPE_METHODS key).
Proof.
  intros H. unfold hideEndpoints in H.
  run_step H wl wb Hwl. apply get_prop_of in Hwl as [-> ->].
  run_step H base wb Hbase. pose proof (pure_modelMethods _ _ _ _ Hbase) as ->.
  run_step H bl wb Hbl. apply concat_method_Ret in Hbl as [-> (lb & -> & Hk & ->)].
  run_step H rel wb Hrel. apply get_prop_of in Hrel as [-> ->].
  run_step H Wr wr HWr. apply or_else_array_Ret in HWr as (_ & Hcr & _).
  run_step H rs wg HR. pose proof (pure_getSettings _ _ _ _ _ _ HR) as ->.
  run_step H sc wb Hsc. apply get_prop_of in Hsc as [-> ->].
  run_step H Ws ws HWs. apply or_else_array_Ret in HWs as (_ & Hcs & _).
  run_step H ss wg HS. pose proof (pure_getSettings _ _ _ _ _ _ HS) as ->.
  apply disable_all_Ret in H as [_ Hcalls].
  exists lb, base, rs, ss. split_and!; try done.
  - rewrite Hcalls, Hcs, Hcr. by rewrite <- !app_assoc.
  - intros n Hn. destruct (getSettings_names _ _ _ _ _ _ _ HR Hn)
      as (key & _ & [[_ ?]|[? _]]); [eauto | done].
  - intros n Hn. destruct (getSettings_names _ _ _ _ _ _ _ HS Hn)
      as (key & _ & [[? _]|[_ ?]]); [done | eauto].
Qed.

(** * Scenarios of the specification *)

Example lower_POST : lower "POST" = "post".
Proof. reflexivity. Qed.

(** [{name: "login", verb: "POST", path: "/login", handler: fn}] with
    [isStatic] unset. *)
Example login_scenario :
  ∃ c w', prepare (VRef 0) login_world = Ret (c, w') ∧
    name c = "endpoint:login" ∧ isStatic c = VBool true ∧
    acls c = [] ∧ hooks c = [] ∧ handler c = VRef 1 ∧
    remoteMethod c = VRef 2 ∧
    own_at w' 2 "http" = VRef 3 ∧
    own_at w' 3 "verb" = VStr "post" ∧ own_at w' 3 "path" = VStr "/login" ∧
    own_at w' 2 "accepts" = VRef 4 ∧
    kind_at w' 4 = Some KArray ∧ elems_at w' 4 = [] ∧
    own_at w' 2 "returns" = VRef 5 ∧
    own_at w' 5 "root" = VBool true ∧ own_at w' 5 "type" = VStr "object".
Proof. eexists _, _. split; [vm_compute; reflexivity|]. by split_and!. Qed.

(** The blacklist [["User.login"]] with an empty whitelist, on a model
    without relations or scopes: the names disabled are ["User.login"] and
    the whole base set. *)
Example blacklist_scenario :
  let w := World [Obj KFunction [] [("definition", VRef 1)];
                  Obj KObject [] [("settings", VRef 2)];
                  Obj KObject [] [];
                  Obj KArray [VStr "User.login"] [];
                  Obj KObject [] []] [] in
  ∃ w', hideEndpoints (VRef 0) (VRef 3) (VRef 4) w = Ret (tt, w') ∧
        calls w' = DisableRemoteMethodByName (VRef 0)
                     <$> (VStr "User.login" :: (VStr <$> MODEL_METHODS)).
Proof. eexists. split; vm_compute; reflexivity. Qed.

(** An empty verb is the one falsy verb that gets the default. *)
Example empty_verb_scenario :
  let w := World [Obj KObject [] [("name", VStr "ping"); ("verb", VStr "");
                                  ("handler", VRef 1)];
                  Obj KFunction [] []] [] in
  ∃ c w', prepare (VRef 0) w = Ret (c, w') ∧ own_at w' 3 "verb" = VStr "get".
Proof. eexists _, _. split; vm_compute; reflexivity. Qed.

(** * The claims *)

(** C1 (the code departs from it): a relation listed in
    [whitelist.relations] must have none of its operations suppressed.  On
    the model with the relations [orders] and [tags] and the whitelist
    [{relations: ["orders"], base: ["find", "count"]}], [hideEndpoints]
    nevertheless disables [prototype.__get__orders]: it reads
    [whitelist.relation], which is absent, and never [whitelist.relations]. *)
Theorem whitelisted_relation_is_still_hidden :
  prop_of customer_world (VRef 5) "relations" = VRef 6 ∧
  VStr "orders" ∈ elems_at customer_world 6 ∧
  ∃ w', hideEndpoints (VRef 0) (VRef 8) (VRef 5) customer_world = Ret (tt, w') ∧
        DisableRemoteMethodByName (VRef 0) (VStr "prototype.__get__orders")
          ∈ calls w'.
Proof.
  split; [reflexivity|]. split; [compute_done|].
  eexists. split; [vm_compute; reflexivity | compute_done].
Qed.

(** C2 (the code departs from it): an [acls] that already is a sequence
    must come out as that same sequence.  On
    [acls: [{permission: "ALLOW"}]] the descriptor's [acls] has one element,
    which is the input array itself (at 2), not its entry (at 3); the
    defaults are written on the array and the entry is left without
    [principalType]. *)
Theorem acl_array_is_nested :
  own_at acl_list_world 0 "acls" = VRef 2 ∧
  kind_at acl_list_world 2 = Some KArray ∧
  elems_at acl_list_world 2 = [VRef 3] ∧
  ∃ c w', prepare (VRef 0) acl_list_world = Ret (c, w') ∧
          acls c = [VRef 2] ∧
          own_at w' 2 "principalType" = VStr "ROLE" ∧
          own_at w' 3 "principalType" = VUndefined.
Proof.
  split_and!; try reflexivity.
  eexists _, _. split; [vm_compute; reflexivity|]. by split_and!.
Qed.

(** C3 (the code departs from it): a definition without [verb] must get
    the verb [get], and normalisation must not fail for it.  On
    [{name: "ping", isStatic: false, handler: fn}], [prepare] throws a
    TypeError: [definition.verb.toLowerCase()] is called before the
    default applies. *)
Theorem prepare_without_verb_throws :
  own_at ping_without_verb 0 "verb" = VUndefined ∧
  truthy (own_at ping_without_verb 0 "handler") = true ∧
  prepare (VRef 0) ping_without_verb = Throw TypeError.
Proof. by split_and!; vm_compute. Qed.

(** C5 (the code departs from it): a definition without [handler] must
    fail with the missing-handler error.  On [{name: "ping"}], which has no
    verb either, [prepare] throws a TypeError, from the verb, before it
    reaches the handler check. *)
Theorem prepare_without_handler_throws_TypeError :
  own_at ping_without_handler 0 "handler" = VUndefined ∧
  prepare (VRef 0) ping_without_handler = Throw TypeError ∧
  prepare (VRef 0) ping_without_handler ≠ Throw HandlerIsNotSet.
Proof. by split_and!; vm_compute. Qed.



Lemma login_well_formed : well_formed login_world 0.
Proof.
  split.
  - unfold valid. simpl. lia.
  - by eexists.
  - by eexists.
  - by left.
  - by left.
Defined.

Lemma guarded_well_formed : well_formed guarded_world 0.
Proof.
  split.
  - unfold valid. simpl. lia.
  - by eexists.
  - by eexists.
  - right. exists 2. split; [reflexivity|]. split; [unfold valid; simpl; lia|].
    by left.
  - right. exists 3. split; [reflexivity|]. by left.
Defined.


(** C6: the names [hideEndpoints] disables are the elements of the
    blacklist, then the base operations, then operation names of relations
    and of scopes, none of which is a base operation.  When
    [whitelist.base] is a non-empty array the base operations disabled are
    the fixed base set without the whitelisted names, in the order of the
    base set, and when it is absent or an empty array they are the whole
    base set.  So a base operation is disabled after the call exactly if it
    was disabled before, stands in the blacklist itself, or is one of
    these. *)
Theorem base_whitelist_exclusive model blacklist whitelist w u w' :
  hideEndpoints model blacklist whitelist w = Ret (u, w') →
  ∃ lb base relations scopes,
    blacklist = VRef lb ∧
    calls w' = calls w ++
      (DisableRemoteMethodByName model <$>
         (elems_at w lb ++ (VStr <$> base) ++ (VStr <$> relations)
            ++ (VStr <$> scopes))) ∧
    (∀ lw, prop_of w whitelist "base" = VRef lw →
           kind_at w lw = Some KArray → elems_at w lw ≠ [] →
           base = base_minus (elems_at w lw)) ∧
    (prop_of w whitelist "base" = VUndefined ∨
     (∃ lw, prop_of w whitelist "base" = VRef lw ∧
            kind_at w lw = Some KArray ∧ elems_at w lw = []) →
     base = MODEL_METHODS) ∧
    (∀ n, n ∈ relations →
          ∃ key, n ∈ operation_names "prototype.__" RELATION_METHODS key) ∧
    (∀ n, n ∈ scopes → ∃ key, n ∈ operation_names "__" SCOPE_METHODS key) ∧
    (∀ n, n ∈ relations ++ scopes → n ∉ MODEL_METHODS) ∧
    (∀ m, m ∈ MODEL_METHODS →
          (DisableRemoteMethodByName model (VStr m) ∈ calls w' ↔
           DisableRemoteMethodByName model (VStr m) ∈ calls w ∨
           VStr m ∈ elems_at w lb ∨ m ∈ base)).
Proof.
  intros (lb & base & relations & scopes & -> & Hbase & Hcalls & Hrel & Hsc)
    %hideEndpoints_names.
  apply modelMethods_Ret in Hbase as (_ & Hsome & Hnone).
  assert (Hother : ∀ n, n ∈ relations ++ scopes → n ∉ MODEL_METHODS).
  { intros n [Hn|Hn]%elem_of_app.
    - destruct (Hrel n Hn) as (key & (m & -> & _)%list_elem_of_fmap).
      apply relation_name_not_base.
    - destruct (Hsc n Hn) as (key & (m & -> & _)%list_elem_of_fmap).
      apply scope_name_not_base. }
  exists lb, base, relations, scopes. split_and!; try done.
  - intros [Hu|?]; apply Hnone; [left; by rewrite Hu | by right].
  - intros m Hm. rewrite Hcalls, elem_of_app. split.
    + intros [?|Hin]; [by left|]. right.
      apply list_elem_of_fmap in Hin as (y & [= <-] & Hin).
      rewrite !elem_of_app in Hin. destruct Hin as [?|[Hin|Hin]]; [by left| |].
      * right. by apply list_elem_of_fmap in Hin as (x & [= <-] & ?).
      * exfalso. apply (Hother m); [|done]. apply elem_of_app.
        destruct Hin as [Hin|Hin];
          apply list_elem_of_fmap in Hin as (x & [= <-] & ?); eauto.
    + intros [?|Hin]; [by left|]. right. apply list_elem_of_fmap_2.
      rewrite !elem_of_app. destruct Hin as [?|?]; [by left|].
      right. left. by apply list_elem_of_fmap_2.
Qed.

Lemma base_whitelist_exclusive_witness :
  ∃ w' relations scopes,
    hideEndpoints (VRef 0) (VRef 8) (VRef 5) customer_world = Ret (tt, w') ∧
    calls w' =
      DisableRemoteMethodByName (VRef 0) <$>
        ([VStr "User.login"]
           ++ (VStr <$> base_minus [VStr "find"; VStr "count"])
           ++ (VStr <$> relations) ++ (VStr <$> scopes)) ∧
    (DisableRemoteMethodByName (VRef 0) (VStr "find") ∉ calls w') ∧
    (DisableRemoteMethodByName (VRef 0) (VStr "count") ∉ calls w') ∧
    DisableRemoteMethodByName (VRef 0) (VStr "create") ∈ calls w'.
Proof.
  assert (∃ w', hideEndpoints (VRef 0) (VRef 8) (VRef 5) customer_world = Ret (tt, w'))
    as [w' H] by (eexists; vm_compute; reflexivity).
  destruct (base_whitelist_exclusive _ _ _ _ _ _ H)
    as (lb & base & relations & scopes & [= <-] & Hcalls & Hsome & _ & _ & _ & _ & Hiff).
  assert (Hb : base = base_minus [VStr "find"; VStr "count"])
    by (apply (Hsome 7); [reflexivity..|discriminate]).
  exists w', relations, scopes. split; [exact H|]. split.
  { by rewrite Hcalls, Hb. }
  rewrite !Hiff by compute_done. rewrite Hb. split_and!.
  - intros [Hin|[Hin|Hin]]; revert Hin; compute_done.
  - intros [Hin|[Hin|Hin]]; revert Hin; compute_done.
  - right. right. compute_done.
Defined.

(** C7: when the definition's [isStatic] is unset (absent, [undefined] or
    [null]) the descriptor's [isStatic] is [true]; an explicit [false]
    stays [false]. *)
Theorem isStatic_defaults_to_true l w c w' :
  prepare (VRef l) w = Ret (c, w') →
  (own_at w l "isStatic" = VUndefined ∨ own_at w l "isStatic" = VNull →
   isStatic c = VBool true) ∧
  (own_at w l "isStatic" = VBool false → isStatic c = VBool false).
Proof.
  intros (_ & _ & Hs & _)%prepare_name_isStatic. rewrite Hs.
  split; [intros [->| ->] | intros ->]; done.
Qed.

Lemma isStatic_defaults_to_true_witness :
  ∃ c w', prepare (VRef 0) login_world = Ret (c, w') ∧ isStatic c = VBool true.
Proof.
  assert (∃ c w', prepare (VRef 0) login_world = Ret (c, w')) as (c & w' & H)
    by (eexists _, _; vm_compute; reflexivity).
  exists c, w'. split; [exact H|].
  apply (proj1 (isStatic_defaults_to_true 0 login_world c w' H)).
  left. reflexivity.
Defined.

(** C8: for a definition named [n] the descriptor's name is
    ["endpoint:" + n] when the descriptor is static and
    ["prototype." + "endpoint:" + n] when the definition's [isStatic] is
    [false]. *)
Theorem final_name l w c w' n :
  prepare (VRef l) w = Ret (c, w') →
  own_at w l "name" = VStr n →
  (truthy (isStatic c) = true → name c = "endpoint:" +:+ n) ∧
  (own_at w l "isStatic" = VBool false →
   name c = "prototype." +:+ ("endpoint:" +:+ n)).
Proof.
  intros (_ & _ & Hs & n' & Hn' & Hname)%prepare_name_isStatic Hn.
  rewrite Hn in Hn'. injection Hn' as <-. split.
  - intros Ht. by rewrite Hname, Ht.
  - intros Hf. rewrite Hf in Hs. by rewrite Hname, Hs.
Qed.

Lemma final_name_witness :
  ∃ c w', prepare (VRef 0) ping_world = Ret (c, w') ∧
          name c = "prototype.endpoint:ping".
Proof.
  assert (∃ c w', prepare (VRef 0) ping_world = Ret (c, w')) as (c & w' & H)
    by (eexists _, _; vm_compute; reflexivity).
  exists c, w'. split; [exact H|].
  apply (proj2 (final_name 0 ping_world c w' "ping" H eq_refl)). reflexivity.
Defined.

(** C9 (the code departs from it): every entry of a definition's ACL list
    must get its defaults, each on its own.  On
    [acls: [{permission: "ALLOW"}, {permission: "DENY", principalType: "USER"}]]
    the descriptor's [acls] has one element, the input array itself (at 2):
    the defaults are written on that array, and the two entries (at 3 and
    4) are left as they were, the first without [property] and
    [principalType], the second without [property]. *)
Theorem acl_entries_of_an_array_get_no_defaults :
  own_at acl_pair_world 0 "acls" = VRef 2 ∧
  elems_at acl_pair_world 2 = [VRef 3; VRef 4] ∧
  ∃ c w', prepare (VRef 0) acl_pair_world = Ret (c, w') ∧
          name c = "endpoint:ping" ∧
          acls c = [VRef 2] ∧
          own_at w' 2 "property" = VStr "endpoint:ping" ∧
          own_at w' 2 "principalType" = VStr "ROLE" ∧
          own_at w' 3 "property" = VUndefined ∧
          own_at w' 3 "principalType" = VUndefined ∧
          own_at w' 4 "property" = VUndefined ∧
          own_at w' 4 "principalType" = VStr "USER".
Proof.
  split_and!; try reflexivity.
  eexists _, _. split; [vm_compute; reflexivity|]. by split_and!.
Qed.

(** C10: on a model that is [undefined] or [null], or that has no (or a
    falsy) [sharedClass], the mixin returns at once: the store, which holds
    the model, and the log of framework calls are as they were, and the
    controller file is not loaded, whatever loading it would do. *)
Theorem Controller_skips_private_model kebabCase path_resolve require
    Model options w :
  Model = VUndefined ∨ Model = VNull ∨
  (∃ l, Model = VRef l ∧ valid w l ∧
        truthy (own_at w l "sharedClass") = false) →
  Controller kebabCase path_resolve require Model options w = Ret (tt, w).
Proof.
  intros [-> | [-> | (l & -> & Hl & Hs)]]; try done.
  unfold Controller. cbn [truthy].
  unfold mbind at 1, M_bind at 1. by rewrite get_ref, Hs.
Qed.

Lemma Controller_skips_private_model_witness :
  Controller (λ _, mret "") (λ dir file, dir +:+ file)
    (λ _ _ _, throw TypeError) (VRef 0) (VRef 1) private_world
  = Ret (tt, private_world).
Proof.
  apply Controller_skips_private_model. right. right.
  exists 0. split; [reflexivity|]. split; [unfold valid; simpl; lia | reflexivity].
Defined.

(** * Further properties *)

(** ** [prepare] *)



(** X2: the remote-method options of the descriptor carry the definition's
    path as [http.path] and, when the definition has a description, that
    description. *)
Theorem path_and_description_are_copied l w c w' :
  prepare (VRef l) w = Ret (c, w') →
  ∃ lr lh,
    remoteMethod c = VRef lr ∧ own_at w' lr "http" = VRef lh ∧
    own_at w' lh "path" = own_at w l "path" ∧
    (truthy (own_at w l "description") = true →
     own_at w' lr "description" = own_at w l "description").
Proof.
  intros (lr & lh & Hr & Hh & Hp & Hd & _)%prepare_remoteMethod.
  exists lr, lh. by split_and!.
Qed.

Lemma path_and_description_are_copied_witness :
  ∃ c w' lr lh, prepare (VRef 0) report_world = Ret (c, w') ∧
    remoteMethod c = VRef lr ∧ own_at w' lr "http" = VRef lh ∧
    own_at w' lh "path" = VStr "/report" ∧
    own_at w' lr "description" = VStr "Monthly report".
Proof.
  assert (∃ c w', prepare (VRef 0) report_world = Ret (c, w')) as (c & w' & H)
    by (eexists _, _; vm_compute; reflexivity).
  destruct (path_and_description_are_copied 0 report_world c w' H)
    as (lr & lh & Hr & Hh & Hp & Hd).
  exists c, w', lr, lh.
  split_and!; [exact H | exact Hr | exact Hh | exact Hp | exact (Hd eq_refl)].
Defined.

(** X3: [accepts] and [returns] of the remote-method options are the
    definition's when it has them; otherwise [accepts] is a new empty array
    and [returns] a new object [{root: true, type: "object"}]. *)
Theorem accepts_and_returns_default l w c w' :
  prepare (VRef l) w = Ret (c, w') →
  ∃ lr,
    remoteMethod c = VRef lr ∧
    (if truthy (own_at w l "accepts")
     then own_at w' lr "accepts" = own_at w l "accepts"
     else ∃ la, own_at w' lr "accepts" = VRef la ∧ ¬ valid w la ∧
                kind_at w' la = Some KArray ∧ elems_at w' la = []) ∧
    (if truthy (own_at w l "returns")
     then own_at w' lr "returns" = own_at w l "returns"
     else ∃ lo, own_at w' lr "returns" = VRef lo ∧ ¬ valid w lo ∧
                kind_at w' lo = Some KObject ∧
                own_at w' lo "root" = VBool true ∧
                own_at w' lo "type" = VStr "object").
Proof.
  intros (lr & lh & Hr & _ & _ & _ & Ha & Hb)%prepare_remoteMethod.
  exists lr. by split_and!.
Qed.

Lemma accepts_and_returns_default_witness :
  ∃ c w' lr la lo, prepare (VRef 0) login_world = Ret (c, w') ∧
    remoteMethod c = VRef lr ∧
    own_at w' lr "accepts" = VRef la ∧ elems_at w' la = [] ∧
    own_at w' lr "returns" = VRef lo ∧ own_at w' lo "root" = VBool true ∧
    own_at w' lo "type" = VStr "object".
Proof.
  assert (∃ c w', prepare (VRef 0) login_world = Ret (c, w')) as (c & w' & H)
    by (eexists _, _; vm_compute; reflexivity).
  destruct (accepts_and_returns_default 0 login_world c w' H)
    as (lr & Hr & (la & Ha & _ & _ & Hea) & (lo & Ho & _ & _ & Hroot & Htype)).
  exists c, w', lr, la, lo.
  split_and!; [exact H | exact Hr | exact Ha | exact Hea | exact Ho | exact Hroot
              | exact Htype].
Defined.

(** X4: the remote-method options of the descriptor are the definition's
    own [options] object when it has one, written in place, and a new
    object otherwise. *)
Theorem options_object_is_reused l w c w' :
  prepare (VRef l) w = Ret (c, w') →
  if truthy (own_at w l "options")
  then remoteMethod c = own_at w l "options"
  else ∃ lr, remoteMethod c = VRef lr ∧ ¬ valid w lr ∧ valid w' lr.
Proof. apply prepare_options. Qed.

Lemma options_object_is_reused_witness :
  ∃ c w', prepare (VRef 0) report_world = Ret (c, w') ∧
          remoteMethod c = VRef 2 ∧ own_at w' 2 "notes" = VStr "internal".
Proof.
  assert (∃ c w', prepare (VRef 0) report_world = Ret (c, w') ∧
                  own_at w' 2 "notes" = VStr "internal") as (c & w' & H & Hn)
    by (eexists _, _; vm_compute; split; reflexivity).
  exists c, w'. split; [exact H|]. split; [|exact Hn].
  exact (options_object_is_reused 0 report_world c w' H).
Defined.

(** X5: the hooks of the descriptor are those the definition has, a
    [beforeRemote] hook for [before], an [afterRemote] hook for [after] and
    an [afterRemoteError] hook for [error], in this order. *)
Theorem hooks_in_order l w c w' :
  prepare (VRef l) w = Ret (c, w') →
  hooks c =
    (if truthy (own_at w l "before")
     then [Hook "beforeRemote" (own_at w l "before")] else []) ++
    (if truthy (own_at w l "after")
     then [Hook "afterRemote" (own_at w l "after")] else []) ++
    (if truthy (own_at w l "error")
     then [Hook "afterRemoteError" (own_at w l "error")] else []).
Proof.
  intros ->%prepare_hooks. unfold push_hook.
  by destruct (truthy (own_at w l "before")), (truthy (own_at w l "after")),
    (truthy (own_at w l "error")).
Qed.

Lemma hooks_in_order_witness :
  ∃ c w', prepare (VRef 0) report_world = Ret (c, w') ∧
          hooks c = [Hook "beforeRemote" (VRef 3); Hook "afterRemoteError" (VRef 4)].
Proof.
  assert (∃ c w', prepare (VRef 0) report_world = Ret (c, w')) as (c & w' & H)
    by (eexists _, _; vm_compute; reflexivity).
  exists c, w'. split; [exact H|].
  exact (hooks_in_order 0 report_world c w' H).
Defined.

(** X6: a well-formed definition without a handler is refused with the
    error [Handler is not set]. *)
Theorem missing_handler_is_reported l w :
  well_formed w l → truthy (own_at w l "handler") = false →
  prepare (VRef l) w = Throw HandlerIsNotSet.
Proof. apply prepare_HandlerIsNotSet. Qed.

Lemma login_without_handler_well_formed : well_formed login_without_handler 0.
Proof.
  split.
  - unfold valid. simpl. lia.
  - by eexists.
  - by eexists.
  - by left.
  - by left.
Defined.

Lemma missing_handler_is_reported_witness :
  prepare (VRef 0) login_without_handler = Throw HandlerIsNotSet.
Proof.
  exact (missing_handler_is_reported 0 login_without_handler
           login_without_handler_well_formed eq_refl).
Defined.

(** X7: [prepare] returns only for a definition that has a handler, and the
    descriptor carries that handler. *)
Theorem handler_is_passed_on l w c w' :
  prepare (VRef l) w = Ret (c, w') →
  truthy (own_at w l "handler") = true ∧ handler c = own_at w l "handler".
Proof. apply prepare_needs_handler. Qed.

Lemma handler_is_passed_on_witness :
  ∃ c w', prepare (VRef 0) report_world = Ret (c, w') ∧ handler c = VRef 1.
Proof.
  assert (∃ c w', prepare (VRef 0) report_world = Ret (c, w')) as (c & w' & H)
    by (eexists _, _; vm_compute; reflexivity).
  exists c, w'. split; [exact H|].
  exact (proj2 (handler_is_passed_on 0 report_world c w' H)).
Defined.

(** X8: the descriptor has at most one ACL entry: none when the definition
    has no [acls], and otherwise the definition's [acls] value itself, as
    the one entry. *)
Theorem at_most_one_acl_entry l w c w' :
  prepare (VRef l) w = Ret (c, w') →
  acls c = if truthy (own_at w l "acls") then [own_at w l "acls"] else [].
Proof. by intros [? _]%prepare_acls. Qed.

Lemma at_most_one_acl_entry_witness :
  (∃ c w', prepare (VRef 0) acl_single_world = Ret (c, w') ∧ acls c = [VRef 2]) ∧
  (∃ c w', prepare (VRef 0) login_world = Ret (c, w') ∧ acls c = []).
Proof.
  assert (∃ c w', prepare (VRef 0) acl_single_world = Ret (c, w')) as (c & w' & H)
    by (eexists _, _; vm_compute; reflexivity).
  assert (∃ c w', prepare (VRef 0) login_world = Ret (c, w')) as (c2 & w2 & H2)
    by (eexists _, _; vm_compute; reflexivity).
  split.
  - exists c, w'. split; [exact H|].
    exact (at_most_one_acl_entry 0 acl_single_world c w' H).
  - exists c2, w2. split; [exact H2|].
    exact (at_most_one_acl_entry 0 login_world c2 w2 H2).
Defined.

(** X9: a definition that has a handler never gets the error
    [Handler is not set], however [prepare] ends for it. *)
Theorem handler_present_is_never_reported l w :
  truthy (own_at w l "handler") = true →
  prepare (VRef l) w ≠ Throw HandlerIsNotSet.
Proof. apply prepare_handler_present. Qed.

Lemma handler_present_is_never_reported_witness :
  prepare (VRef 0) ping_without_verb ≠ Throw HandlerIsNotSet.
Proof. exact (handler_present_is_never_reported 0 ping_without_verb eq_refl). Defined.



(** ** [getSettings] and [hideEndpoints] *)

(** X11: [getSettings] with an array for whitelist leaves the store as it is
    and returns, for every configured key the array does not hold and in
    the order of the keys (those of [model.definition.settings[name]], then
    those only [model[name]] has), the names of the pre-defined operations:
    [prototype.__<op>__<key>] for relations, [__<op>__<key>] for scopes; for
    any other setting name it returns nothing. *)
Theorem getSettings_lists_unlisted_keys model name lw w names w' :
  kind_at w lw = Some KArray →
  getSettings model name (VRef lw) w = Ret (names, w') →
  w' = w ∧
  names =
    let kept := filter (λ key, VStr key ∉ elems_at w lw) (configured w model name) in
    if name =? "relations" then kept ≫= operation_names "prototype.__" RELATION_METHODS
    else if name =? "scopes" then kept ≫= operation_names "__" SCOPE_METHODS
    else [].
Proof. apply getSettings_array. Qed.

Lemma getSettings_lists_unlisted_keys_witness :
  getSettings (VRef 0) "scopes" (VRef 7) shop_world
  = Ret (["__get__recent"; "__create__recent"; "__delete__recent"; "__count__recent"],
         shop_world) ∧
  getSettings (VRef 0) "relations" (VRef 6) shop_world
  = Ret (operation_names "prototype.__" RELATION_METHODS "tags", shop_world).
Proof.
  assert (∃ names w', getSettings (VRef 0) "scopes" (VRef 7) shop_world = Ret (names, w'))
    as (names & w' & H) by (eexists _, _; vm_compute; reflexivity).
  assert (∃ names w', getSettings (VRef 0) "relations" (VRef 6) shop_world = Ret (names, w'))
    as (names2 & w2 & H2) by (eexists _, _; vm_compute; reflexivity).
  destruct (getSettings_lists_unlisted_keys (VRef 0) "scopes" 7 shop_world names w'
              eq_refl H) as [-> ->].
  destruct (getSettings_lists_unlisted_keys (VRef 0) "relations" 6 shop_world names2 w2
              eq_refl H2) as [-> ->].
  split; [exact H | exact H2].
Defined.

(** X12: a scope listed in the array [whitelist.scopes] stays visible:
    [hideEndpoints] disables none of its operations, unless the name was
    disabled before or stands in the blacklist itself. *)
Theorem whitelisted_scope_stays_visible model lb whitelist w u w' lw key n :
  hideEndpoints model (VRef lb) whitelist w = Ret (u, w') →
  prop_of w whitelist "scopes" = VRef lw →
  kind_at w lw = Some KArray →
  VStr key ∈ elems_at w lw →
  n ∈ operation_names "__" SCOPE_METHODS key →
  DisableRemoteMethodByName model (VStr n) ∉ calls w →
  VStr n ∉ elems_at w lb →
  DisableRemoteMethodByName model (VStr n) ∉ calls w'.
Proof.
  intros H Hs Hk Hkey Hn Hbefore Hblack.
  apply hideEndpoints_parts in H
    as (lb' & base & wr & Wr & rs & ws & Ws & ss & [= <-] & _ & Hbase & Hwr & Hws
        & _ & _ & Hrs & HWs & Hss & ->).
  apply list_elem_of_fmap in Hn as (m & -> & Hm).
  rewrite elem_of_app. intros [?|Hin]; [done|].
  apply list_elem_of_fmap in Hin as (y & [= <-] & Hin).
  rewrite !elem_of_app in Hin. destruct Hin as [?|[Hin|[Hin|Hin]]]; [done|..].
  - apply list_elem_of_fmap in Hin as (x & [= <-] & Hin).
    by apply Hbase, scope_name_not_base in Hin.
  - apply list_elem_of_fmap in Hin as (x & [= <-] & Hin).
    destruct (getSettings_names _ _ _ _ _ _ _ Hrs Hin)
      as (key' & _ & [[_ Hx]|[? _]]); [|done].
    apply list_elem_of_fmap in Hx as (m' & Hx & _). by apply prefix_not_relation in Hx.
  - apply list_elem_of_fmap in Hin as (x & [= <-] & Hin).
    rewrite Hs in HWs. simpl in HWs.
    destruct (getSettings_kept _ _ _ _ "scopes" (VRef lw) _ _
                (extended_trans _ _ _ _ _ Hwr Hws) ltac:(done) HWs Hss)
      as (listed & (lw' & [= <-] & ->) & ->); [eauto|].
    cbv zeta in Hin. simpl in Hin.
    apply list_elem_of_bind in Hin as (key' & Hx & [Hout _]%list_elem_of_filter).
    apply list_elem_of_fmap in Hx as (m' & Hx & Hm').
    apply scope_name_inj in Hx; [|done..]. by subst key'.
Qed.

Lemma whitelisted_scope_stays_visible_witness :
  ∃ w', hideEndpoints (VRef 0) (VRef 8) (VRef 5) shop_world = Ret (tt, w') ∧
        DisableRemoteMethodByName (VRef 0) (VStr "__get__active") ∉ calls w'.
Proof.
  assert (∃ w', hideEndpoints (VRef 0) (VRef 8) (VRef 5) shop_world = Ret (tt, w'))
    as [w' H] by (eexists; vm_compute; reflexivity).
  exists w'. split; [exact H|].
  apply (whitelisted_scope_stays_visible (VRef 0) 8 (VRef 5) shop_world tt w' 7
           "active" "__get__active" H eq_refl eq_refl).
  - vm_compute. left.
  - vm_compute. left.
  - vm_compute. inversion 1.
  - vm_compute. inversion 1.
Defined.

(** X13: a configured scope that [whitelist.scopes] does not list, the
    whitelist having no [scopes] or an array without the key, is hidden:
    [hideEndpoints] disables each of its four operations. *)
Theorem unlisted_scope_is_hidden model blacklist whitelist w u w' key m :
  hideEndpoints model blacklist whitelist w = Ret (u, w') →
  key ∈ configured w model "scopes" →
  truthy (prop_of w whitelist "scopes") = false ∨
  (∃ lw, prop_of w whitelist "scopes" = VRef lw ∧ kind_at w lw = Some KArray ∧
         VStr key ∉ elems_at w lw) →
  m ∈ SCOPE_METHODS →
  DisableRemoteMethodByName model (VStr ("__" +:+ m +:+ "__" +:+ key)) ∈ calls w'.
Proof.
  intros H Hkey Hlist Hm.
  apply hideEndpoints_parts in H
    as (lb & base & wr & Wr & rs & ws & Ws & ss & -> & _ & _ & Hwr & Hws
        & _ & _ & _ & HWs & Hss & ->).
  assert (Hside : truthy (prop_of w whitelist "scopes") = false ∨
                  ∃ lw, prop_of w whitelist "scopes" = VRef lw ∧
                        kind_at w lw = Some KArray).
  { destruct Hlist as [?|(lw & ? & ? & _)]; [by left | right; eauto]. }
  destruct (getSettings_kept _ _ _ _ "scopes" _ _ _
              (extended_trans _ _ _ _ _ Hwr Hws) ltac:(done) HWs Hss Hside)
    as (listed & Hlisted & ->).
  apply elem_of_app. right. apply list_elem_of_fmap_2.
  rewrite !elem_of_app. do 3 right. apply list_elem_of_fmap_2.
  cbv zeta. simpl. apply list_elem_of_bind. exists key. split.
  - exact (list_elem_of_fmap_2 (λ m0, "__" +:+ m0 +:+ "__" +:+ key) _ _ Hm).
  - apply list_elem_of_filter. split; [|done].
    destruct Hlist as [Hf|(lw & Hv & _ & Hout)].
    + rewrite Hf in Hlisted. subst listed. apply not_elem_of_nil.
    + rewrite Hv in Hlisted. simpl in Hlisted.
      destruct Hlisted as (? & [= <-] & ->). done.
Qed.

Lemma unlisted_scope_is_hidden_witness :
  ∃ w', hideEndpoints (VRef 0) (VRef 8) (VRef 5) shop_world = Ret (tt, w') ∧
        DisableRemoteMethodByName (VRef 0) (VStr "__delete__recent") ∈ calls w'.
Proof.
  assert (∃ w', hideEndpoints (VRef 0) (VRef 8) (VRef 5) shop_world = Ret (tt, w'))
    as [w' H] by (eexists; vm_compute; reflexivity).
  exists w'. split; [exact H|].
  apply (unlisted_scope_is_hidden (VRef 0) (VRef 8) (VRef 5) shop_world tt w'
           "recent" "delete" H).
  - vm_compute. right. left.
  - right. exists 7. split; [reflexivity|]. split; [reflexivity|]. vm_compute.
    intros Hin. inversion Hin as [|? ? ? Hin']. inversion Hin'.
  - vm_compute. do 2 right. left.
Defined.

(** X14: the relation whitelist that [hideEndpoints] honours is the array
    under the key [relation]: a relation listed there stays visible, none
    of its operations being disabled unless the name was disabled before or
    stands in the blacklist itself. *)
Theorem relation_key_keeps_relation_visible model lb whitelist w u w' lw key n :
  hideEndpoints model (VRef lb) whitelist w = Ret (u, w') →
  prop_of w whitelist "relation" = VRef lw →
  kind_at w lw = Some KArray →
  VStr key ∈ elems_at w lw →
  n ∈ operation_names "prototype.__" RELATION_METHODS key →
  DisableRemoteMethodByName model (VStr n) ∉ calls w →
  VStr n ∉ elems_at w lb →
  DisableRemoteMethodByName model (VStr n) ∉ calls w'.
Proof.
  intros H Hs Hk Hkey Hn Hbefore Hblack.
  apply hideEndpoints_parts in H
    as (lb' & base & wr & Wr & rs & ws & Ws & ss & [= <-] & _ & Hbase & Hwr & Hws
        & _ & HWr & Hrs & _ & Hss & ->).
  apply list_elem_of_fmap in Hn as (m & -> & Hm).
  rewrite elem_of_app. intros [?|Hin]; [done|].
  apply list_elem_of_fmap in Hin as (y & [= <-] & Hin).
  rewrite !elem_of_app in Hin. destruct Hin as [?|[Hin|[Hin|Hin]]]; [done|..].
  - apply list_elem_of_fmap in Hin as (x & [= <-] & Hin).
    by apply Hbase, relation_name_not_base in Hin.
  - apply list_elem_of_fmap in Hin as (x & [= <-] & Hin).
    rewrite Hs in HWr. simpl in HWr.
    destruct (getSettings_kept _ _ _ _ "relations" (VRef lw) _ _ Hwr ltac:(done) HWr Hrs)
      as (listed & (lw' & [= <-] & ->) & ->); [eauto|].
    cbv zeta in Hin. simpl in Hin.
    apply list_elem_of_bind in Hin as (key' & Hx & [Hout _]%list_elem_of_filter).
    apply list_elem_of_fmap in Hx as (m' & Hx & Hm').
    apply relation_name_inj in Hx; [|done..]. by subst key'.
  - apply list_elem_of_fmap in Hin as (x & [= <-] & Hin).
    destruct (getSettings_names _ _ _ _ _ _ _ Hss Hin)
      as (key' & _ & [[? _]|[_ Hx]]); [done|].
    apply list_elem_of_fmap in Hx as (m' & Hx & _).
    symmetry in Hx. by apply prefix_not_relation in Hx.
Qed.

Lemma relation_key_keeps_relation_visible_witness :
  ∃ w', hideEndpoints (VRef 0) (VRef 8) (VRef 5) shop_world = Ret (tt, w') ∧
        DisableRemoteMethodByName (VRef 0) (VStr "prototype.__get__orders") ∉ calls w'.
Proof.
  assert (∃ w', hideEndpoints (VRef 0) (VRef 8) (VRef 5) shop_world = Ret (tt, w'))
    as [w' H] by (eexists; vm_compute; reflexivity).
  exists w'. split; [exact H|].
  apply (relation_key_keeps_relation_visible (VRef 0) 8 (VRef 5) shop_world tt w' 6
           "orders" "prototype.__get__orders" H eq_refl eq_refl).
  - vm_compute. left.
  - vm_compute. do 6 right. left.
  - vm_compute. inversion 1.
  - vm_compute. inversion 1.
Defined.

(** X15: [hideEndpoints] writes to no object: the blacklist array it was
    given, the whitelist and the model are as before, and the store grows
    by at most two empty arrays, the defaults of the two whitelists. *)
Theorem hideEndpoints_writes_nothing model blacklist whitelist w u w' :
  hideEndpoints model blacklist whitelist w = Ret (u, w') →
  extended 2 w w'.
Proof.
  intros H. apply hideEndpoints_parts in H
    as (lb & base & wr & Wr & rs & ws & Ws & ss & _ & _ & _ & Hwr & Hws & Hheap & _).
  destruct (extended_trans _ _ _ _ _ Hwr Hws) as (new & Hnew & Hall & Hlen).
  exists new. by rewrite Hheap.
Qed.

Lemma hideEndpoints_writes_nothing_witness :
  ∃ w', hideEndpoints (VRef 0) (VRef 8) (VRef 5) customer_world = Ret (tt, w') ∧
        extended 2 customer_world w'.
Proof.
  assert (∃ w', hideEndpoints (VRef 0) (VRef 8) (VRef 5) customer_world = Ret (tt, w'))
    as [w' H] by (eexists; vm_compute; reflexivity).
  exists w'. split; [exact H|].
  exact (hideEndpoints_writes_nothing _ _ _ _ _ _ H).
Defined.

(** X16: a [whitelist.base] that is not an array whitelists nothing:
    [hideEndpoints] disables every base operation. *)
Theorem base_whitelist_must_be_an_array model blacklist whitelist w u w' m :
  hideEndpoints model blacklist whitelist w = Ret (u, w') →
  (∀ l, prop_of w whitelist "base" = VRef l → kind_at w l ≠ Some KArray) →
  m ∈ MODEL_METHODS →
  DisableRemoteMethodByName model (VStr m) ∈ calls w'.
Proof.
  intros (lb & base & rs & ss & -> & _ & Hbase & ->)%hideEndpoints_calls Hnot Hm.
  assert (base = MODEL_METHODS) as ->.
  { unfold modelMethods in Hbase. run_step Hbase arr w1 Harr.
    assert (arr = None) as ->.
    { destruct (truthy (prop_of w whitelist "base")).
      - apply as_array_Ret in Harr as [_ ->].
        destruct (prop_of w whitelist "base") as [| | | | |l]; try done.
        rewrite decide_False; [done|]. by apply Hnot.
      - by apply mret_Ret in Harr as [-> _]. }
    by apply mret_Ret in Hbase as [-> _]. }
  apply elem_of_app. right. apply list_elem_of_fmap_2.
  apply elem_of_app. right. apply elem_of_app. left. by apply list_elem_of_fmap_2.
Qed.

Lemma base_whitelist_must_be_an_array_witness :
  ∃ w', hideEndpoints (VRef 0) (VRef 8) (VRef 10) string_base_world = Ret (tt, w') ∧
        DisableRemoteMethodByName (VRef 0) (VStr "find") ∈ calls w'.
Proof.
  assert (∃ w', hideEndpoints (VRef 0) (VRef 8) (VRef 10) string_base_world
                = Ret (tt, w')) as [w' H] by (eexists; vm_compute; reflexivity).
  exists w'. split; [exact H|].
  apply (base_whitelist_must_be_an_array (VRef 0) (VRef 8) (VRef 10) string_base_world
           tt w' "find" H).
  - intros l. vm_compute. discriminate.
  - vm_compute. do 5 right. left.
Defined.

(** X17: on a model with a definition that has settings, with an array for
    blacklist and a whitelist object whose [relation] and [scopes] are
    arrays where given, in a store without dangling references,
    [hideEndpoints] runs through: it raises no error and returns. *)
Theorem hideEndpoints_runs_through lm lb lw w :
  hideable w lm lb lw →
  ∃ w', hideEndpoints (VRef lm) (VRef lb) (VRef lw) w = Ret (tt, w').
Proof.
  intros ([] & w' & H)%hideEndpoints_returns. eauto.
Qed.

Lemma shop_world_hideable : hideable shop_world 0 8 5.
Proof.
  split.
  - compute_done.
  - compute_done.
  - by exists 1, 2.
  - reflexivity.
  - compute_done.
  - right. by exists 6.
  - right. by exists 7.
Defined.

Lemma hideEndpoints_runs_through_witness :
  ∃ w', hideEndpoints (VRef 0) (VRef 8) (VRef 5) shop_world = Ret (tt, w').
Proof. exact (hideEndpoints_runs_through 0 8 5 shop_world shop_world_hideable). Defined.

(** ** [loadController] *)

(** X18: [loadController] calls the framework once per descriptor to
    register the remote method under the descriptor's name, then once per
    hook of that descriptor, descriptor after descriptor in the order of
    the list; it makes no other call. *)
Theorem loadController_registers_in_order model controllers w u w' :
  loadController model controllers w = Ret (u, w') →
  calls w' = calls w ++ (controllers ≫= registrations model).
Proof. apply loadController_calls. Qed.

Lemma loadController_registers_in_order_witness :
  ∃ w', loadController (VRef 0) [login_controller; ping_controller] load_world
        = Ret (tt, w') ∧
        calls w' = [RemoteMethod (VRef 0) "endpoint:login" (VRef 6);
                    RemoteHook (VRef 0) "beforeRemote" "endpoint:login" (VRef 8);
                    RemoteMethod (VRef 0) "prototype.endpoint:ping" (VRef 10)].
Proof.
  assert (∃ w', loadController (VRef 0) [login_controller; ping_controller] load_world
                = Ret (tt, w')) as [w' H] by (eexists; vm_compute; reflexivity).
  exists w'. split; [exact H|].
  exact (loadController_registers_in_order _ _ _ _ _ H).
Defined.

(** X19: [loadController] assigns to nothing but the descriptors' names
    and [acls]: every object is still there with its kind and its
    elements, and every property under another name has the value it
    had. *)
Theorem loadController_assigns_names_and_acls lm controllers w u w' :
  loadController (VRef lm) controllers w = Ret (u, w') →
  stores ((name <$> controllers) ++ ["acls"]) w w'.
Proof. apply loadController_stores. Qed.

Lemma loadController_assigns_names_and_acls_witness :
  ∃ w', loadController (VRef 0) [login_controller; ping_controller] load_world
        = Ret (tt, w') ∧
        stores ["endpoint:login"; "prototype.endpoint:ping"; "acls"] load_world w'.
Proof.
  assert (∃ w', loadController (VRef 0) [login_controller; ping_controller] load_world
                = Ret (tt, w')) as [w' H] by (eexists; vm_compute; reflexivity).
  exists w'. split; [exact H|].
  exact (loadController_assigns_names_and_acls _ _ _ _ _ H).
Defined.

(** X20: after [loadController], for descriptors with distinct names none
    of which is [prototype], [settings] or [acls], the handler of each
    descriptor is the property of that name on the model when the
    descriptor is static, and on the model's prototype otherwise. *)
Theorem handlers_are_bound lm controllers w u w' def :
  loadController (VRef lm) controllers w = Ret (u, w') →
  NoDup (name <$> controllers) →
  Forall (λ d, name d ∉ reserved) controllers →
  def ∈ controllers →
  prop_of w' (if truthy (isStatic def) then VRef lm else own_at w lm "prototype")
    (name def) = handler def.
Proof. apply loadController_handlers. Qed.

Lemma handlers_are_bound_witness :
  ∃ w', loadController (VRef 0) [login_controller; ping_controller] load_world
        = Ret (tt, w') ∧
        own_at w' 0 "endpoint:login" = VRef 5 ∧
        own_at w' 1 "prototype.endpoint:ping" = VRef 9.
Proof.
  assert (∃ w', loadController (VRef 0) [login_controller; ping_controller] load_world
                = Ret (tt, w')) as [w' H] by (eexists; vm_compute; reflexivity).
  assert (Hnd : NoDup (name <$> [login_controller; ping_controller])).
  { compute_done. }
  assert (Hres : Forall (λ d, name d ∉ reserved) [login_controller; ping_controller]).
  { compute_done. }
  exists w'. split; [exact H|]. split.
  - apply (handlers_are_bound 0 _ load_world tt w' login_controller H Hnd Hres).
    vm_compute. left.
  - apply (handlers_are_bound 0 _ load_world tt w' ping_controller H Hnd Hres).
    vm_compute. right. left.
Defined.

(** X21: for descriptors none of which is named [prototype], [settings]
    or [acls], on a model whose settings are at [ls]: when a descriptor
    has ACL entries, [loadController] leaves in [settings.acls] a new array
    that holds the entries the model had, then those of the descriptors in
    the order of the list; when none has, [settings.acls] is as it was. *)
Theorem acls_are_appended lm ls controllers w u w' :
  loadController (VRef lm) controllers w = Ret (u, w') →
  Forall (λ d, name d ∉ reserved) controllers →
  own_at w lm "settings" = VRef ls → valid w lm → valid w ls →
  (∀ lo, own_at w ls "acls" = VRef lo → valid w lo) →
  own_at w' lm "settings" = VRef ls ∧
  (controllers ≫= acls = [] → own_at w' ls "acls" = own_at w ls "acls") ∧
  (controllers ≫= acls ≠ [] →
   ∃ la, own_at w' ls "acls" = VRef la ∧ ¬ valid w la ∧
         kind_at w' la = Some KArray ∧
         elems_at w' la = elems_of w (own_at w ls "acls") ++ (controllers ≫= acls)).
Proof. apply loadController_acls. Qed.

Lemma acls_are_appended_witness :
  ∃ w' la, loadController (VRef 0) [login_controller; ping_controller] load_world
           = Ret (tt, w') ∧
           own_at w' 2 "acls" = VRef la ∧ elems_at w' la = [VRef 4; VRef 7] ∧
           elems_at w' 3 = [VRef 4].
Proof.
  assert (∃ w', loadController (VRef 0) [login_controller; ping_controller] load_world
                = Ret (tt, w') ∧ elems_at w' 3 = [VRef 4]) as (w' & H & Hold)
    by (eexists; vm_compute; split; reflexivity).
  assert (Hres : Forall (λ d, name d ∉ reserved) [login_controller; ping_controller]).
  { compute_done. }
  destruct (acls_are_appended 0 2 _ load_world tt w' H Hres eq_refl)
    as (_ & _ & Hacls).
  - unfold valid. simpl. lia.
  - unfold valid. simpl. lia.
  - intros lo [= <-]. unfold valid. simpl. lia.
  - destruct Hacls as (la & Hla & _ & _ & He); [discriminate|].
    exists w', la. split_and!; [exact H | exact Hla | exact He | exact Hold].
Defined.

(** X22: on a model with a prototype and with settings whose [acls], when
    given, is an array, [loadController] runs through for descriptors named
    as [prepare] names them, [endpoint:<key>] or
    [prototype.endpoint:<key>], whose hooks are [beforeRemote],
    [afterRemote] or [afterRemoteError] hooks: it raises no error and
    returns. *)
Theorem loadController_runs_through lm controllers w :
  loadable w lm controllers →
  ∃ w', loadController (VRef lm) controllers w = Ret (tt, w').
Proof.
  intros ([] & w' & H)%loadController_returns. eauto.
Qed.

Lemma load_world_loadable : loadable load_world 0 [login_controller; ping_controller].
Proof.
  split.
  - compute_done.
  - exists 1. split; [reflexivity | compute_done].
  - exists 2. split; [reflexivity|]. split; [compute_done|].
    right. by exists 3.
  - repeat constructor; [by exists "login" | by exists "ping"].
  - compute_done.
Defined.

Lemma loadController_runs_through_witness :
  ∃ w', loadController (VRef 0) [login_controller; ping_controller] load_world
        = Ret (tt, w').
Proof.
  exact (loadController_runs_through 0 _ load_world load_world_loadable).
Defined.

(** ** [Controller] *)

(** X23: the [map] of [Controller] over the keys of the loaded array gives
    one descriptor per key, in order; each is named after its key,
    [endpoint:<key>] or [prototype.endpoint:<key>], whatever name the
    definition carried. *)
Theorem descriptors_are_named_after_keys controllers keys w cs w' :
  prepare_all controllers keys w = Ret (cs, w') → Forall2 named_after keys cs.
Proof. apply prepare_all_names. Qed.

Lemma descriptors_are_named_after_keys_witness :
  ∃ cs w', prepare_all (VRef 0) ["report"] file_world = Ret (cs, w') ∧
           Forall2 named_after ["report"] cs.
Proof.
  assert (∃ cs w', prepare_all (VRef 0) ["report"] file_world = Ret (cs, w'))
    as (cs & w' & H) by (eexists _, _; vm_compute; reflexivity).
  exists cs, w'. split; [exact H|].
  exact (descriptors_are_named_after_keys _ _ _ _ _ H).
Defined.

(** X24: descriptors prepared from distinct keys have distinct names,
    none of which is [prototype], [settings] or [acls]. *)
Theorem prepared_names_are_distinct controllers keys w cs w' :
  prepare_all controllers keys w = Ret (cs, w') →
  NoDup keys →
  NoDup (name <$> cs) ∧ Forall (λ d, name d ∉ reserved) cs.
Proof.
  intros H%prepare_all_names Hnd. split.
  - induction H as [|key c keys cs Hc H IH]; [constructor|].
    apply NoDup_cons in Hnd as [Hfresh Hnd]. cbn [fmap list_fmap].
    apply NoDup_cons. split; [|by apply IH].
    intros (c' & Heq & Hin)%list_elem_of_fmap. apply Hfresh.
    clear IH Hnd Hfresh. induction H as [|key' c0 keys cs Hc0 H IH].
    + by apply elem_of_nil in Hin.
    + apply elem_of_cons in Hin as [->|Hin].
      * rewrite (named_after_inj _ _ _ _ Hc Hc0 Heq). by left.
      * right. by apply IH.
  - induction H as [|key c keys cs Hc H IH]; constructor.
    + by eapply named_after_not_reserved.
    + apply IH. by apply NoDup_cons in Hnd as [_ ?].
Qed.

Lemma prepared_names_are_distinct_witness :
  ∃ cs w',
    prepare_all (VRef 0) ["report"; "status"] two_file_world = Ret (cs, w') ∧
    name <$> cs = ["endpoint:report"; "prototype.endpoint:status"] ∧
    NoDup (name <$> cs) ∧ Forall (λ d, name d ∉ reserved) cs.
Proof.
  assert (∃ cs w',
            prepare_all (VRef 0) ["report"; "status"] two_file_world = Ret (cs, w') ∧
            name <$> cs = ["endpoint:report"; "prototype.endpoint:status"])
    as (cs & w' & H & Hnames) by (eexists _, _; vm_compute; split; reflexivity).
  exists cs, w'. split; [exact H|]. split; [exact Hnames|].
  apply (prepared_names_are_distinct _ _ _ _ _ H). compute_done.
Defined.


Lemma one_word_pure v : pure (one_word v).
Proof. destruct v; apply pure_mret. Defined.


(** X26: the controller file [Controller] loads on an exposed model is
    [options._meta.filePath] when that is set; otherwise it is the file
    [<name>.js] in [./common/controllers/], resolved by [path.resolve],
    where the name is [options._meta.fileName] when that is set and the
    kebab case of the model's name otherwise. *)
Theorem Controller_file_path kebabCase path_resolve require Model options w u w' :
  (∀ v, pure (kebabCase v)) →
  truthy (prop_of w Model "sharedClass") = true →
  Controller kebabCase path_resolve require Model options w = Ret (u, w') →
  ∃ fileName filePath lc w0 w1,
    require filePath Model (VRef lc) w0 = Ret (tt, w1) ∧
    (if truthy (meta_of w options "fileName")
     then fileName = meta_of w options "fileName"
     else ∃ s wk, kebabCase (prop_of w Model "modelName") wk = Ret (s, wk) ∧
                  fileName = VStr s) ∧
    (if truthy (meta_of w options "filePath")
     then filePath = meta_of w options "filePath"
     else ∃ s, text fileName = Some s ∧
               filePath = VStr (path_resolve CONTROLLER_DEFAULT_DIR (s +:+ ".js"))).
Proof.
  intros Hk Hs H.
  destruct (Controller_Ret _ _ _ _ _ _ _ _ Hk Hs H)
    as (fileName & filePath & lc & w0 & w1 & w2 & controllers & names
        & Hname & Hpath & _ & _ & _ & Hreq & _).
  exists fileName, filePath, lc, w0, w1. by split_and!.
Qed.

Lemma Controller_file_path_witness :
  ∃ w' lc w0 w1,
    Controller one_word under shop_file (VRef 0) (VRef 11) meta_world = Ret (tt, w') ∧
    meta_of meta_world (VRef 11) "fileName" = VStr "shop" ∧
    meta_of meta_world (VRef 11) "filePath" = VUndefined ∧
    shop_file (VStr "./common/controllers/shop.js") (VRef 0) (VRef lc) w0
    = Ret (tt, w1).
Proof.
  assert (∃ w', Controller one_word under shop_file (VRef 0) (VRef 11) meta_world
                = Ret (tt, w')) as [w' H] by (eexists; vm_compute; reflexivity).
  destruct (Controller_file_path one_word under shop_file (VRef 0) (VRef 11)
              meta_world tt w' one_word_pure eq_refl H)
    as (fileName & filePath & lc & w0 & w1 & Hreq & Hname & Hpath).
  exists w', lc, w0, w1. split; [exact H|]. split; [reflexivity|].
  split; [reflexivity|].
  change (meta_of meta_world (VRef 11) "fileName") with (VStr "shop") in Hname.
  change (truthy (meta_of meta_world (VRef 11) "filePath")) with false in Hpath.
  cbv iota beta delta [truthy String.eqb negb] in Hname. cbv iota in Hpath.
  subst fileName. destruct Hpath as (s' & Hs' & ->). injection Hs' as <-.
  exact Hreq.
Defined.

(** X27: on an exposed model [Controller] needs its options: with
    [undefined] or [null] for options it fails with a TypeError, before
    any controller file is loaded. *)
Theorem Controller_needs_options kebabCase path_resolve require Model options w :
  truthy (prop_of w Model "sharedClass") = true →
  options = VUndefined ∨ options = VNull →
  Controller kebabCase path_resolve require Model options w = Throw TypeError.
Proof.
  intros Hs Ho. destruct Model as [| | | | |lM]; try done. simpl in Hs.
  assert (HvM : valid w lM).
  { apply valid_lookup. unfold own_at in Hs. by destruct (heap w !! lM). }
  unfold Controller. cbn [truthy]. unfold mbind at 1, M_bind at 1.
  rewrite get_ref, Hs by done. by destruct Ho as [-> | ->].
Qed.

Lemma Controller_needs_options_witness :
  Controller one_word under shop_file (VRef 0) VUndefined shop_world = Throw TypeError.
Proof.
  apply Controller_needs_options; [reflexivity | by left].
Defined.
